(** * Table-of-contents generation of node-html2epub (src/ebook.js)

    A shallow embedding of the heading extraction ([getHeadingID],
    [parseHeadingsSync]) and of the table-of-contents builders
    ([buildToC_txt], [buildToC_json], [buildToC_ncx], [buildToC_xhtml],
    [buildToC]) together with the properties of the specification that
    concern them, followed by the parts of the program around them: the
    command line ([parseArgsSync]), the files of the book ([findFilesSync]),
    the identifier ([getUUID]) and the manifest and spine of the package
    document ([zeroPadding], [buildOPF_manifest_spine]). *)

From Stdlib Require Import List String Ascii Arith Bool Lia DecimalString DecimalNat
  Permutation.
From Stdlib Require HexadecimalString.
Import ListNotations.
Open Scope string_scope.
Open Scope list_scope.
Open Scope nat_scope.

Set Implicit Arguments.
Set Warnings "-register-all".

(** ** JavaScript values used by the program *)

Module Js.

(** A value that is either a string or [undefined]. *)
Definition value := option string.

(** Truthiness of a string-or-undefined value: [undefined] and the empty
    string are falsy. *)
Definition truthy (v : value) : bool :=
  match v with
  | Some EmptyString => false
  | Some _ => true
  | None => false
  end.

(** [s.length] is non-zero. *)
Definition nonempty (s : string) : bool :=
  match s with
  | EmptyString => false
  | _ => true
  end.

(** Decimal rendering of a number, as string concatenation does it. *)
Definition of_nat (n : nat) : string := NilEmpty.string_of_uint (Nat.to_uint n).

(** The outcome of a computation that writes to [console.error] and may
    throw; the lines written so far survive the throw. *)
Inductive outcome (A : Type) : Type :=
| Done (a : A) (err : list string)
| Throw (err : list string).
Arguments Throw {A} err.

(** What reached [console.error], whether the computation returned or threw. *)
Definition diagnostics (A : Type) (o : outcome A) : list string :=
  match o with
  | Done _ err => err
  | Throw err => err
  end.

(** A computation that may throw, without output of its own. *)
Definition attempt (A : Type) := option A.

End Js.

Import Js.

(** ** Data model: headings and pages (src/ebook.js, 117-137) *)

Record heading : Type := Heading {
  level : nat;
  title : string;
  href  : Js.value
}.

Record page : Type := Page {
  page_href : string;
  headings  : list heading
}.

(** The nested [forEach] of every builder visits the headings of all pages in
    order. *)
Definition stream (pages : list page) : list heading :=
  flat_map headings pages.

(** ** The document interface of cheerio used by the program *)

Module Dom.

(** A document node: character data or an element with its attributes and
    children. *)
Inductive node : Type :=
| Text (s : string)
| Elem (tag : string) (attrs : list (string * string)) (kids : list node).

Definition join (l : list string) : string := fold_right String.append "" l.

(** [.text()]: the character data below a node, in document order. *)
Fixpoint text (n : node) : string :=
  match n with
  | Text s => s
  | Elem _ _ ks => join (map text ks)
  end.

Fixpoint lookup (name : string) (attrs : list (string * string)) : Js.value :=
  match attrs with
  | [] => None
  | (k, v) :: attrs' => if String.eqb k name then Some v else lookup name attrs'
  end.

(** [.attr(name)]: [undefined] when the element has no such attribute. *)
Definition attr (name : string) (n : node) : Js.value :=
  match n with
  | Text _ => None
  | Elem _ attrs _ => lookup name attrs
  end.

Definition tagName (n : node) : string :=
  match n with
  | Text _ => ""
  | Elem tg _ _ => tg
  end.

(** One level of the way from an element up to the document: the tag and
    attributes of the parent, and the parent's own siblings ([f_before]
    nearest first). *)
Record frame : Type := Frame {
  f_tag : string;
  f_attrs : list (string * string);
  f_before : list node;
  f_after : list node
}.

(** A selection of one element: the element, the siblings before it
    (nearest first) and after it, and the way up. *)
Record loc : Type := Loc {
  here : node;
  before : list node;
  after : list node;
  above : list frame
}.

(** [.parent()]: the empty selection at an element of the top level. *)
Definition parent (e : loc) : option loc :=
  match above e with
  | [] => None
  | f :: up =>
      Some (Loc (Elem (f_tag f) (f_attrs f) (rev_append (before e) (here e :: after e)))
                (f_before f) (f_after f) up)
  end.

(** [.prev()]: the nearest preceding sibling that is an element; character
    data between elements is stepped over. *)
Fixpoint prev_from (l : list node) (skipped : list node) (e : loc) : option loc :=
  match l with
  | [] => None
  | Text s :: l' => prev_from l' (Text s :: skipped) e
  | Elem tg at_ ks :: l' =>
      Some (Loc (Elem tg at_ ks) l' (rev_append skipped (here e :: after e)) (above e))
  end.

Definition prev (e : loc) : option loc := prev_from (before e) [] e.

(** All elements below (and including) a node, in document order. *)
Fixpoint elements (n : node) (l r : list node) (up : list frame) {struct n} : list loc :=
  match n with
  | Text _ => []
  | Elem tg at_ ks =>
      Loc n l r up ::
      (fix inside (ks : list node) (seen : list node) {struct ks} : list loc :=
         match ks with
         | [] => []
         | k :: ks' => elements k seen ks' (Frame tg at_ l r :: up) ++ inside ks' (k :: seen)
         end) ks []
  end.

(** A loaded document is the sequence of its top-level nodes. *)
Definition document := list node.

Fixpoint elements_of (d : document) (seen : list node) : list loc :=
  match d with
  | [] => []
  | n :: d' => elements n seen d' [] ++ elements_of d' (n :: seen)
  end.

(** [$('h1, h2, h3, h4, h5, h6')] *)
Definition is_heading (e : loc) : bool :=
  existsb (String.eqb (tagName (here e))) ["h1"; "h2"; "h3"; "h4"; "h5"; "h6"].

Definition select_headings (d : document) : list loc :=
  filter is_heading (elements_of d []).

End Dom.

Import Dom.

(** ** Heading extraction (src/ebook.js, 86-141) *)

Module Extract.

(** Lines 97-101: the text of every preceding sibling element, nearest
    first.  [l] is the list of preceding sibling nodes. *)
Fixpoint prev_text (l : list node) : string :=
  match l with
  | [] => ""
  | Text _ :: l' => prev_text l'
  | Elem tg at_ ks :: l' => (text (Elem tg at_ ks) ++ prev_text l')%string
  end.

(** Lines 92-103: one run of the [while] loop per level, from the element
    [Loc here l r up] with the text [txt] and the identifier [id] of the
    previous run. *)
Fixpoint climb (up : list frame) (here : node) (l r : list node)
         (txt : string) (id : Js.value) {struct up} : Js.value :=
  if Js.nonempty txt then id
  else
    let id := attr "id" here in
    if Js.truthy id then id
    else
      let txt := (txt ++ prev_text l)%string in
      match up with
      | [] => id
      | f :: up' =>
          climb up' (Elem (f_tag f) (f_attrs f) (rev_append l (here :: r)))
                (f_before f) (f_after f) txt id
      end.

Definition getHeadingID (elt : loc) : Js.value :=
  climb (above elt) (here elt) (before elt) (after elt) "" (Some "").

(** The element and its ancestors, nearest first: what the loop of lines
    92-103 may visit. *)
Fixpoint chain_from (up : list frame) (here : node) (l r : list node) {struct up} : list loc :=
  Loc here l r up ::
  match up with
  | [] => []
  | f :: up' =>
      chain_from up' (Elem (f_tag f) (f_attrs f) (rev_append l (here :: r)))
                 (f_before f) (f_after f)
  end.

Definition chain (elt : loc) : list loc :=
  chain_from (above elt) (here elt) (before elt) (after elt).

(** The element carries an identifier that line 94 accepts. *)
Definition has_id (elt : loc) : bool := Js.truthy (attr "id" (here elt)).

(** The node is an element, not character data. *)
Definition is_element (n : node) : bool :=
  match n with
  | Text _ => false
  | Elem _ _ _ => true
  end.

(** The text of the sibling elements that stand before an element, nearest
    first. *)
Definition elements_before (elt : loc) : string :=
  join (map text (filter is_element (before elt))).

(** The leading text of the comment at lines 89-90, read as the text of all
    that stands before an element in its parent, character data included,
    nearest first. *)
Definition text_before (elt : loc) : string := join (map text (before elt)).

(** The white space of [\s], among the code units below 256. *)
Definition is_space (c : ascii) : bool :=
  let n := nat_of_ascii c in
  ((9 <=? n) && (n <=? 13)) || (n =? 32) || (n =? 160).

Fixpoint trim_start (s : string) : string :=
  match s with
  | EmptyString => EmptyString
  | String c r => if is_space c then trim_start r else s
  end.

Fixpoint trim_end (s : string) : string :=
  match s with
  | EmptyString => EmptyString
  | String c r =>
      match trim_end r with
      | EmptyString => if is_space c then EmptyString else String c EmptyString
      | r' => String c r'
      end
  end.

(** [.replace(/\s+/g, ' ')] *)
Fixpoint collapse (in_run : bool) (s : string) : string :=
  match s with
  | EmptyString => EmptyString
  | String c r =>
      if is_space c
      then (if in_run then collapse true r else String " "%char (collapse true r))
      else String c (collapse false r)
  end.

(** Line 119. *)
Definition normalize (s : string) : string :=
  collapse false (trim_end (trim_start s)).

(** [parseInt(s, 10)] on a string of decimal digits. *)
Fixpoint parseInt_from (acc : nat) (s : string) : nat :=
  match s with
  | EmptyString => acc
  | String c r =>
      let n := nat_of_ascii c in
      if (48 <=? n) && (n <=? 57) then parseInt_from (10 * acc + (n - 48)) r else acc
  end.

(** Line 118: [parseInt(element.tagName.substr(1), 10) - 1]. *)
Definition heading_level (tagName : string) : nat :=
  match tagName with
  | EmptyString => 0
  | String _ r => parseInt_from 0 r - 1
  end.

(** Lines 116-127: the heading object of the [index]-th heading element
    of the page [pageHref]. *)
Definition heading_of (pageHref : string) (index : nat) (elt : loc) : heading :=
  let id := getHeadingID elt in
  Heading (heading_level (Dom.tagName (here elt)))
          (normalize (text (here elt)))
          (match id with
           | Some (String c r) => Some (pageHref ++ "#" ++ String c r)%string
           | _ => if index =? 0 then Some pageHref else None
           end).

(** Line 129: [h.href || keepAllHeadings]. *)
Definition kept (keepAllHeadings : bool) (h : heading) : bool :=
  Js.truthy (href h) || keepAllHeadings.

(** Lines 115-132: [.each] over the selection, from [index] on. *)
Fixpoint each (pageHref : string) (keepAllHeadings : bool) (index : nat) (sel : list loc)
  : list heading :=
  match sel with
  | [] => []
  | elt :: sel' =>
      let h := heading_of pageHref index elt in
      if kept keepAllHeadings h
      then h :: each pageHref keepAllHeadings (S index) sel'
      else each pageHref keepAllHeadings (S index) sel'
  end.

Section Pages.

(** [cheerio.load(fs.readFileSync(path.resolve(basedir, href)))]: the
    document of a page, or nothing when the file cannot be read. *)
Variable load : string -> string -> option document.

Definition parsePage (basedir : string) (keepAllHeadings : bool) (pageHref : string)
  : option page :=
  match load basedir pageHref with
  | Some d => Some (Page pageHref (each pageHref keepAllHeadings 0 (select_headings d)))
  | None => None
  end.

(** Lines 108-141; nothing when [readFileSync] throws. *)
Fixpoint parseHeadingsSync (basedir : string) (hrefs : list string)
         (keepAllHeadings : bool) : option (list page) :=
  match hrefs with
  | [] => Some []
  | pageHref :: hrefs' =>
      match parsePage basedir keepAllHeadings pageHref with
      | Some pg =>
          match parseHeadingsSync basedir hrefs' keepAllHeadings with
          | Some pgs => Some (pg :: pgs)
          | None => None
          end
      | None => None
      end
  end.

End Pages.

End Extract.

Import Extract.

(** Every builder skips the headings with [heading.level >= depth]. *)
Definition in_range (depth : nat) (h : heading) : bool := level h <? depth.

(** The level and the title of a heading, as an entry of an outline. *)
Definition labelled (h : heading) : nat * Js.value := (level h, Some (title h)).

(** ** The nested structural form (src/ebook.js, 165-212) *)

Module Json.

(** An object of the tree: [{title, href, children}], each field possibly
    absent.  The heading objects [t] have a title, the placeholders [{}]
    have none. *)
Inductive entry : Type :=
| Entry (e_title : Js.value) (e_href : Js.value) (e_children : option (list entry)).

Definition e_title (e : entry) : Js.value := let (t, _, _) := e in t.
Definition e_href (e : entry) : Js.value := let (_, h, _) := e in h.
Definition e_children (e : entry) : option (list entry) := let (_, _, c) := e in c.

(** A reference to an object of the tree is the list of child indices that
    leads to it from [toc].  The program only ever appends to a [children]
    array or replaces the array of the object [current] itself, so the
    indices of a live reference never move. *)
Abbreviation path := (list nat).

Fixpoint get (t : entry) (p : path) : option entry :=
  match p with
  | [] => Some t
  | i :: p' =>
      match e_children t with
      | Some cs =>
          match nth_error cs i with
          | Some c => get c p'
          | None => None
          end
      | None => None
      end
  end.

Fixpoint upd_nth (A : Type) (i : nat) (f : A -> A) (l : list A) : list A :=
  match l, i with
  | [], _ => []
  | x :: l', 0 => f x :: l'
  | x :: l', S i' => x :: upd_nth i' f l'
  end.

(** In-place modification of the object a reference points to. *)
Fixpoint update (f : entry -> entry) (t : entry) (p : path) : entry :=
  match p with
  | [] => f t
  | i :: p' =>
      match t with
      | Entry ti h (Some cs) => Entry ti h (Some (upd_nth i (fun c => update f c p') cs))
      | _ => t
      end
  end.

(** [o.children = []] *)
Definition set_children (cs : list entry) (e : entry) : entry :=
  Entry (e_title e) (e_href e) (Some cs).

(** [o.children.push(x)] on an object that has a [children] array. *)
Definition push_child (x : entry) (e : entry) : entry :=
  Entry (e_title e) (e_href e) (Some (match e_children e with
                                      | Some cs => cs ++ [x]
                                      | None => [x]
                                      end)).

(** The variables of [buildToC_json]; [current] is a reference or
    [undefined]. *)
Record builder : Type := Builder {
  toc : entry;
  current : option path;
  currentLevel : nat
}.

(** [current.children]: throws when [current] is [undefined]; the result
    is [undefined] when the object has no such field. *)
Definition children_of (t : entry) (cur : option path) : attempt (option (list entry)) :=
  match cur with
  | None => None
  | Some p =>
      match get t p with
      | Some e => Some (e_children e)
      | None => None
      end
  end.

(** [current.children[current.children.length - 1]]: throws when [current]
    or its [children] is [undefined]; on an empty array the result is
    [undefined]. *)
Definition last_child (t : entry) (cur : option path) : attempt (option path) :=
  match cur, children_of t cur with
  | Some p, Some (Some cs) =>
      match cs with
      | [] => Some None
      | _ => Some (Some (p ++ [List.length cs - 1]))
      end
  | _, _ => None
  end.

(** [current.children = []]: throws when [current] is [undefined]. *)
Definition reset_children (t : entry) (cur : option path) : attempt entry :=
  match cur with
  | None => None
  | Some p => Some (update (set_children []) t p)
  end.

(** [current.children.push(x)]: throws when [current] or its [children]
    is [undefined]. *)
Definition push (x : entry) (t : entry) (cur : option path) : attempt entry :=
  match cur, children_of t cur with
  | Some p, Some (Some _) => Some (update (push_child x) t p)
  | _, _ => None
  end.

(** Lines 181-183: [for (i = 0; i < heading.level; i++) current = last]. *)
Fixpoint ascend (t : entry) (cur : option path) (n : nat) : attempt (option path) :=
  match n with
  | 0 => Some cur
  | S n' =>
      match last_child t cur with
      | Some cur' => ascend t cur' n'
      | None => None
      end
  end.

(** The placeholder object [{}]. *)
Definition placeholder : entry := Entry None None None.

(** Lines 193-197: one round of the loop that creates nested branches. *)
Definition nest_once (t : entry) (cur : option path) : attempt (entry * option path) :=
  match children_of t cur with
  | Some (Some cs) =>
      match (if Nat.eqb (List.length cs) 0 then push placeholder t cur else Some t) with
      | Some t1 =>
          match last_child t1 cur with
          | Some cur1 =>
              match reset_children t1 cur1 with
              | Some t2 => Some (t2, cur1)
              | None => None
              end
          | None => None
          end
      | None => None
      end
  | _ => None
  end.

(** Lines 192-198: [for (j = 0; j < heading.level - currentLevel; j++)]. *)
Fixpoint nest (t : entry) (cur : option path) (n : nat) : attempt (entry * option path) :=
  match n with
  | 0 => Some (t, cur)
  | S n' =>
      match nest_once t cur with
      | Some (t2, cur1) => nest t2 cur1 n'
      | None => None
      end
  end.

(** Line 188. *)
Definition diagnostic (h : heading) : string :=
  ("non-continous heading (h" ++ Js.of_nat (level h + 1) ++ "): " ++ title h)%string.

(** Lines 173-176: the object [t] of a heading. *)
Definition entry_of (h : heading) : entry := Entry (Some (title h)) (href h) None.

(** Lines 203-206, for a heading object [t] that is not [null]. *)
Definition add (h : heading) (t : entry) (cur : option path) (err : list string)
  : Js.outcome builder :=
  match push (entry_of h) t cur with
  | Some t' => Done (Builder t' cur (level h)) err
  | None => Throw err
  end.

(** The body of the inner [forEach] callback, lines 172-207. *)
Definition visit (depth : nat) (strict : bool) (st : builder) (err : list string)
           (h : heading) : Js.outcome builder :=
  if level h <? depth then
    if level h <? currentLevel st then
      match ascend (toc st) (Some []) (level h) with
      | Some cur => add h (toc st) cur err
      | None => Throw err
      end
    else if level h =? currentLevel st + 1 then
      match last_child (toc st) (current st) with
      | Some cur =>
          match reset_children (toc st) cur with
          | Some t => add h t cur err
          | None => Throw err
          end
      | None => Throw err
      end
    else if currentLevel st + 1 <? level h then
      let err' := err ++ [diagnostic h] in
      if strict then Done st err'
      else
        match nest (toc st) (current st) (level h - currentLevel st) with
        | Some (t, cur) => add h t cur err'
        | None => Throw err'
        end
    else add h (toc st) (current st) err
  else Done st err.

(** [page.headings.forEach] *)
Fixpoint visit_all (depth : nat) (strict : bool) (st : builder) (err : list string)
         (hs : list heading) : Js.outcome builder :=
  match hs with
  | [] => Done st err
  | h :: hs' =>
      match visit depth strict st err h with
      | Done st' err' => visit_all depth strict st' err' hs'
      | Throw err' => Throw err'
      end
  end.

(** [pages.forEach] *)
Fixpoint visit_pages (depth : nat) (strict : bool) (st : builder) (err : list string)
         (pages : list page) : Js.outcome builder :=
  match pages with
  | [] => Done st err
  | pg :: pages' =>
      match visit_all depth strict st err (headings pg) with
      | Done st' err' => visit_pages depth strict st' err' pages'
      | Throw err' => Throw err'
      end
  end.

(** Lines 166-168. *)
Definition init : builder := Builder (Entry None None (Some [])) (Some []) 0.

(** The whole run, with the final values of the variables. *)
Definition run (pages : list page) (depth : nat) (strict : bool) : Js.outcome builder :=
  visit_pages depth strict init [] pages.

(** [toc.children] of the root object, which always has the field. *)
Definition root_children (t : entry) : list entry :=
  match e_children t with
  | Some cs => cs
  | None => []
  end.

Definition buildToC_json (pages : list page) (depth : nat) (strict : bool)
  : Js.outcome (list entry) :=
  match run pages depth strict with
  | Done st err => Done (root_children (toc st)) err
  | Throw err => Throw err
  end.

(** *** The tree order of the result *)

(** The entries of a tree in depth-first order, each with its depth and
    its title; a placeholder shows as an entry without title. *)
Fixpoint outline_at (d : nat) (e : entry) : list (nat * Js.value) :=
  match e with
  | Entry t _ cs =>
      (d, t) :: match cs with
                | Some l => flat_map (outline_at (S d)) l
                | None => []
                end
  end.

(** The entries below an object, its children at depth [d]. *)
Definition below (d : nat) (e : entry) : list (nat * Js.value) :=
  match e_children e with
  | Some l => flat_map (outline_at d) l
  | None => []
  end.

Definition outline (tree : list entry) : list (nat * Js.value) :=
  flat_map (outline_at 0) tree.

(** The titles of an outline, placeholders left out. *)
Definition titles_of (o : list (nat * Js.value)) : list string :=
  flat_map (fun x => match snd x with Some s => [s] | None => [] end) o.

Definition titles (tree : list entry) : list string := titles_of (outline tree).

(** A reference that descends through the last child at every level. *)
Fixpoint rightmost (t : entry) (p : path) : Prop :=
  match p with
  | [] => True
  | i :: p' =>
      match e_children t with
      | Some cs =>
          S i = List.length cs /\
          match nth_error cs i with
          | Some c => rightmost c p'
          | None => False
          end
      | None => False
      end
  end.

(** [p] is such a reference to an object whose [children] array is [cs]. *)
Definition open_at (t : entry) (p : path) (cs : list entry) : Prop :=
  rightmost t p /\ exists n, get t p = Some n /\ e_children n = Some cs.

Definition started (cs : list entry) : bool :=
  match cs with
  | [] => false
  | _ => true
  end.

(** The last element of [cs], if any, has no [children] field. *)
Definition ends_in_leaf (cs : list entry) : Prop :=
  forall front c, cs = front ++ [c] -> e_children c = None.

(** What holds of the variables between two headings. *)
Record consistent (st : builder) (p : path) (cs : list entry) : Prop := Consistent {
  cons_current : current st = Some p;
  cons_level : List.length p = currentLevel st;
  cons_open : open_at (toc st) p cs;
  cons_leaf : ends_in_leaf cs
}.

(** *** The outline read off the heading levels alone *)

(** Placeholders at the depths [from], ..., [to - 1]. *)
Definition gaps (from to : nat) : list (nat * Js.value) :=
  map (fun d => (d, None)) (seq from (to - from)).

(** The outline that the headings [hs] add, from the level [cur] of the
    last entry; [started] tells whether an entry was added before.  Nothing
    when the builder throws. *)
Fixpoint expected (strict : bool) (depth : nat) (started : bool) (cur : nat)
         (hs : list heading) : option (list (nat * Js.value)) :=
  match hs with
  | [] => Some []
  | h :: hs' =>
      if in_range depth h then
        if (level h =? cur + 1) && negb started then None
        else if (cur + 1 <? level h) && strict then expected strict depth started cur hs'
        else
          option_map
            (app ((if cur + 1 <? level h
                   then gaps (if started then cur + 1 else cur) (level h)
                   else []) ++ [labelled h]))
            (expected strict depth true (level h) hs')
      else expected strict depth started cur hs'
  end.

(** The headings that become entries: those in range, less the ones that
    strict mode discards at a jump. *)
Fixpoint emitted (strict : bool) (depth : nat) (cur : nat) (hs : list heading)
  : list heading :=
  match hs with
  | [] => []
  | h :: hs' =>
      if in_range depth h && negb ((cur + 1 <? level h) && strict)
      then h :: emitted strict depth (level h) hs'
      else emitted strict depth cur hs'
  end.

(** No heading in range is more than one level below the one before it,
    counted from the level [cur]. *)
Fixpoint contiguous (depth : nat) (cur : nat) (hs : list heading) : Prop :=
  match hs with
  | [] => True
  | h :: hs' =>
      if in_range depth h
      then level h <= cur + 1 /\ contiguous depth (level h) hs'
      else contiguous depth cur hs'
  end.

(** A sequence of levels that never decreases and never increases by more
    than one from one heading to the next. *)
Fixpoint gentle (ls : list nat) : Prop :=
  match ls with
  | [] => True
  | l :: rest =>
      match rest with
      | [] => True
      | l' :: _ => l <= l' <= l + 1 /\ gentle rest
      end
  end.

End Json.

Import Json.


(** ** The flat indented text (src/ebook.js, 143-163) *)

Module Txt.

Definition nl : string := String (ascii_of_nat 10) EmptyString.

(** Lines 143-149. *)
Fixpoint spaces (level : nat) (txt : string) : string :=
  match level with
  | 0 => txt
  | S n => spaces n (txt ++ "  ")%string
  end.

Definition indent (level : nat) : string := spaces level (nl ++ "    ")%string.

(** Line 156-158, the body of the inner callback. *)
Definition add_line (depth : nat) (txt : string) (h : heading) : string :=
  if level h <? depth then (txt ++ (indent (level h) ++ title h))%string else txt.

Definition add_page (depth : nat) (txt : string) (pg : page) : string :=
  fold_left (add_line depth) (headings pg) txt.

Definition buildToC_txt (pages : list page) (depth : nat) : string :=
  (fold_left (add_page depth) pages "" ++ nl)%string.

(** The lines of the text, each with its level of indentation. *)
Definition lines (pages : list page) (depth : nat) : list (nat * string) :=
  map (fun h => (level h, title h)) (filter (in_range depth) (stream pages)).

Definition render_lines (ls : list (nat * string)) : string :=
  (fold_left (fun txt l => txt ++ (indent (fst l) ++ snd l)) ls "" ++ nl)%string.

End Txt.

Import Txt.

(** ** The navigation documents (src/ebook.js, 214-277) *)

Module Nav.

(** A reference to an element of the document under construction is the
    list of child indices that lead to it from the root (a [path] as in the
    tree above).  The builders only append children, so the indices of a
    reference never move. *)
Definition kids_of (n : node) : list node :=
  match n with
  | Text _ => []
  | Elem _ _ ks => ks
  end.

Fixpoint node_at (n : node) (p : path) : option node :=
  match p with
  | [] => Some n
  | i :: p' =>
      match nth_error (kids_of n) i with
      | Some k => node_at k p'
      | None => None
      end
  end.

Fixpoint modify (f : node -> node) (n : node) (p : path) : node :=
  match p with
  | [] => f n
  | i :: p' =>
      match n with
      | Elem tg at_ ks => Elem tg at_ (Json.upd_nth i (fun k => modify f k p') ks)
      | Text s => Text s
      end
  end.

Definition is_elem (tg : string) (n : node) : bool :=
  match n with
  | Text _ => false
  | Elem tg' _ _ => String.eqb tg' tg
  end.

Section Scan.

Variable tg : string.
Variable below : node -> option path.

(** The last match among the nodes [ks] and what is below them, the first
    of which is child number [i]. *)
Fixpoint scan (ks : list node) (i : nat) {struct ks} : option path :=
  match ks with
  | [] => None
  | k :: ks' =>
      match scan ks' (S i) with
      | Some p => Some p
      | None =>
          match below k with
          | Some p => Some (i :: p)
          | None => if is_elem tg k then Some [i] else None
          end
      end
  end.

End Scan.

(** The last element named [tg] strictly below [n], in document order. *)
Fixpoint last_below (tg : string) (n : node) {struct n} : option path :=
  match n with
  | Text _ => None
  | Elem _ _ ks => scan tg (last_below tg) ks 0
  end.

(** A selection of at most one element. *)
Definition selection := option path.

(** [sel.find(tg).last()] *)
Definition find_last (tg : string) (root : node) (sel : selection) : selection :=
  match sel with
  | None => None
  | Some p =>
      match node_at root p with
      | Some n =>
          match last_below tg n with
          | Some q => Some (p ++ q)
          | None => None
          end
      | None => None
      end
  end.

Definition append_kids (new : list node) (n : node) : node :=
  match n with
  | Text s => Text s
  | Elem tg at_ ks => Elem tg at_ (ks ++ new)
  end.

(** [sel.append(markup)], with the nodes the markup parses to; nothing
    happens on the empty selection. *)
Definition append (new : list node) (root : node) (sel : selection) : node :=
  match sel with
  | None => root
  | Some p => modify (append_kids new) root p
  end.

(** A sparse array of selections indexed by level. *)
Definition slots := nat -> option selection.

Definition assign (a : slots) (i : nat) (s : selection) : slots :=
  fun j => if j =? i then Some s else a j.

(** ['' + v] *)
Definition to_string (v : Js.value) : string :=
  match v with
  | Some s => s
  | None => "undefined"
  end.

(** *** EPUB3, lines 248-277: the variables *)

Record xhtml_state : Type := XhtmlState {
  x_root : node;
  ol : slots;
  x_currentLevel : nat
}.

(** The document of line 249 and the selection [$('ol')]. *)
Definition xhtml_init : xhtml_state :=
  XhtmlState
    (Elem "root" []
       [Text "  ";
        Elem "nav" [("epub:type", "toc")] [Elem "ol" [] []; Text (nl ++ "  ")%string]])
    (assign (fun _ => None) 0 (Some [1; 0]))
    0.

(** *** EPUB2, lines 214-246: the variables *)

Record ncx_state : Type := NcxState {
  n_root : node;
  nav : slots;
  n_currentLevel : nat;
  playOrder : nat
}.

Definition ncx_init : ncx_state :=
  NcxState (Elem "root" [] [Elem "navMap" [] []])
           (assign (fun _ => None) 0 (Some [0]))
           0 1.

(** *** The markup written for a heading *)

(** The double quote character of the markup literals. *)
Definition dq : string := String (ascii_of_nat 34) EmptyString.

(** Lines 259-261: [title]. *)
Definition title_markup (h : heading) : string :=
  if Js.truthy (href h)
  then ("<a href=" ++ dq ++ to_string (href h) ++ dq ++ ">" ++ title h ++ "</a>")%string
  else ("<span>" ++ title h ++ "</span>")%string.

(** Line 262: [li]. *)
Definition li_markup (h : heading) : string :=
  (indent (level h) ++ "<li>" ++ title_markup h ++ "</li>")%string.

(** Lines 226-230: [point]. *)
Definition point_markup (playOrder : nat) (h : heading) : string :=
  (indent (level h) ++
   "<navPoint id=" ++ dq ++ "nav_" ++ Js.of_nat playOrder ++ dq ++
   " playOrder=" ++ dq ++ Js.of_nat playOrder ++ dq ++ ">" ++
   "<navLabel><text>" ++ title h ++ "</text></navLabel>" ++
   "<content src=" ++ dq ++ to_string (href h) ++ dq ++ " />" ++
   "</navPoint>")%string.

Section Markup.

(** The collaborator: the nodes that cheerio reads from a piece of markup
    handed to [append], with the options [xmlMode: true] and
    [decodeEntities: false] of the two documents. *)
Variable parse : string -> list node.

(** Lines 258-272; nothing when a [TypeError] is thrown. *)
Definition xhtml_visit (depth : nat) (st : xhtml_state) (h : heading) : option xhtml_state :=
  if level h <? depth then
    let li := li_markup h in
    if level h <=? x_currentLevel st then
      match ol st (level h) with
      | Some sel => Some (XhtmlState (append (parse li) (x_root st) sel) (ol st) (level h))
      | None => None
      end
    else
      match ol st (x_currentLevel st) with
      | Some sel =>
          let root := append (parse ("<ol>" ++ li ++ "</ol>")%string) (x_root st)
                             (find_last "li" (x_root st) sel) in
          Some (XhtmlState root (assign (ol st) (level h) (find_last "ol" root sel)) (level h))
      | None => None
      end
  else Some st.

Fixpoint xhtml_all (depth : nat) (st : xhtml_state) (hs : list heading) : option xhtml_state :=
  match hs with
  | [] => Some st
  | h :: hs' =>
      match xhtml_visit depth st h with
      | Some st' => xhtml_all depth st' hs'
      | None => None
      end
  end.

Fixpoint xhtml_pages (depth : nat) (st : xhtml_state) (pages : list page)
  : option xhtml_state :=
  match pages with
  | [] => Some st
  | pg :: pages' =>
      match xhtml_all depth st (headings pg) with
      | Some st' => xhtml_pages depth st' pages'
      | None => None
      end
  end.

(** The document that [$.html()] serializes. *)
Definition buildToC_xhtml (pages : list page) (depth : nat) : option node :=
  option_map x_root (xhtml_pages depth xhtml_init pages).

(** Lines 225-241. *)
Definition ncx_visit (depth : nat) (st : ncx_state) (h : heading) : option ncx_state :=
  if level h <? depth then
    let point := point_markup (playOrder st) h in
    if level h <=? n_currentLevel st then
      match nav st (level h) with
      | Some sel =>
          Some (NcxState (append (parse point) (n_root st) sel) (nav st) (level h)
                         (S (playOrder st)))
      | None => None
      end
    else
      match nav st (n_currentLevel st) with
      | Some sel =>
          let last := find_last "navPoint" (n_root st) sel in
          Some (NcxState (append (parse point) (n_root st) last)
                         (assign (nav st) (level h) last)
                         (level h) (S (playOrder st)))
      | None => None
      end
  else Some st.

Fixpoint ncx_all (depth : nat) (st : ncx_state) (hs : list heading) : option ncx_state :=
  match hs with
  | [] => Some st
  | h :: hs' =>
      match ncx_visit depth st h with
      | Some st' => ncx_all depth st' hs'
      | None => None
      end
  end.

Fixpoint ncx_pages (depth : nat) (st : ncx_state) (pages : list page) : option ncx_state :=
  match pages with
  | [] => Some st
  | pg :: pages' =>
      match ncx_all depth st (headings pg) with
      | Some st' => ncx_pages depth st' pages'
      | None => None
      end
  end.

Definition buildToC_ncx (pages : list page) (depth : nat) : option node :=
  option_map n_root (ncx_pages depth ncx_init pages).

End Markup.

(** *** The tree order of a navigation document *)

(** The title shown by an item: the text of its first child. *)
Definition label (ks : list node) : string :=
  match ks with
  | k :: _ => text k
  | [] => ""
  end.

(** The items (the elements named [tg]) of a document in document order,
    each with its nesting depth among the items and its title. *)
Fixpoint items_at (tg : string) (d : nat) (n : node) : list (nat * Js.value) :=
  match n with
  | Text _ => []
  | Elem t _ ks =>
      if String.eqb t tg
      then (d, Some (label ks)) :: flat_map (items_at tg (S d)) ks
      else flat_map (items_at tg d) ks
  end.

Definition items (tg : string) (root : node) : list (nat * Js.value) := items_at tg 0 root.

End Nav.

Import Nav.


(** ** The navigation documents when the markup is read as written *)

Module Written.

(** The nodes that a title stands for when it is plain character data: an
    empty title leaves no node, any other title one text node. *)
Definition chars (s : string) : list node :=
  match s with
  | EmptyString => []
  | _ => [Text s]
  end.

(** The element that the markup of [title] is written for. *)
Definition item_label (h : heading) : node :=
  if Js.truthy (href h)
  then Elem "a" [("href", to_string (href h))] (chars (title h))
  else Elem "span" [] (chars (title h)).

(** The nodes that the markup of [li] is written for. *)
Definition li_of (h : heading) : list node :=
  [Text (indent (level h)); Elem "li" [] [item_label h]].

(** The step of [xhtml_visit] when the markup of the heading is read as
    these nodes. *)
Definition xhtml_step (depth : nat) (st : xhtml_state) (h : heading) : option xhtml_state :=
  if level h <? depth then
    if level h <=? x_currentLevel st then
      match ol st (level h) with
      | Some sel => Some (XhtmlState (append (li_of h) (x_root st) sel) (ol st) (level h))
      | None => None
      end
    else
      match ol st (x_currentLevel st) with
      | Some sel =>
          let root := append [Elem "ol" [] (li_of h)] (x_root st)
                             (find_last "li" (x_root st) sel) in
          Some (XhtmlState root (assign (ol st) (level h) (find_last "ol" root sel)) (level h))
      | None => None
      end
  else Some st.

Fixpoint xhtml_steps (depth : nat) (st : xhtml_state) (hs : list heading) : option xhtml_state :=
  match hs with
  | [] => Some st
  | h :: hs' =>
      match xhtml_step depth st h with
      | Some st' => xhtml_steps depth st' hs'
      | None => None
      end
  end.

Fixpoint xhtml_page_steps (depth : nat) (st : xhtml_state) (pages : list page)
  : option xhtml_state :=
  match pages with
  | [] => Some st
  | pg :: pages' =>
      match xhtml_steps depth st (headings pg) with
      | Some st' => xhtml_page_steps depth st' pages'
      | None => None
      end
  end.

(** The EPUB3 document when every item is read as written. *)
Definition xhtml_as_written (pages : list page) (depth : nat) : option node :=
  option_map x_root (xhtml_page_steps depth xhtml_init pages).

(** The attributes and the children that the markup of a [navPoint] is
    written for. *)
Definition point_attrs (playOrder : nat) : list (string * string) :=
  [("id", ("nav_" ++ Js.of_nat playOrder)%string); ("playOrder", Js.of_nat playOrder)].

Definition point_kids (h : heading) : list node :=
  [Elem "navLabel" [] [Elem "text" [] (chars (title h))];
   Elem "content" [("src", to_string (href h))] []].

(** The nodes that the markup of [point] is written for. *)
Definition point_of (playOrder : nat) (h : heading) : list node :=
  [Text (indent (level h)); Elem "navPoint" (point_attrs playOrder) (point_kids h)].

(** The step of [ncx_visit] when the markup of the heading is read as
    these nodes. *)
Definition ncx_step (depth : nat) (st : ncx_state) (h : heading) : option ncx_state :=
  if level h <? depth then
    let point := point_of (playOrder st) h in
    if level h <=? n_currentLevel st then
      match nav st (level h) with
      | Some sel =>
          Some (NcxState (append point (n_root st) sel) (nav st) (level h) (S (playOrder st)))
      | None => None
      end
    else
      match nav st (n_currentLevel st) with
      | Some sel =>
          let last := find_last "navPoint" (n_root st) sel in
          Some (NcxState (append point (n_root st) last) (assign (nav st) (level h) last)
                         (level h) (S (playOrder st)))
      | None => None
      end
  else Some st.

Fixpoint ncx_steps (depth : nat) (st : ncx_state) (hs : list heading) : option ncx_state :=
  match hs with
  | [] => Some st
  | h :: hs' =>
      match ncx_step depth st h with
      | Some st' => ncx_steps depth st' hs'
      | None => None
      end
  end.

Fixpoint ncx_page_steps (depth : nat) (st : ncx_state) (pages : list page) : option ncx_state :=
  match pages with
  | [] => Some st
  | pg :: pages' =>
      match ncx_steps depth st (headings pg) with
      | Some st' => ncx_page_steps depth st' pages'
      | None => None
      end
  end.

(** The EPUB2 document when every point is read as written. *)
Definition ncx_as_written (pages : list page) (depth : nat) : option node :=
  option_map n_root (ncx_page_steps depth ncx_init pages).

(** The parser reads the markup of the item of [h], alone and inside a new
    list, as the nodes it was written for. *)
Definition reads_item (parse : string -> list node) (h : heading) : Prop :=
  parse (li_markup h) = li_of h /\
  parse ("<ol>" ++ li_markup h ++ "</ol>")%string = [Elem "ol" [] (li_of h)].

(** The parser reads the markup of the point of [h] with the play order
    [k] as the nodes it was written for. *)
Definition reads_point (parse : string -> list node) (k : nat) (h : heading) : Prop :=
  parse (point_markup k h) = point_of k h.

(** The same for the headings [hs], numbered from [k] on. *)
Fixpoint reads_points (parse : string -> list node) (k : nat) (hs : list heading) : Prop :=
  match hs with
  | [] => True
  | h :: hs' => reads_point parse k h /\ reads_points parse (S k) hs'
  end.

End Written.

Import Written.

(** ** The entry point of the table of contents (src/ebook.js, 279-327) *)

Module ToC.

Record config : Type := Config {
  basedir : string;
  spine : list string;
  keepAllHeadings : bool;
  depth : nat;
  strict : bool;
  charset : string;
  identifier : string;
  doc_title : Js.value;
  format : Js.value
}.

(** The double quote character of the markup literals. *)
Definition q : string := String (ascii_of_nat 34) EmptyString.

Section Build.

(** The collaborators: reading and parsing a page, [JSON.stringify(toc,
    null, 2)], [$.html()] and the reading of the markup handed to [append]. *)
Variable load : string -> string -> option document.
Variable stringify : list entry -> string.
Variable html : node -> string.
Variable parse : string -> list node.

Local Open Scope string_scope.

(** Lines 295-305. *)
Definition ncx_document (cfg : config) (navMap : string) : string :=
  "<?xml version=" ++ q ++ "1.0" ++ q ++ " encoding=" ++ q ++ charset cfg ++ q ++ "?>" ++
  nl ++ "<ncx xmlns=" ++ q ++ "http://www.daisy.org/z3986/2005/ncx/" ++ q ++
        " version=" ++ q ++ "2005-1" ++ q ++ ">" ++
  nl ++ "  <head>" ++
  nl ++ "    <meta name=" ++ q ++ "dtb:uid" ++ q ++ " content=" ++ q ++ identifier cfg ++ q ++ " />" ++
  nl ++ "    <meta name=" ++ q ++ "dtb:depth" ++ q ++ " content=" ++ q ++ Js.of_nat (depth cfg) ++ q ++ " />" ++
  nl ++ "  </head>" ++
  nl ++ "  <docTitle>" ++
  nl ++ "    <text>" ++ to_string (doc_title cfg) ++ "</text>" ++
  nl ++ "  </docTitle>" ++
  nl ++ "  " ++ navMap ++
  nl ++ "</ncx>".

(** Lines 309-319. *)
Definition xhtml_document (cfg : config) (navList : string) : string :=
  "<?xml version=" ++ q ++ "1.0" ++ q ++ " encoding=" ++ q ++ charset cfg ++ q ++ "?>" ++
  nl ++ "<html xmlns=" ++ q ++ "http://www.w3.org/1999/xhtml" ++ q ++
        " xmlns:epub=" ++ q ++ "http://www.idpf.org/2007/ops" ++ q ++ ">" ++
  nl ++ "<head>" ++
  nl ++ "  <meta charset=" ++ q ++ charset cfg ++ q ++ " />" ++
  nl ++ "  <title>" ++ to_string (doc_title cfg) ++ "</title>" ++
  nl ++ "  <style type=" ++ q ++ "text/css" ++ q ++ "> nav ol { list-style-type: none; } </style>" ++
  nl ++ "</head>" ++
  nl ++ "<body>" ++
  nl ++ navList ++
  nl ++ "</body>" ++
  nl ++ "</html>".

(** Line 323. *)
Definition unsupported (cfg : config) : string :=
  "unsupported output format: " ++ q ++ to_string (format cfg) ++ q.

(** Line 284: [format || config.format]. *)
Definition selected (cfg : config) (fmt : Js.value) : Js.value :=
  if Js.truthy fmt then fmt else format cfg.

(** The formats that the [switch] knows. *)
Definition supported (v : Js.value) : bool :=
  match v with
  | Some s => existsb (String.eqb s) ["txt"; "json"; "ncx"; "xhtml"]
  | None => false
  end.

(** Lines 322-324: the [default] case. *)
Definition no_output (cfg : config) : Js.outcome string :=
  Done "" [unsupported cfg].

(** Lines 284-324, on the pages of lines 281-282; the [case] labels are
    compared in turn. *)
Definition render (cfg : config) (fmt : Js.value) (pages : list page) : Js.outcome string :=
  match selected cfg fmt with
  | Some s =>
      if String.eqb s "txt" then Done (buildToC_txt pages (depth cfg)) []
      else if String.eqb s "json" then
        match buildToC_json pages (depth cfg) (strict cfg) with
        | Done tree err => Done (stringify tree) err
        | Throw err => Throw err
        end
      else if String.eqb s "ncx" then
        match buildToC_ncx parse pages (depth cfg) with
        | Some doc => Done (ncx_document cfg (html doc)) []
        | None => Throw []
        end
      else if String.eqb s "xhtml" then
        match buildToC_xhtml parse pages (depth cfg) with
        | Some doc => Done (xhtml_document cfg (html doc)) []
        | None => Throw []
        end
      else no_output cfg
  | None => no_output cfg
  end.

(** [buildToC(config, format, pages)]; [pages] may be left out. *)
Definition buildToC (cfg : config) (fmt : Js.value) (pages : option (list page))
  : Js.outcome string :=
  match pages with
  | Some pgs => render cfg fmt pgs
  | None =>
      match parseHeadingsSync load (basedir cfg) (spine cfg) (keepAllHeadings cfg) with
      | Some pgs => render cfg fmt pgs
      | None => Throw []
      end
  end.

(** Heading extraction followed by the nested structural form, as
    [buildToC] chains them for the format [json]. *)
Definition extract_and_build (basedir : string) (hrefs : list string) (keepAllHeadings : bool)
           (depth : nat) (strict : bool) : Js.outcome (list entry) :=
  match parseHeadingsSync load basedir hrefs keepAllHeadings with
  | Some pgs => buildToC_json pgs depth strict
  | None => Throw []
  end.

End Build.

(** The defaults of lines 17-19. *)
Definition default_depth : nat := 6.
Definition default_keepAllHeadings : bool := false.

End ToC.

Import ToC.

(** ** The views side by side *)

Module Views.

(** The first heading in range has level 0 and every later one is at most
    one level below the heading in range before it; [cur] is the level of
    that heading, if any. *)
Fixpoint well_nested (depth : nat) (cur : option nat) (hs : list heading) : Prop :=
  match hs with
  | [] => True
  | h :: hs' =>
      if in_range depth h
      then match cur with
           | None => level h = 0
           | Some c => level h <= c + 1
           end /\ well_nested depth (Some (level h)) hs'
      else well_nested depth cur hs'
  end.

(** *** The tree order of the text *)

Definition is_break (c : ascii) : bool := Ascii.eqb c (ascii_of_nat 10).

Definition is_blank (c : ascii) : bool := Ascii.eqb c " "%char.

(** The pieces of a text between its line breaks. *)
Fixpoint segments (s : string) : list string :=
  match s with
  | EmptyString => [EmptyString]
  | String c r =>
      if is_break c then EmptyString :: segments r
      else match segments r with
           | x :: xs => String c x :: xs
           | [] => [String c EmptyString]
           end
  end.

(** The number of spaces at the start of a line, and the line without
    them. *)
Fixpoint indentation (s : string) : nat :=
  match s with
  | EmptyString => 0
  | String c r => if is_blank c then S (indentation r) else 0
  end.

Fixpoint unindented (s : string) : string :=
  match s with
  | EmptyString => EmptyString
  | String c r => if is_blank c then unindented r else s
  end.

(** A line as an entry: four spaces and two more for each level of depth,
    then the title. *)
Definition read_line (l : string) : nat * Js.value :=
  ((indentation l - 4) / 2, Some (unindented l)).

(** The tree order read off the text that [buildToC_txt] returns: one
    entry for each line between its first and its last line break. *)
Definition read_txt (txt : string) : list (nat * Js.value) :=
  map read_line (removelast (tl (segments txt))).

Fixpoint no_break (s : string) : bool :=
  match s with
  | EmptyString => true
  | String c r => negb (is_break c) && no_break r
  end.

(** A title that can be read back from its line: it has no line break and
    does not start with a space. *)
Definition plain_title (s : string) : bool :=
  no_break s && (indentation s =? 0).

(** Every renderer returns, and the tree orders read off the four results
    are the same: the same entries at the same depths in the same order. *)
Definition views_agree (parse : string -> list node)
           (pages : list page) (depth : nat) (strict : bool) : Prop :=
  exists tree err dx dn,
    buildToC_json pages depth strict = Done tree err /\
    buildToC_xhtml parse pages depth = Some dx /\
    buildToC_ncx parse pages depth = Some dn /\
    Json.outline tree = read_txt (buildToC_txt pages depth) /\
    Nav.items "li" dx = read_txt (buildToC_txt pages depth) /\
    Nav.items "navPoint" dn = read_txt (buildToC_txt pages depth).

End Views.

Import Views.

(** ** The shape of a navigation document under construction *)

Module Shape.

(** One level of the list that is still open: the nodes already closed at
    this level and the heading of the item that is open. *)
Record rung : Type := Rung {
  closed : list node;
  open_item : heading;
  order : nat
}.

(** *** EPUB3 *)

Definition li_node (h : heading) (inner : list node) : node :=
  Elem "li" [] (item_label h :: inner).

(** The open [ol] of a level with everything below it. *)
Fixpoint ol_nodes (fs : list rung) : list node :=
  match fs with
  | [] => []
  | f :: fs' => [Elem "ol" [] (closed f ++ [li_node (open_item f) (ol_nodes fs')])]
  end.

Definition ol_top (fs : list rung) : node :=
  match ol_nodes fs with
  | o :: _ => o
  | [] => Elem "ol" [] []
  end.

Definition xhtml_doc (fs : list rung) : node :=
  Elem "root" []
    [Text "  "; Elem "nav" [("epub:type", "toc")] [ol_top fs; Text (nl ++ "  ")%string]].

(** The way from the top [ol] to the open [ol] of level [k]. *)
Fixpoint ol_ref (fs : list rung) (k : nat) : path :=
  match k, fs with
  | S k', f :: fs' => List.length (closed f) :: 1 :: ol_ref fs' k'
  | _, _ => []
  end.

(** The nodes of a level once its open item is closed. *)
Definition ol_closing (fs : list rung) : list node :=
  match fs with
  | [] => []
  | f :: fs' => closed f ++ [li_node (open_item f) (ol_nodes fs')]
  end.

(** *** EPUB2 *)

(** The children of a container after the ones it starts with: the closed
    points and the open point with everything below it. *)
Fixpoint nav_tail (fs : list rung) : list node :=
  match fs with
  | [] => []
  | f :: fs' =>
      closed f ++
      [Elem "navPoint" (point_attrs (order f)) (point_kids (open_item f) ++ nav_tail fs')]
  end.

Definition ncx_doc (fs : list rung) : node :=
  Elem "root" [] [Elem "navMap" [] (nav_tail fs)].

(** The way from a container that starts with [base] children to the
    container of level [k]. *)
Fixpoint nav_ref (base : nat) (fs : list rung) (k : nat) : path :=
  match k, fs with
  | S k', f :: fs' => (base + List.length (closed f)) :: nav_ref 2 fs' k'
  | _, _ => []
  end.

(** *** Both *)

(** A heading of level [l] closes the levels from [l] on and opens a new
    item at level [l]. *)
Fixpoint advance_at (closing : list rung -> list node) (n : nat) (l : nat)
         (fs : list rung) (h : heading) : list rung :=
  match l, fs with
  | S l', f :: fs' => f :: advance_at closing n l' fs' h
  | _, _ => [Rung (closing fs ++ [Text (indent (level h))]) h n]
  end.

(** The items of the open levels, the first at depth [d]. *)
Fixpoint rung_items (tg : string) (d : nat) (fs : list rung) : list (nat * Js.value) :=
  match fs with
  | [] => []
  | f :: fs' =>
      flat_map (items_at tg d) (closed f) ++
      (d, Some (title (open_item f))) :: rung_items tg (S d) fs'
  end.

(** The level of the open item, if there is one. *)
Definition open_level (fs : list rung) (currentLevel : nat) : option nat :=
  match fs with
  | [] => None
  | _ => Some currentLevel
  end.

(** The variables of [xhtml_as_written] describe the open levels [fs]. *)
Record xhtml_shape (st : xhtml_state) (fs : list rung) : Prop := XhtmlShape {
  xs_root : x_root st = xhtml_doc fs;
  xs_level : match fs with
             | [] => x_currentLevel st = 0
             | _ => List.length fs = S (x_currentLevel st)
             end;
  xs_slots : forall k, k <= x_currentLevel st ->
                       ol st k = Some (Some ([1; 0] ++ ol_ref fs k))
}.

(** The variables of [ncx_as_written] describe the open levels [fs]. *)
Record ncx_shape (st : ncx_state) (fs : list rung) : Prop := NcxShape {
  ns_root : n_root st = ncx_doc fs;
  ns_level : match fs with
             | [] => n_currentLevel st = 0
             | _ => List.length fs = S (n_currentLevel st)
             end;
  ns_slots : forall k, k <= n_currentLevel st ->
                       nav st k = Some (Some ([0] ++ nav_ref 0 fs k))
}.

End Shape.

Import Shape.

(** ** Sample inputs *)

Module Examples.

(** A level-0 heading directly followed by a level-2 heading. *)
Definition skipping : list page :=
  [Page "A.html" [Heading 0 "Intro" (Some "A.html"); Heading 2 "Detail" (Some "A.html#d")]].

(** The level-0 heading alone. *)
Definition single : list page :=
  [Page "A.html" [Heading 0 "Intro" (Some "A.html")]].

(** A page that starts with a level-2 heading. *)
Definition deep_first : list page :=
  [Page "A.html" [Heading 2 "Detail" (Some "A.html")]].

(** A page that starts with a level-1 heading. *)
Definition sub_first : list page :=
  [Page "A.html" [Heading 1 "Background" (Some "A.html")]].

(** The levels 0, 1, 2, 1 over two pages. *)
Definition zigzag : list page :=
  [Page "A.html" [Heading 0 "One" (Some "A.html"); Heading 1 "Two" (Some "A.html#two");
                  Heading 2 "Three" (Some "A.html#three")];
   Page "B.html" [Heading 1 "Four" (Some "B.html")]].

(** Two pages without any identifier: "Intro" and "Background" on the
    first, "Conclusion" on the second. *)
Definition page_A : document :=
  [Elem "html" []
     [Elem "head" [] [];
      Elem "body" [] [Elem "h1" [] [Text "Intro"]; Elem "h2" [] [Text "Background"]]]].

Definition page_B : document :=
  [Elem "html" [] [Elem "head" [] []; Elem "body" [] [Elem "h1" [] [Text "Conclusion"]]]].

Definition two_pages (basedir pageHref : string) : option document :=
  if String.eqb pageHref "A.html" then Some page_A
  else if String.eqb pageHref "B.html" then Some page_B
  else None.

(** A heading that opens a section with an identifier. *)
Definition section_clean : document :=
  [Elem "div" [("id", "sec")] [Text "  "; Elem "header" [] [Elem "h2" [] [Text "Title"]]]].

(** The same with a paragraph before the heading. *)
Definition section_text : document :=
  [Elem "div" [("id", "sec")]
     [Elem "p" [] [Text "Lead"]; Elem "header" [] [Elem "h2" [] [Text "Title"]]]].

(** The levels 0, 1, 1, 2. *)
Definition stairs : list page :=
  [Page "A.html" [Heading 0 "One" (Some "A.html"); Heading 1 "Two" (Some "A.html#two")];
   Page "B.html" [Heading 1 "Three" (Some "B.html"); Heading 2 "Four" (Some "B.html#four")]].

(** The variables of the tree builder after the first page of [zigzag]. *)
Definition zigzag_state : builder :=
  Builder
    (Entry None None
       (Some [Entry (Some "One") (Some "A.html")
                (Some [Entry (Some "Two") (Some "A.html#two")
                         (Some [Entry (Some "Three") (Some "A.html#three") None])])]))
    (Some [0; 0]) 2.

(** The same with bare text, not wrapped in an element, before the
    heading. *)
Definition section_bare_text : document :=
  [Elem "div" [("id", "sec")] [Text "Lead "; Elem "h2" [] [Text "Title"]]].

(** The same with the text in a paragraph of its own. *)
Definition section_paragraph : document :=
  [Elem "div" [("id", "sec")] [Elem "p" [] [Text "Lead "]; Elem "h2" [] [Text "Title"]]].

Definition first_heading (d : document) : loc :=
  hd (Loc (Text "") [] [] []) (select_headings d).

Definition first_element (d : document) : loc :=
  hd (Loc (Text "") [] [] []) (elements_of d []).

Definition no_format : config :=
  Config "." ["A.html"; "B.html"] false 6 false "UTF-8" "id" None (Some "pdf").

End Examples.

(** ** What the tree builder reports *)

Module Report.

(** An entry of an outline that stands for a heading, not a placeholder. *)
Definition real (x : nat * Js.value) : bool :=
  match snd x with
  | Some _ => true
  | None => false
  end.

(** The headings in range that are more than one level below the entry
    before them, read off the levels alone; [cur] is the level of that
    entry.  Strict mode leaves [cur] where it is at such a heading. *)
Fixpoint reported (strict : bool) (depth : nat) (cur : nat) (hs : list heading)
  : list heading :=
  match hs with
  | [] => []
  | h :: hs' =>
      if in_range depth h then
        if cur + 1 <? level h
        then h :: reported strict depth (if strict then cur else level h) hs'
        else reported strict depth (level h) hs'
      else reported strict depth cur hs'
  end.

(** The headings in range, on one page. *)
Definition in_range_page (depth : nat) (pages : list page) : list page :=
  [Page "" (filter (in_range depth) (stream pages))].

End Report.

Import Report.

(** ** What the navigation documents hold *)

Module Trace.

(** What the elements of a document contribute, in document order; [own]
    is the contribution of one element, read off its name, its attributes
    and its children. *)
Fixpoint trace (A : Type) (own : string -> list (string * string) -> list node -> list A)
         (n : node) : list A :=
  match n with
  | Text _ => []
  | Elem tg at_ ks => own tg at_ ks ++ flat_map (trace own) ks
  end.

(** EPUB2: the [id] and the [playOrder] of every [navPoint], the character
    data of every [text] and the [src] of every [content]. *)
Definition ncx_own (tg : string) (at_ : list (string * string)) (ks : list node)
  : list Js.value :=
  if String.eqb tg "navPoint" then [lookup "id" at_; lookup "playOrder" at_]
  else if String.eqb tg "text" then [Some (join (map text ks))]
  else if String.eqb tg "content" then [lookup "src" at_]
  else [].

(** EPUB3: the target and the character data of every [a], and
    [undefined] with the character data of every [span]. *)
Definition xhtml_own (tg : string) (at_ : list (string * string)) (ks : list node)
  : list (Js.value * string) :=
  if String.eqb tg "a" then [(lookup "href" at_, join (map text ks))]
  else if String.eqb tg "span" then [(None, join (map text ks))]
  else [].

(** The link of a heading that has one. *)
Definition link_of (h : heading) : Js.value :=
  if Js.truthy (href h) then href h else None.

(** What a heading puts into the EPUB3 list: its link and its title. *)
Definition item_trace (h : heading) : Js.value * string := (link_of h, title h).

(** What a heading with the play order [k] puts into the EPUB2 map. *)
Definition point_trace (h : heading) (k : nat) : list Js.value :=
  [Some ("nav_" ++ Js.of_nat k)%string; Some (Js.of_nat k);
   Some (title h); Some (to_string (href h))].

(** The open levels after the headings [hs]; the play order [n] goes up
    with every heading in range when [count] is set. *)
Fixpoint advance_all (closing : list rung -> list node) (count : bool) (depth : nat)
         (n : nat) (fs : list rung) (hs : list heading) : list rung :=
  match hs with
  | [] => fs
  | h :: hs' =>
      if in_range depth h
      then advance_all closing count depth (if count then S n else n)
                       (advance_at closing n (level h) fs h) hs'
      else advance_all closing count depth n fs hs'
  end.

(** What the open levels contribute: the closed nodes of each level and
    [part] for its open item. *)
Fixpoint rung_trace (A : Type) (part : heading -> nat -> list A) (g : node -> list A)
         (fs : list rung) : list A :=
  match fs with
  | [] => []
  | f :: fs' => flat_map g (closed f) ++ part (open_item f) (order f) ++ rung_trace part g fs'
  end.

(** The headings with their play orders, from [n] on. *)
Fixpoint numbered (n : nat) (hs : list heading) : list (heading * nat) :=
  match hs with
  | [] => []
  | h :: hs' => (h, n) :: numbered (S n) hs'
  end.

(** The slots of a builder when no item has been added: only the root
    list is selected, the other slots are unset or hold the empty
    selection. *)
Definition slots_unused (a : slots) (top : path) : Prop :=
  a 0 = Some (Some top) /\ forall k, 1 <= k -> a k = None \/ a k = Some None.

End Trace.

Import Trace.

(** ** The package document: manifest and spine (src/ebook.js, 353-411) *)

Module Opf.

(** Lines 356-358: [while (str.length < digits) str = '0' + str], run at
    most [fuel] times. *)
Fixpoint pad (fuel : nat) (digits : nat) (str : string) : string :=
  match fuel with
  | 0 => str
  | S fuel' =>
      if String.length str <? digits then pad fuel' digits ("0" ++ str)%string else str
  end.

(** Lines 353-360.  Every round of the loop makes [str] longer, so [digits]
    rounds are enough. *)
Definition zeroPadding (prefix : string) (number digits : nat) : string :=
  (prefix ++ pad digits digits (Js.of_nat (number + 1)))%string.

(** The number that a decimal numeral stands for. *)
Definition numeral_value (s : string) : option nat :=
  option_map Nat.of_uint (NilEmpty.uint_of_string s).

(** [l.indexOf(x)], with nothing for -1. *)
Fixpoint indexOf (x : string) (l : list string) : option nat :=
  match l with
  | [] => None
  | y :: l' => if String.eqb y x then Some 0 else option_map S (indexOf x l')
  end.

(** [l.join(sep)] *)
Fixpoint join_with (sep : string) (l : list string) : string :=
  match l with
  | [] => ""
  | [x] => x
  | x :: l' => (x ++ sep ++ join_with sep l')%string
  end.

Definition ncx_type : string := "application/x-dtbncx+xml".
Definition opf_type : string := "application/oebps-package+xml".

(** What lines 386-391 put together for one file. *)
Record item : Type := Item {
  item_id : string;
  item_type : string;
  item_href : string
}.

Section Manifest.

(** The collaborators: [findFilesSync(basedir)] (nothing when the directory
    cannot be read), [mime.lookup] and the default [sort] of an array of
    strings. *)
Variable findFilesSync : string -> option (list string).
Variable mime_lookup : string -> string.
Variable sort : list string -> list string.

(** Lines 373-383: the [id] of the file [href], which is number [index]
    among the files. *)
Definition id_of (spine : list string) (digits : nat) (href : string) (index : nat) : string :=
  match indexOf href spine with
  | Some i => zeroPadding "page_" i digits
  | None =>
      if String.eqb (mime_lookup href) ncx_type then "ncx"
      else if negb (String.eqb (mime_lookup href) opf_type)
           then zeroPadding "res_" index digits
           else ""
  end.

(** Lines 378-380: the file makes [ncx++] run. *)
Definition counts_as_ncx (spine : list string) (href : string) : bool :=
  match indexOf href spine with
  | Some _ => false
  | None => String.eqb (mime_lookup href) ncx_type
  end.

(** Lines 372-393: the items pushed for the files from number [index] on. *)
Fixpoint items_from (spine : list string) (digits : nat) (index : nat) (files : list string)
  : list item :=
  match files with
  | [] => []
  | href :: files' =>
      let id := id_of spine digits href index in
      if Js.nonempty id
      then Item id (mime_lookup href) href :: items_from spine digits (S index) files'
      else items_from spine digits (S index) files'
  end.

(** The value of [ncx] after the loop. *)
Definition ncx_count (spine : list string) (files : list string) : nat :=
  List.length (filter (counts_as_ncx spine) files).

(** Lines 386-391. *)
Definition render_item (it : item) : string :=
  ("<item" ++
   " id=" ++ q ++ item_id it ++ q ++
   " media-type=" ++ q ++ item_type it ++ q ++
   " href=" ++ q ++ item_href it ++ q ++
   (if String.eqb (item_href it) "toc.xhtml" then " properties=" ++ q ++ "nav" ++ q else "") ++
   " />")%string.

(** Lines 404-407: the [idref]s computed for the spine from position
    [index] on. *)
Fixpoint idrefs_from (digits : nat) (index : nat) (spine : list string) : list string :=
  match spine with
  | [] => []
  | _ :: spine' => zeroPadding "page_" index digits :: idrefs_from digits (S index) spine'
  end.

(** Line 406: what one round adds to [itemrefs]. *)
Definition render_itemref (idref : string) : string :=
  (nl ++ "    <itemref idref=" ++ q ++ idref ++ q ++ " />")%string.

(** Lines 366-369: the files found and the generated ones. *)
Definition all_files (found : list string) (generatedFiles : option (list string)) : list string :=
  found ++ match generatedFiles with
           | Some l => l
           | None => []
           end.

(** Line 371: [files.length.toString().length]. *)
Definition digits_for (files : list string) : nat :=
  String.length (Js.of_nat (List.length files)).

(** Lines 362-411. *)
Definition buildOPF_manifest_spine (basedir : string) (spine : list string)
           (generatedFiles : option (list string)) : Js.outcome string :=
  match findFilesSync basedir with
  | None => Throw []
  | Some found =>
      let files := all_files found generatedFiles in
      let digits := digits_for files in
      let items := map render_item (items_from spine digits 0 files) in
      let ncx := ncx_count spine files in
      let manifest :=
        (nl ++ "  <manifest>" ++
         nl ++ "    " ++ join_with (nl ++ "    ") (sort items) ++
         nl ++ "  </manifest>")%string in
      let itemrefs :=
        (fold_left (fun itemrefs idref => itemrefs ++ render_itemref idref)
           (idrefs_from digits 0 spine)
           (nl ++ "  <spine" ++ (if Nat.eqb ncx 1 then " toc=" ++ q ++ "ncx" ++ q else "") ++ ">") ++
         nl ++ "  </spine>")%string in
      Done (manifest ++ itemrefs)%string
           (if 1 <? ncx then ["several NCX files have been found."] else [])
  end.

(** The items and the [idref]s that [buildOPF_manifest_spine] works with
    for the files [files]. *)
Definition manifest_items (spine : list string) (files : list string) : list item :=
  items_from spine (digits_for files) 0 files.

Definition spine_idrefs (spine : list string) (files : list string) : list string :=
  idrefs_from (digits_for files) 0 spine.

End Manifest.

End Opf.

Import Opf.

(** ** The command line (src/ebook.js, 22-27) *)

Module Args.

(** What an argument leaves in [argv]: a string, or [true]. *)
Inductive setting : Type :=
| Str (s : string)
| JsTrue.

(** The line terminators that [.] does not match, among the code units
    below 256. *)
Definition is_line_end (c : ascii) : bool :=
  (nat_of_ascii c =? 10) || (nat_of_ascii c =? 13).

Definition is_equals (c : ascii) : bool := Ascii.eqb c "="%char.

(** [.*$] matches the whole of [s]. *)
Fixpoint one_line (s : string) : bool :=
  match s with
  | EmptyString => true
  | String c r => negb (is_line_end c) && one_line r
  end.

(** [s] has no [=]. *)
Fixpoint no_equals (s : string) : bool :=
  match s with
  | EmptyString => true
  | String c r => negb (is_equals c) && no_equals r
  end.

(** The first alternative of [/^--|=.*$/g]: two dashes at the start. *)
Definition strip_dashes (s : string) : string :=
  match s with
  | String "-" (String "-" r) => r
  | _ => s
  end.

(** The second alternative of [/^--|=.*$/g]: the leftmost [=] that is
    followed by nothing but one line, and everything after it. *)
Fixpoint cut_tail (s : string) : string :=
  match s with
  | EmptyString => EmptyString
  | String c r =>
      if is_equals c && one_line r then EmptyString else String c (cut_tail r)
  end.

(** Line 24: [arg.replace(/^--|=.*$/g, '')]. *)
Definition arg_name (arg : string) : string := cut_tail (strip_dashes arg).

(** What [/^.*=/] leaves of [s] when it matches: the text after the last
    [=] of the first line. *)
Fixpoint after_last_equals (s : string) : option string :=
  match s with
  | EmptyString => None
  | String c r =>
      if is_line_end c then None
      else match after_last_equals r with
           | Some t => Some t
           | None => if is_equals c then Some r else None
           end
  end.

(** [s || true] *)
Definition or_true (s : string) : setting :=
  if Js.nonempty s then Str s else JsTrue.

(** Line 25: [arg.replace(/^.*=/, '') || true]. *)
Definition arg_value (arg : string) : setting :=
  or_true match after_last_equals arg with
          | Some t => t
          | None => arg
          end.

(** An object with settings as its own properties, in the order of their
    creation. *)
Definition object := list (string * setting).

(** The own property [name] of [obj]. *)
Fixpoint own (name : string) (obj : object) : option setting :=
  match obj with
  | [] => None
  | (k, v) :: obj' => if String.eqb k name then Some v else own name obj'
  end.

Fixpoint define (name : string) (val : setting) (obj : object) : object :=
  match obj with
  | [] => [(name, val)]
  | (k, v) :: obj' =>
      if String.eqb k name then (k, val) :: obj' else (k, v) :: define name val obj'
  end.

(** Line 26: [obj[name] = val], where [val] is a string or [true].  The
    name [__proto__] reaches the setter of [Object.prototype], which leaves
    the object as it is for such a value. *)
Definition assign_property (name : string) (val : setting) (obj : object) : object :=
  if String.eqb name "__proto__" then obj else define name val obj.

(** Lines 22-27: [argv] after the loop over [process.argv]. *)
Definition argv (args : list string) : object :=
  fold_left (fun obj arg => assign_property (arg_name arg) (arg_value arg) obj) args [].

End Args.

Import Args.

(** ** The files of the book (src/ebook.js, 41-43 and 48-64) *)

Module Files.

(** What [readdirSync] and [lstatSync] show below a directory: its entries
    in the order of [readdirSync], those that are directories with their own
    entries. *)
Inductive dirent : Type :=
| Other (name : string)
| Directory (name : string) (content : listing)
with listing : Type :=
| Empty
| Next (e : dirent) (rest : listing).

Scheme listing_dirent_ind := Induction for listing Sort Prop
  with dirent_listing_ind := Induction for dirent Sort Prop.

(** Line 56: [!filter || filter.test(entry)]. *)
Definition passes (filter : option (string -> bool)) (name : string) : bool :=
  match filter with
  | Some test => test name
  | None => true
  end.

(** Lines 51-60: what [treeWalkSync] pushes for the entries [entries] of a
    directory, where [rel] is the path from [basedir] to that directory: empty
    for [basedir] itself, and ending in a slash below it. *)
Fixpoint treeWalkSync (filter : option (string -> bool)) (rel : string) (entries : listing)
  : list string :=
  match entries with
  | Empty => []
  | Next e rest =>
      match e with
      | Directory name content => treeWalkSync filter (rel ++ name ++ "/")%string content
      | Other name => if passes filter name then [(rel ++ name)%string] else []
      end ++ treeWalkSync filter rel rest
  end.

Section Disk.

(** The directory tree below a path, and nothing when it cannot be walked. *)
Variable disk : string -> option listing.

(** Lines 48-64. *)
Definition findFilesSync (basedir : string) (filter : option (string -> bool))
  : option (list string) :=
  option_map (treeWalkSync filter "") (disk basedir).

End Disk.

(** [/\.x?html?$/] matches at the start of [s]. *)
Definition html_here (s : string) : bool :=
  String.eqb s ".htm" || String.eqb s ".html" || String.eqb s ".xhtm" || String.eqb s ".xhtml".

(** [/\.x?html?$/.test(s)] *)
Fixpoint html_test (s : string) : bool :=
  html_here s ||
  match s with
  | EmptyString => false
  | String _ r => html_test r
  end.

(** Line 42: the spine when none is configured. *)
Definition found_pages (disk : string -> option listing) (basedir : string)
  : option (list string) :=
  findFilesSync disk basedir (Some html_test).

(** The name of an entry, and the names of the entries of a directory. *)
Definition name_of (e : dirent) : string :=
  match e with
  | Other name => name
  | Directory name _ => name
  end.

Fixpoint names (entries : listing) : list string :=
  match entries with
  | Empty => []
  | Next e rest => name_of e :: names rest
  end.

Definition is_slash (c : ascii) : bool := Ascii.eqb c "/"%char.

Fixpoint no_slash (s : string) : bool :=
  match s with
  | EmptyString => true
  | String c r => negb (is_slash c) && no_slash r
  end.

(** In every directory of the tree the names are pairwise distinct and
    without slash. *)
Fixpoint well_named (entries : listing) : bool :=
  match entries with
  | Empty => true
  | Next e rest =>
      no_slash (name_of e) &&
      negb (existsb (String.eqb (name_of e)) (names rest)) &&
      match e with
      | Directory _ content => well_named content
      | Other _ => true
      end &&
      well_named rest
  end.

(** The last component of a path: what follows its last slash. *)
Fixpoint after_last_slash (s : string) : option string :=
  match s with
  | EmptyString => None
  | String c r =>
      match after_last_slash r with
      | Some t => Some t
      | None => if is_slash c then Some r else None
      end
  end.

Definition basename (p : string) : string :=
  match after_last_slash p with
  | Some t => t
  | None => p
  end.

(** The first component of a path: what stands before its first slash. *)
Fixpoint first_component (s : string) : string :=
  match s with
  | EmptyString => EmptyString
  | String c r => if is_slash c then EmptyString else String c (first_component r)
  end.

(** The path from [basedir] to a directory: empty or ending in a slash. *)
Definition dir_path (rel : string) : Prop := rel = "" \/ exists x, rel = (x ++ "/")%string.

End Files.

Import Files.

(** ** The archive (src/ebook.js, 465-467 and 488-499) *)

Module Epub.

Section Generated.

(** Lines 465-467: [fileExists], for a file of [basedir]. *)
Variable fileExists : string -> bool.

(** Lines 488-498: [tocFiles] when line 499 is reached. *)
Definition tocFiles : list string :=
  (if fileExists "toc.xhtml" then [] else ["toc.xhtml"]) ++
  (if fileExists "toc.ncx" then [] else ["toc.ncx"]).

End Generated.

(** The file [href] is a page of the spine, or it is not a package
    document. *)
Definition listed (mime_lookup : string -> string) (spine : list string) (href : string)
  : bool :=
  match indexOf href spine with
  | Some _ => true
  | None => negb (String.eqb (mime_lookup href) opf_type)
  end.

(** Lines 399-401: the manifest with the item lines [lines]. *)
Definition manifest_text (lines : list string) : string :=
  (nl ++ "  <manifest>" ++
   nl ++ "    " ++ join_with (nl ++ "    ") lines ++
   nl ++ "  </manifest>")%string.

(** Lines 403-408: the spine, where [ncx] files of the NCX type have been
    counted. *)
Definition spine_text (ncx digits : nat) (spine : list string) : string :=
  (fold_left (fun itemrefs idref => itemrefs ++ render_itemref idref)
     (idrefs_from digits 0 spine)
     (nl ++ "  <spine" ++ (if Nat.eqb ncx 1 then " toc=" ++ q ++ "ncx" ++ q else "") ++ ">") ++
   nl ++ "  </spine>")%string.

End Epub.

Import Epub.

(** ** The identifier (src/ebook.js, 66-72) *)

Module Uuid.

(** [v.toString(16)] *)
Definition to_hex (v : nat) : string :=
  HexadecimalString.NilEmpty.string_of_uint (Nat.to_hex_uint v).

Section Random.

(** [Math.random()*16|0] in the call of the callback for match number [k]. *)
Variable draw : nat -> nat.

(** Lines 68-71: [template.replace(/[xy]/g, ...)], where [k] matches have
    been replaced before. *)
Fixpoint fill (template : string) (k : nat) : string :=
  match template with
  | EmptyString => EmptyString
  | String c rest =>
      if Ascii.eqb c "x" then
        (to_hex (draw k) ++ fill rest (S k))%string
      else if Ascii.eqb c "y" then
        (to_hex (Nat.lor (Nat.land (draw k) 3) 8) ++ fill rest (S k))%string
      else String c (fill rest k)
  end.

(** Lines 66-72. *)
Definition getUUID : string := fill "xxxxxxxx-xxxx-4xxx-yxxx-xxxxxxxxxxxx" 0.

End Random.

Definition is_hex_digit (c : ascii) : bool :=
  existsb (Ascii.eqb c) (list_ascii_of_string "0123456789abcdef").

Definition is_variant_digit (c : ascii) : bool :=
  existsb (Ascii.eqb c) (list_ascii_of_string "89ab").

(** [s] follows the template: a hexadecimal digit for each [x], one of [8],
    [9], [a], [b] for each [y], and the character of the template
    elsewhere. *)
Fixpoint follows (template s : string) : bool :=
  match template, s with
  | EmptyString, EmptyString => true
  | String t template', String c s' =>
      (if Ascii.eqb t "x" then is_hex_digit c
       else if Ascii.eqb t "y" then is_variant_digit c
       else Ascii.eqb t c) && follows template' s'
  | _, _ => false
  end.

(** A version 4 identifier in its usual notation. *)
Definition version4 (s : string) : bool := follows "xxxxxxxx-xxxx-4xxx-yxxx-xxxxxxxxxxxx" s.

End Uuid.

Import Uuid.

(** ** Further sample values *)

Module Samples.

(** The tree of [Examples.skipping] in lenient mode and in strict mode. *)
Definition skipping_lenient : list entry :=
  [Entry (Some "Intro") (Some "A.html")
     (Some [Entry None None (Some [Entry (Some "Detail") (Some "A.html#d") None])])].

Definition skipping_strict : list entry :=
  [Entry (Some "Intro") (Some "A.html") None].

Definition skipping_report : list string := ["non-continous heading (h3): Detail"].

(** The tree of the first page of [Examples.zigzag] and of both pages. *)
Definition zigzag_first : list entry :=
  [Entry (Some "One") (Some "A.html")
     (Some [Entry (Some "Two") (Some "A.html#two")
              (Some [Entry (Some "Three") (Some "A.html#three") None])])].

Definition zigzag_both : list entry :=
  [Entry (Some "One") (Some "A.html")
     (Some [Entry (Some "Two") (Some "A.html#two")
              (Some [Entry (Some "Three") (Some "A.html#three") None]);
            Entry (Some "Four") (Some "B.html") None])].

(** A page that cannot be read between two that can. *)
Definition one_missing (basedir pageHref : string) : option document :=
  if String.eqb pageHref "C.html" then None else Examples.two_pages basedir pageHref.

(** A [mime.lookup] for the files of a small book. *)
Definition mime_of (file : string) : string :=
  if String.eqb file "toc.ncx" then ncx_type
  else if String.eqb file "content.opf" then opf_type
  else if String.eqb file "cover.png" then "image/png"
  else "application/xhtml+xml".

(** A small book on disk, and a disk that holds it under [book]. *)
Definition book_listing : listing :=
  Next (Other "a.xhtml")
    (Next (Directory "img" (Next (Other "cover.png") Empty))
       (Next (Directory "part" (Next (Other "b.html") (Next (Other "notes.txt") Empty)))
          Empty)).

Definition book_disk (basedir : string) : option listing :=
  if String.eqb basedir "book" then Some book_listing else None.

Definition book_has (filename : string) : bool :=
  existsb (String.eqb filename) (names book_listing).

(** A reader of simple markup: character data, elements with attributes in
    double quotes, and empty elements closed by [/>]. *)
Inductive reading : Type :=
| InText (acc : string)
| InName (closing : bool) (acc : string)
| InTag (tg : string) (ats : list (string * string))
| InAttr (tg : string) (ats : list (string * string)) (name : string)
| InValue (tg : string) (ats : list (string * string)) (name : string) (opened : bool)
          (acc : string)
| InSlash (tg : string) (ats : list (string * string)).

(** The elements that are open, innermost first, each with the children
    read so far, and the nodes of the top level. *)
Record reader : Type := Reader {
  opened_elements : list (string * list (string * string) * list node);
  finished : list node;
  at_ : reading
}.

Definition emit (n : node) (r : reader) (next : reading) : reader :=
  match opened_elements r with
  | [] => Reader [] (finished r ++ [n]) next
  | (tg, ats, ks) :: up => Reader ((tg, ats, ks ++ [n]) :: up) (finished r) next
  end.

Definition emit_text (acc : string) (r : reader) (next : reading) : reader :=
  if Js.nonempty acc then emit (Text acc) r next
  else Reader (opened_elements r) (finished r) next.

Definition open_element (tg : string) (ats : list (string * string)) (r : reader) : reader :=
  Reader ((tg, ats, []) :: opened_elements r) (finished r) (InText "").

Definition close_element (r : reader) : reader :=
  match opened_elements r with
  | [] => Reader [] (finished r) (InText "")
  | (tg, ats, ks) :: up => emit (Elem tg ats ks) (Reader up (finished r) (InText "")) (InText "")
  end.

Definition snoc (acc : string) (c : ascii) : string := (acc ++ String c EmptyString)%string.

Definition read_char (r : reader) (c : ascii) : reader :=
  let go := Reader (opened_elements r) (finished r) in
  match at_ r with
  | InText acc =>
      if Ascii.eqb c "<" then emit_text acc r (InName false "") else go (InText (snoc acc c))
  | InName closing acc =>
      if Ascii.eqb c "/" then
        if Js.nonempty acc then go (InSlash acc []) else go (InName true "")
      else if Ascii.eqb c ">" then
        if closing then close_element r else open_element acc [] r
      else if Ascii.eqb c " " then go (InTag acc [])
      else go (InName closing (snoc acc c))
  | InTag tg ats =>
      if Ascii.eqb c " " then r
      else if Ascii.eqb c ">" then open_element tg ats r
      else if Ascii.eqb c "/" then go (InSlash tg ats)
      else go (InAttr tg ats (String c EmptyString))
  | InAttr tg ats name =>
      if Ascii.eqb c "=" then go (InValue tg ats name false "")
      else go (InAttr tg ats (snoc name c))
  | InValue tg ats name opened acc =>
      if Ascii.eqb c (ascii_of_nat 34) then
        if opened then go (InTag tg (ats ++ [(name, acc)])) else go (InValue tg ats name true "")
      else if opened then go (InValue tg ats name true (snoc acc c))
      else r
  | InSlash tg ats =>
      if Ascii.eqb c ">" then emit (Elem tg ats []) r (InText "") else r
  end.

Fixpoint read_chars (s : string) (r : reader) : reader :=
  match s with
  | EmptyString => r
  | String c s' => read_chars s' (read_char r c)
  end.

Definition read_markup (s : string) : list node :=
  let r := read_chars s (Reader [] [] (InText "")) in
  match at_ r with
  | InText acc => finished (emit_text acc r (InText ""))
  | _ => finished r
  end.

(** The default [sort] of an array of strings, which compares them code
    unit by code unit. *)
Fixpoint insert_sorted (x : string) (l : list string) : list string :=
  match l with
  | [] => [x]
  | y :: l' => if String.leb x y then x :: l else y :: insert_sorted x l'
  end.

Definition sort_strings (l : list string) : list string :=
  fold_right insert_sorted [] l.

(** A title that runs over two lines. *)
Definition two_lines : list page :=
  [Page "A.html" [Heading 0 ("Intro" ++ nl ++ "      Detail") (Some "A.html")]].

End Samples.

(** ** What heading extraction delivers *)

Module Delivered.

(** The heading has a link that line 129 accepts. *)
Definition linked (h : heading) : bool := Js.truthy (href h).

(** A page with the unlinked headings removed. *)
Definition linked_only (pg : page) : page :=
  Page (page_href pg) (filter linked (headings pg)).

(** The text [s], which follows a space when [after_space] is set, has no
    white space but single spaces (code unit 32), no space at its start
    after a space, and no space at its end. *)
Fixpoint tidy_from (after_space : bool) (s : string) : bool :=
  match s with
  | EmptyString => negb after_space
  | String c r =>
      if Ascii.eqb c " "%char
      then negb after_space && tidy_from true r
      else negb (is_space c) && tidy_from false r
  end.

(** The text is empty, or it neither starts nor ends with white space and
    its only white space are single spaces between other characters. *)
Definition tidy (s : string) : bool :=
  match s with
  | EmptyString => true
  | _ => tidy_from true s
  end.

(** The text [s], which follows white space when [after_space] is set,
    does not end with white space. *)
Fixpoint ends_clean (after_space : bool) (s : string) : bool :=
  match s with
  | EmptyString => negb after_space
  | String c r => ends_clean (is_space c) r
  end.

(** The text does not start with white space. *)
Definition starts_clean (s : string) : bool :=
  match s with
  | EmptyString => true
  | String c _ => negb (is_space c)
  end.

(** [n] spaces. *)
Fixpoint blanks (n : nat) : string :=
  match n with
  | 0 => EmptyString
  | S k => String " "%char (blanks k)
  end.

(** A line of the text: the indentation of the level without its line
    break, and the title. *)
Definition line_of (l : nat * string) : string := (blanks (4 + 2 * fst l) ++ snd l)%string.

End Delivered.

Import Delivered.

(** * Properties *)

Unset Implicit Arguments.

(** ** References into the tree *)

Section JsonPaths.

Lemma upd_nth_last (A : Type) (f : A -> A) (front : list A) (x : A) :
  upd_nth (List.length front) f (front ++ [x]) = front ++ [f x].
Proof.
  induction front as [|y front IH]; simpl; [reflexivity|].
  now rewrite IH.
Qed.

Lemma nth_error_last (A : Type) (front : list A) (x : A) :
  nth_error (front ++ [x]) (List.length front) = Some x.
Proof.
  induction front as [|y front IH]; simpl; auto.
Qed.

(** A list whose length is [S i] ends with its [i]-th element. *)
Lemma split_last (A : Type) (cs : list A) (i : nat) (c : A) :
  S i = List.length cs -> nth_error cs i = Some c ->
  exists front, cs = front ++ [c] /\ List.length front = i.
Proof.
  revert i; induction cs as [|x cs IH]; intros i Hl Hn; simpl in *; [discriminate|].
  destruct i as [|i].
  - destruct cs; [|discriminate]. exists []; split; [now inversion Hn|reflexivity].
  - destruct (IH i) as (front & -> & Hf); auto.
    exists (x :: front); simpl; split; congruence.
Qed.

Lemma rightmost_step (t : entry) (i : nat) (p : path) :
  rightmost t (i :: p) ->
  exists front c, e_children t = Some (front ++ [c]) /\ List.length front = i /\ rightmost c p.
Proof.
  simpl. destruct (e_children t) as [cs|]; [|tauto].
  intros [Hl Hn]. destruct (nth_error cs i) as [c|] eqn:E; [|tauto].
  destruct (split_last _ cs i c Hl E) as (front & -> & Hf). eauto.
Qed.

Lemma rightmost_cons (t : entry) (front : list entry) (c : entry) (p : path) :
  e_children t = Some (front ++ [c]) -> rightmost c p ->
  rightmost t (List.length front :: p).
Proof.
  intros Hc Hr. simpl. rewrite Hc, nth_error_last, length_app. simpl. split; [lia|assumption].
Qed.

Lemma get_cons (t : entry) (front : list entry) (c : entry) (p : path) :
  e_children t = Some (front ++ [c]) -> get t (List.length front :: p) = get c p.
Proof.
  intros Hc. simpl. now rewrite Hc, nth_error_last.
Qed.

Lemma rightmost_get (t : entry) (p : path) :
  rightmost t p -> exists n, get t p = Some n.
Proof.
  revert t; induction p as [|i p IH]; intros t Hr; [now exists t|].
  destruct (rightmost_step _ _ _ Hr) as (front & c & Hc & <- & Hr').
  rewrite (get_cons _ _ _ _ Hc). auto.
Qed.

Lemma get_app (t : entry) (p q : path) :
  get t (p ++ q) = match get t p with Some n => get n q | None => None end.
Proof.
  revert t; induction p as [|i p IH]; intros t; simpl; [reflexivity|].
  destruct (e_children t) as [cs|]; [|reflexivity].
  destruct (nth_error cs i); auto.
Qed.

Lemma rightmost_app (t n : entry) (p q : path) :
  rightmost t p -> get t p = Some n -> rightmost n q -> rightmost t (p ++ q).
Proof.
  revert t; induction p as [|i p IH]; intros t Hr Hg Hq; simpl in *.
  - now inversion Hg; subst.
  - destruct (e_children t) as [cs|]; [|tauto].
    destruct Hr as [Hl Hr]. split; [assumption|].
    destruct (nth_error cs i); [|tauto]. auto.
Qed.

Lemma rightmost_prefix (t : entry) (p q : path) :
  rightmost t (p ++ q) -> rightmost t p.
Proof.
  revert t; induction p as [|i p IH]; intros t Hr; simpl in *; [exact I|].
  destruct (e_children t) as [cs|]; [|tauto].
  destruct Hr as [Hl Hr]. split; [assumption|].
  destruct (nth_error cs i); [|tauto]. auto.
Qed.

Lemma update_title (f : entry -> entry) (t : entry) (p : path) :
  (forall x, e_title (f x) = e_title x) -> e_title (update f t p) = e_title t.
Proof.
  intros Hf. destruct p as [|i p]; simpl; [apply Hf|].
  destruct t as [ti h [cs|]]; reflexivity.
Qed.

Lemma update_cons (f : entry -> entry) (t : entry) (front : list entry) (c : entry) (p : path) :
  e_children t = Some (front ++ [c]) ->
  update f t (List.length front :: p) =
  Entry (e_title t) (e_href t) (Some (front ++ [update f c p])).
Proof.
  destruct t as [ti h cs]; simpl. intros ->. now rewrite upd_nth_last.
Qed.

Lemma get_update (f : entry -> entry) (t n : entry) (p : path) :
  rightmost t p -> get t p = Some n -> get (update f t p) p = Some (f n).
Proof.
  revert t; induction p as [|i p IH]; intros t Hr Hg.
  - simpl in *. congruence.
  - destruct (rightmost_step _ _ _ Hr) as (front & c & Hc & <- & Hr').
    rewrite (get_cons _ _ _ _ Hc) in Hg.
    rewrite (update_cons _ _ _ _ _ Hc).
    erewrite get_cons by reflexivity. auto.
Qed.

Lemma rightmost_update (f : entry -> entry) (t : entry) (p : path) :
  rightmost t p -> rightmost (update f t p) p.
Proof.
  revert t; induction p as [|i p IH]; intros t Hr; [exact I|].
  destruct (rightmost_step _ _ _ Hr) as (front & c & Hc & <- & Hr').
  rewrite (update_cons _ _ _ _ _ Hc).
  eapply rightmost_cons; [reflexivity|auto].
Qed.

Lemma flat_map_snoc (A B : Type) (f : A -> list B) (l : list A) (x : A) :
  flat_map f (l ++ [x]) = flat_map f l ++ f x.
Proof.
  rewrite flat_map_app. simpl. now rewrite app_nil_r.
Qed.

Lemma outline_at_eq (d : nat) (e : entry) :
  outline_at d e = (d, e_title e) :: below (S d) e.
Proof.
  destruct e as [t h cs]; reflexivity.
Qed.

Lemma below_entry (d : nat) (t h : Js.value) (l : list entry) :
  below d (Entry t h (Some l)) = flat_map (outline_at d) l.
Proof. reflexivity. Qed.

(** The entries below the object of a rightmost reference come last in the
    outline, and a modification of that object only changes this end. *)
Lemma below_update (t n : entry) (p : path) (d : nat) :
  rightmost t p -> get t p = Some n ->
  exists front,
    below d t = front ++ below (d + List.length p) n /\
    forall f, (forall x, e_title (f x) = e_title x) ->
              below d (update f t p) = front ++ below (d + List.length p) (f n).
Proof.
  revert t d; induction p as [|i p IH]; intros t d Hr Hg.
  - simpl in Hg. inversion Hg; subst n. exists []. rewrite Nat.add_0_r. auto.
  - destruct (rightmost_step _ _ _ Hr) as (front & c & Hc & <- & Hr').
    rewrite (get_cons _ _ _ _ Hc) in Hg.
    destruct (IH c (S d) Hr' Hg) as (mid & Hb & Hu).
    exists (flat_map (outline_at d) front ++ (d, e_title c) :: mid). split.
    + unfold below at 1. rewrite Hc, flat_map_snoc, outline_at_eq, Hb.
      rewrite <- app_assoc. simpl. now rewrite Nat.add_succ_r.
    + intros f Hf. rewrite (update_cons _ _ _ _ _ Hc), below_entry.
      rewrite flat_map_snoc, outline_at_eq, (Hu f Hf), update_title by assumption.
      rewrite <- app_assoc. simpl. now rewrite Nat.add_succ_r.
Qed.

End JsonPaths.

(** ** The steps of the tree builder *)

Section JsonSteps.

Lemma rightmost_split (t : entry) (q r : path) :
  rightmost t (q ++ r) -> exists n, get t q = Some n /\ rightmost n r.
Proof.
  revert t; induction q as [|i q IH]; intros t Hr; [now exists t|].
  change ((i :: q) ++ r) with (i :: (q ++ r)) in Hr.
  destruct (rightmost_step _ _ _ Hr) as (front & c & Hc & <- & Hr').
  rewrite (get_cons _ _ _ _ Hc). auto.
Qed.

Lemma last_child_some (t n : entry) (q : path) (front : list entry) (c : entry) :
  get t q = Some n -> e_children n = Some (front ++ [c]) ->
  last_child t (Some q) = Some (Some (q ++ [List.length front])).
Proof.
  intros Hg Hc. unfold last_child, children_of. rewrite Hg, Hc.
  destruct (front ++ [c]) eqn:E; [now destruct front|].
  rewrite <- E, length_app. simpl. do 4 f_equal. lia.
Qed.

Lemma last_child_none (t n : entry) (q : path) :
  get t q = Some n -> e_children n = Some [] -> last_child t (Some q) = Some None.
Proof.
  intros Hg Hc. unfold last_child, children_of. now rewrite Hg, Hc.
Qed.

(** Lines 180-183 land on the prefix of any rightmost reference. *)
Lemma ascend_prefix (t : entry) (k : nat) (q r : path) :
  rightmost t (q ++ r) -> k <= List.length r ->
  ascend t (Some q) k = Some (Some (q ++ firstn k r)).
Proof.
  revert q r; induction k as [|k IH]; intros q r Hr Hk; cbn [ascend firstn].
  - now rewrite app_nil_r.
  - destruct r as [|i r]; simpl in Hk; [lia|].
    destruct (rightmost_split _ _ _ Hr) as (n & Hg & Hn).
    destruct (rightmost_step _ _ _ Hn) as (front & c & Hc & <- & _).
    rewrite (last_child_some _ _ _ _ _ Hg Hc). cbv beta iota.
    rewrite (IH (q ++ [List.length front]) r).
    + now rewrite <- app_assoc.
    + now rewrite <- app_assoc.
    + lia.
Qed.

Lemma open_at_prefix (t : entry) (p : path) (l : nat) :
  rightmost t p -> l < List.length p ->
  exists cs, open_at t (firstn l p) cs.
Proof.
  intros Hr Hl. rewrite <- (firstn_skipn l p) in Hr.
  destruct (rightmost_split _ _ _ Hr) as (n & Hg & Hn).
  destruct (skipn l p) as [|i r] eqn:E.
  - apply (f_equal (@List.length nat)) in E. rewrite length_skipn in E. simpl in E. lia.
  - destruct (rightmost_step _ _ _ Hn) as (front & c & Hc & _).
    exists (front ++ [c]). split; [eapply rightmost_prefix; eassumption|eauto].
Qed.

Lemma push_child_title (x e : entry) : e_title (push_child x e) = e_title e.
Proof. reflexivity. Qed.

Lemma set_children_title (cs : list entry) (e : entry) : e_title (set_children cs e) = e_title e.
Proof. reflexivity. Qed.

(** [current.children.push(x)] at a rightmost reference puts [x] at the end
    of the outline, at the depth of the reference. *)
Lemma push_open (x t : entry) (q : path) (cs : list entry) :
  open_at t q cs ->
  push x t (Some q) = Some (update (push_child x) t q) /\
  open_at (update (push_child x) t q) q (cs ++ [x]) /\
  below 0 (update (push_child x) t q) = below 0 t ++ outline_at (List.length q) x.
Proof.
  intros (Hr & n & Hg & Hc). split; [|split].
  - unfold push, children_of. now rewrite Hg, Hc.
  - split; [now apply rightmost_update|].
    exists (push_child x n). split; [now apply get_update|].
    unfold push_child. now rewrite Hc.
  - destruct (below_update t n q 0 Hr Hg) as (front & Hb & Hu).
    rewrite (Hu _ (push_child_title x)), Hb, <- app_assoc. f_equal.
    unfold push_child, below at 1. simpl e_children. rewrite Hc.
    unfold below. rewrite Hc. apply flat_map_snoc.
Qed.

Lemma ends_in_leaf_snoc (cs : list entry) (h : heading) : ends_in_leaf (cs ++ [entry_of h]).
Proof.
  intros front c E. apply app_inj_tail in E. destruct E as [_ <-]. reflexivity.
Qed.

(** Lines 203-206 at a rightmost reference of the right length. *)
Lemma add_open (h : heading) (t : entry) (q : path) (cs : list entry) (err : list string) :
  open_at t q cs -> List.length q = level h ->
  exists st,
    add h t (Some q) err = Done st err /\
    toc st = update (push_child (entry_of h)) t q /\
    consistent st q (cs ++ [entry_of h]) /\
    currentLevel st = level h /\
    below 0 (toc st) = below 0 t ++ [labelled h].
Proof.
  intros Ho Hl. destruct (push_open (entry_of h) t q cs Ho) as (Hp & Ho' & Hb).
  exists (Builder (update (push_child (entry_of h)) t q) (Some q) (level h)).
  unfold add. rewrite Hp.
  split; [reflexivity|]. split; [reflexivity|]. split; [|split; [reflexivity|]].
  - constructor; auto. apply ends_in_leaf_snoc.
  - simpl toc. rewrite Hb. simpl. now rewrite Hl.
Qed.

(** Lines 185-186 and 196-197 on an entry that was just added: the step
    into the last child and the fresh [children] array leave the outline
    as it is. *)
Lemma enter_last (t : entry) (q : path) (front : list entry) (c : entry) :
  open_at t q (front ++ [c]) -> e_children c = None ->
  let q' := q ++ [List.length front] in
  last_child t (Some q) = Some (Some q') /\
  open_at (update (set_children []) t q') q' [] /\
  below 0 (update (set_children []) t q') = below 0 t.
Proof.
  intros (Hr & n & Hg & Hc) Hleaf q'.
  assert (Hr' : rightmost t q').
  { eapply rightmost_app; eauto. eapply rightmost_cons; [eassumption|exact I]. }
  assert (Hg' : get t q' = Some c).
  { unfold q'. rewrite get_app, Hg. now rewrite (get_cons _ _ _ _ Hc). }
  split; [|split].
  - eapply last_child_some; eassumption.
  - split; [now apply rightmost_update|].
    exists (set_children [] c). split; [now apply get_update|reflexivity].
  - destruct (below_update t c q' 0 Hr' Hg') as (pre & Hb & Hu).
    rewrite (Hu _ (set_children_title [])), Hb. f_equal.
    unfold below. now rewrite Hleaf.
Qed.

Lemma gaps_cons (a b : nat) : a < b -> gaps a b = (a, None) :: gaps (S a) b.
Proof.
  intros H. unfold gaps. replace (b - a) with (S (b - S a)) by lia. reflexivity.
Qed.

Lemma gaps_nil (a b : nat) : b <= a -> gaps a b = [].
Proof.
  intros H. unfold gaps. now replace (b - a) with 0 by lia.
Qed.

(** One round of lines 193-197. *)
Lemma nest_once_open (t : entry) (q : path) (cs : list entry) :
  open_at t q cs -> ends_in_leaf cs ->
  exists t' i,
    nest_once t (Some q) = Some (t', Some (q ++ [i])) /\
    open_at t' (q ++ [i]) [] /\
    below 0 t' = below 0 t ++ (if started cs then [] else [(List.length q, None)]).
Proof.
  intros Ho Hleaf. unfold nest_once.
  destruct Ho as (Hr & n & Hg & Hc).
  unfold children_of at 1. rewrite Hg, Hc.
  destruct cs as [|c0 cs0].
  - simpl Nat.eqb. cbv iota.
    destruct (push_open placeholder t q [] (conj Hr (ex_intro _ n (conj Hg Hc))))
      as (Hp & Ho' & Hb).
    rewrite Hp. simpl app in Ho'.
    destruct (enter_last _ q [] placeholder Ho' eq_refl) as (Hl & Ho2 & Hb2).
    simpl List.length in *. rewrite Hl. simpl reset_children.
    eexists _, 0. split; [reflexivity|]. split; [assumption|].
    rewrite Hb2, Hb. reflexivity.
  - simpl Nat.eqb. cbv iota.
    destruct (exists_last (l := c0 :: cs0)) as (front & c & E); [discriminate|].
    rewrite E in *.
    destruct (enter_last t q front c (conj Hr (ex_intro _ n (conj Hg Hc))) (Hleaf _ _ eq_refl))
      as (Hl & Ho2 & Hb2).
    rewrite Hl. simpl reset_children.
    eexists _, _. split; [reflexivity|]. split; [assumption|].
    rewrite Hb2. destruct front; simpl; now rewrite app_nil_r.
Qed.

(** Lines 192-198: [k] rounds leave placeholders down to the depth of the
    new heading. *)
Lemma nest_open (k : nat) (t : entry) (q : path) (cs : list entry) :
  open_at t q cs -> ends_in_leaf cs ->
  exists t' q',
    nest t (Some q) (S k) = Some (t', Some q') /\
    List.length q' = List.length q + S k /\
    open_at t' q' [] /\
    below 0 t' = below 0 t ++
                 gaps (if started cs then S (List.length q) else List.length q)
                      (List.length q + S k).
Proof.
  revert t q cs; induction k as [|k IH]; intros t q cs Ho Hleaf.
  - destruct (nest_once_open t q cs Ho Hleaf) as (t' & i & Hn & Ho' & Hb).
    exists t', (q ++ [i]). simpl. rewrite Hn. repeat split; try apply Ho'.
    + rewrite length_app. reflexivity.
    + rewrite Hb. f_equal. destruct (started cs).
      * rewrite gaps_nil; [reflexivity|lia].
      * rewrite gaps_cons, gaps_nil; [reflexivity|lia|lia].
  - destruct (nest_once_open t q cs Ho Hleaf) as (t1 & i & Hn & Ho1 & Hb1).
    destruct (IH t1 (q ++ [i]) [] Ho1) as (t' & q' & Hn' & Hl' & Ho' & Hb').
    { intros front c E. now destruct front. }
    exists t', q'. change (nest t (Some q) (S (S k))) with
      (match nest_once t (Some q) with
       | Some (t2, cur1) => nest t2 cur1 (S k)
       | None => None
       end).
    rewrite Hn, Hn'. rewrite length_app in Hl', Hb'. simpl in Hl', Hb'.
    repeat split; try apply Ho'; [lia|].
    rewrite Hb', Hb1, <- app_assoc. f_equal.
    replace (List.length q + 1 + S k) with (List.length q + S (S k)) by lia.
    replace (List.length q + 1) with (S (List.length q)) by lia.
    destruct (started cs); [reflexivity|].
    rewrite (gaps_cons (List.length q)); [reflexivity|lia].
Qed.

End JsonSteps.

(** ** The tree builder against the outline of the levels *)

Section JsonOutline.

Variables (depth : nat) (strict : bool).

(** Lines 179-183: a heading above the current level is appended where the
    walk through the last children from the root ends. *)
Lemma visit_ascend (st : builder) (p : path) (cs : list entry) (err : list string) (h : heading) :
  consistent st p cs -> in_range depth h = true -> level h < currentLevel st ->
  exists st' cs',
    visit depth strict st err h = Done st' err /\
    current st' = Some (firstn (level h) p) /\
    toc st' = update (push_child (entry_of h)) (toc st) (firstn (level h) p) /\
    consistent st' (firstn (level h) p) (cs' ++ [entry_of h]) /\
    currentLevel st' = level h /\
    below 0 (toc st') = below 0 (toc st) ++ [labelled h].
Proof.
  intros [Hcur Hlen (Hr & Hn) Hleaf] Hin Hlt.
  unfold visit. unfold in_range in Hin. rewrite Hin.
  apply Nat.ltb_lt in Hlt as Hlt'. rewrite Hlt'.
  rewrite (ascend_prefix (toc st) (level h) [] p Hr) by lia. cbn [app].
  destruct (open_at_prefix (toc st) p (level h) Hr) as (cs' & Ho); [lia|].
  destruct (add_open h (toc st) (firstn (level h) p) cs' err Ho) as (st' & Ha & Ht & Hc & Hl & Hb).
  { rewrite length_firstn. lia. }
  exists st', cs'. rewrite Ha.
  split; [reflexivity|]. split; [apply Hc|]. auto.
Qed.

(** What one heading in range does to a consistent state. *)
Lemma visit_expected (st : builder) (p : path) (cs : list entry) (err : list string) (h : heading) :
  consistent st p cs -> in_range depth h = true ->
  if (level h =? currentLevel st + 1) && negb (started cs)
  then visit depth strict st err h = Throw err
  else if (currentLevel st + 1 <? level h) && strict
  then visit depth strict st err h = Done st (err ++ [diagnostic h])
  else
    exists st' p' cs' err',
      visit depth strict st err h = Done st' err' /\
      consistent st' p' cs' /\ started cs' = true /\
      currentLevel st' = level h /\
      below 0 (toc st') =
      below 0 (toc st) ++
      ((if currentLevel st + 1 <? level h
        then gaps (if started cs then currentLevel st + 1 else currentLevel st) (level h)
        else []) ++ [labelled h]).
Proof.
  intros Hcons Hin.
  destruct (Nat.ltb (level h) (currentLevel st)) eqn:Hlt.
  - apply Nat.ltb_lt in Hlt.
    replace (level h =? currentLevel st + 1) with false by (symmetry; apply Nat.eqb_neq; lia).
    replace (currentLevel st + 1 <? level h) with false by (symmetry; apply Nat.ltb_ge; lia).
    cbn [andb].
    destruct (visit_ascend st p cs err h Hcons Hin Hlt) as (st' & cs' & Hv & _ & _ & Hc & Hl & Hb).
    exists st', (firstn (level h) p), (cs' ++ [entry_of h]), err.
    repeat (split; [assumption|]). split; [now destruct cs'|]. split; assumption.
  - destruct Hcons as [Hcur Hlen Ho Hleaf].
    unfold visit. unfold in_range in Hin. rewrite Hin, Hlt.
    destruct (Nat.eqb (level h) (currentLevel st + 1)) eqn:Heq.
    + apply Nat.eqb_eq in Heq.
      replace (currentLevel st + 1 <? level h) with false by (symmetry; apply Nat.ltb_ge; lia).
      rewrite Hcur. destruct cs as [|c0 cs0]; cbn [started negb andb].
      * destruct Ho as (Hr & n & Hg & Hc).
        now rewrite (last_child_none _ _ _ Hg Hc).
      * destruct (exists_last (l := c0 :: cs0)) as (front & c & E); [discriminate|].
        rewrite E in *.
        destruct (enter_last (toc st) p front c Ho (Hleaf _ _ eq_refl)) as (Hl & Ho2 & Hb2).
        rewrite Hl. cbn [reset_children].
        destruct (add_open h _ _ [] err Ho2) as (st' & Ha & _ & Hc & Hl' & Hb).
        { rewrite length_app. simpl. lia. }
        exists st', (p ++ [List.length front]), ([] ++ [entry_of h]), err.
        rewrite Ha, Hb, Hb2. auto.
    + apply Nat.eqb_neq in Heq. cbn [andb].
      destruct (Nat.ltb (currentLevel st + 1) (level h)) eqn:Hjump; cbn [andb].
      * destruct strict; [reflexivity|].
        apply Nat.ltb_lt in Hjump.
        destruct (nest_open (level h - currentLevel st - 1) (toc st) p cs Ho Hleaf)
          as (t' & q' & Hn & Hl & Ho' & Hb).
        replace (S (level h - currentLevel st - 1)) with (level h - currentLevel st) in * by lia.
        rewrite Hcur, Hn.
        destruct (add_open h t' q' [] (err ++ [diagnostic h]) Ho') as (st' & Ha & _ & Hc & Hl' & Hb').
        { lia. }
        exists st', q', ([] ++ [entry_of h]), (err ++ [diagnostic h]).
        rewrite Ha, Hb', Hb, <- app_assoc.
        split; [reflexivity|]. split; [assumption|]. split; [reflexivity|].
        split; [assumption|]. do 2 f_equal.
        rewrite Hlen. replace (currentLevel st + (level h - currentLevel st)) with (level h) by lia.
        now rewrite Nat.add_1_r.
      * apply Nat.ltb_ge in Hjump. apply Nat.ltb_ge in Hlt.
        rewrite Hcur.
        destruct (add_open h (toc st) p cs err Ho) as (st' & Ha & _ & Hc & Hl' & Hb); [lia|].
        exists st', p, (cs ++ [entry_of h]), err.
        rewrite Ha, Hb.
        split; [reflexivity|]. split; [assumption|]. split; [now destruct cs|auto].
Qed.

(** The builder follows [expected] on every sequence of headings. *)
Lemma visit_all_expected (hs : list heading) :
  forall (st : builder) (p : path) (cs : list entry) (err : list string),
    consistent st p cs ->
    match expected strict depth (started cs) (currentLevel st) hs with
    | Some out =>
        exists st' p' cs' err',
          visit_all depth strict st err hs = Done st' err' /\
          consistent st' p' cs' /\
          below 0 (toc st') = below 0 (toc st) ++ out
    | None => exists err', visit_all depth strict st err hs = Throw err'
    end.
Proof.
  induction hs as [|h hs IH]; intros st p cs err Hcons; cbn [expected visit_all].
  - exists st, p, cs, err. rewrite app_nil_r. auto.
  - destruct (in_range depth h) eqn:Hin.
    + pose proof (visit_expected st p cs err h Hcons Hin) as Hv.
      destruct ((level h =? currentLevel st + 1) && negb (started cs)).
      * rewrite Hv. eauto.
      * destruct ((currentLevel st + 1 <? level h) && strict).
        -- rewrite Hv. apply (IH st p cs _ Hcons).
        -- destruct Hv as (st1 & p1 & cs1 & err1 & Hv & Hc1 & Hs1 & Hl1 & Hb1).
           rewrite Hv. specialize (IH st1 p1 cs1 err1 Hc1).
           rewrite Hs1, Hl1 in IH.
           destruct (expected strict depth true (level h) hs) as [out|]; cbn [option_map].
           ++ destruct IH as (st' & p' & cs' & err' & Hv' & Hc' & Hb').
              exists st', p', cs', err'. rewrite Hv', Hb', Hb1, <- app_assoc. auto.
           ++ assumption.
    + unfold visit. unfold in_range in Hin. rewrite Hin. apply (IH st p cs err Hcons).
Qed.

Lemma init_consistent : consistent init [] [].
Proof.
  constructor; simpl; auto.
  - split; [exact I|]. eexists; split; reflexivity.
  - intros front c E. now destruct front.
Qed.

Lemma visit_all_app (hs1 hs2 : list heading) (st : builder) (err : list string) :
  visit_all depth strict st err (hs1 ++ hs2) =
  match visit_all depth strict st err hs1 with
  | Done st' err' => visit_all depth strict st' err' hs2
  | Throw err' => Throw err'
  end.
Proof.
  revert st err; induction hs1 as [|h hs1 IH]; intros st err; cbn [visit_all app]; [reflexivity|].
  destruct (visit depth strict st err h); auto.
Qed.

(** The two nested [forEach] loops visit the stream of all headings. *)
Lemma visit_pages_stream (pages : list page) (st : builder) (err : list string) :
  visit_pages depth strict st err pages = visit_all depth strict st err (stream pages).
Proof.
  revert st err; induction pages as [|pg pages IH]; intros st err; [reflexivity|].
  unfold stream. cbn [visit_pages flat_map]. rewrite visit_all_app.
  destruct (visit_all depth strict st err (headings pg)); auto.
Qed.

End JsonOutline.

(** The builder returns the tree of outline [expected], or throws where
    [expected] has none. *)
Lemma buildToC_json_expected (pages : list page) (depth : nat) (strict : bool) :
  match expected strict depth false 0 (stream pages) with
  | Some out =>
      exists tree err, buildToC_json pages depth strict = Done tree err /\ outline tree = out
  | None => exists err, buildToC_json pages depth strict = Throw err
  end.
Proof.
  unfold buildToC_json, run. rewrite visit_pages_stream.
  pose proof (visit_all_expected depth strict (stream pages) init [] [] [] init_consistent) as H.
  cbn [started currentLevel init] in H.
  destruct (expected strict depth false 0 (stream pages)) as [out|].
  - destruct H as (st' & p' & cs' & err' & -> & Hc & Hb).
    exists (root_children (toc st')), err'. split; [reflexivity|].
    unfold outline, root_children. unfold below in Hb. simpl in Hb.
    destruct (e_children (toc st')); simpl; auto.
  - destruct H as (err' & ->). eauto.
Qed.

(** ** Outlines as lists *)

Section Outlines.

Variables (depth : nat) (strict : bool).

Lemma titles_of_app (a b : list (nat * Js.value)) :
  titles_of (a ++ b) = titles_of a ++ titles_of b.
Proof. apply flat_map_app. Qed.

Lemma titles_of_gaps (a b : nat) : titles_of (gaps a b) = [].
Proof.
  unfold gaps. generalize (b - a) as n. intros n; revert a.
  induction n as [|n IH]; intros a; simpl; auto.
Qed.

(** Once an entry is there the builder does not throw any more. *)
Lemma expected_started (cur : nat) (hs : list heading) :
  exists out, expected strict depth true cur hs = Some out /\
              titles_of out = map title (emitted strict depth cur hs).
Proof.
  revert cur; induction hs as [|h hs IH]; intros cur; cbn [expected emitted].
  - now exists [].
  - destruct (in_range depth h); cbn [andb negb]; [|apply IH].
    rewrite andb_false_r.
    destruct ((cur + 1 <? level h) && strict) eqn:E; cbn [negb]; [apply IH|].
    destruct (IH (level h)) as (out & -> & Ht). cbn [option_map].
    eexists; split; [reflexivity|].
    rewrite !titles_of_app, Ht. cbn [map].
    destruct (cur + 1 <? level h); [rewrite titles_of_gaps|]; reflexivity.
Qed.

(** Before that it throws exactly at a first entry of level 1. *)
Lemma expected_fresh (hs : list heading) :
  match expected strict depth false 0 hs with
  | Some out => titles_of out = map title (emitted strict depth 0 hs)
  | None => exists h es, emitted strict depth 0 hs = h :: es /\ level h = 1
  end.
Proof.
  induction hs as [|h hs IH]; cbn [expected emitted]; [reflexivity|].
  destruct (in_range depth h); cbn [andb negb]; [|apply IH].
  rewrite andb_true_r.
  destruct (Nat.eqb (level h) (0 + 1)) eqn:E1.
  - apply Nat.eqb_eq in E1.
    replace (0 + 1 <? level h) with false by (symmetry; apply Nat.ltb_ge; lia).
    cbn [andb negb]. eauto.
  - destruct ((0 + 1 <? level h) && strict) eqn:E; cbn [negb]; [apply IH|].
    destruct (expected_started (level h) hs) as (out & -> & Ht). cbn [option_map].
    rewrite !titles_of_app, Ht. cbn [map].
    destruct (0 + 1 <? level h); [rewrite titles_of_gaps|]; reflexivity.
Qed.

Lemma emitted_lenient (cur : nat) (hs : list heading) :
  emitted false depth cur hs = filter (in_range depth) hs.
Proof.
  revert cur; induction hs as [|h hs IH]; intros cur; cbn [emitted filter]; [reflexivity|].
  rewrite andb_false_r. cbn [negb]. rewrite andb_true_r.
  destruct (in_range depth h); [f_equal|]; apply IH.
Qed.

(** On contiguous levels the outline is the list of headings in range. *)
Lemma expected_contiguous (started : bool) (cur : nat) (hs : list heading) (out : list (nat * Js.value)) :
  contiguous depth cur hs -> expected strict depth started cur hs = Some out ->
  out = map labelled (filter (in_range depth) hs).
Proof.
  revert started cur out; induction hs as [|h hs IH]; intros started cur out Hc He;
    cbn [expected contiguous filter] in *.
  - now inversion He.
  - destruct (in_range depth h); [|eauto].
    destruct Hc as [Hle Hc].
    replace (cur + 1 <? level h) with false in He by (symmetry; apply Nat.ltb_ge; lia).
    cbn [andb] in He.
    destruct ((level h =? cur + 1) && negb started); [discriminate|].
    destruct (expected strict depth true (level h) hs) as [out'|] eqn:E; [|discriminate].
    cbn [option_map app] in He. inversion He; subst out. cbn [map]. f_equal. eauto.
Qed.

Lemma contiguous_out_of_range (cur : nat) (hs : list heading) :
  Forall (fun h => depth <= level h) hs -> contiguous depth cur hs.
Proof.
  induction 1 as [|h hs Hh _ IH]; cbn [contiguous]; [exact I|].
  unfold in_range. now replace (level h <? depth) with false by (symmetry; apply Nat.ltb_ge; lia).
Qed.

Lemma gentle_lower_bound (l : nat) (ls : list nat) :
  gentle (l :: ls) -> Forall (fun x => l <= x) ls.
Proof.
  revert l; induction ls as [|l' ls IH]; intros l Hg; constructor.
  - simpl in Hg. lia.
  - destruct Hg as [Hl Hg]. apply IH in Hg.
    eapply Forall_impl; [|exact Hg]. simpl. lia.
Qed.

Lemma gentle_contiguous (cur : nat) (hs : list heading) :
  gentle (map level hs) -> hd cur (map level hs) <= cur + 1 -> contiguous depth cur hs.
Proof.
  revert cur; induction hs as [|h hs IH]; intros cur Hg Hhd; [exact I|].
  cbn [contiguous]. cbn [map hd] in Hhd.
  destruct (in_range depth h) eqn:Hin.
  - split; [assumption|]. apply IH.
    + cbn [map] in Hg. simpl in Hg. destruct (map level hs); [exact I|tauto].
    + cbn [map] in Hg. simpl in Hg. destruct (map level hs); simpl; [lia|lia].
  - apply contiguous_out_of_range. cbn [map] in Hg.
    apply gentle_lower_bound in Hg. unfold in_range in Hin. apply Nat.ltb_ge in Hin.
    rewrite Forall_map in Hg. eapply Forall_impl; [|exact Hg]. simpl. lia.
Qed.

(** A heading at most one level below the current one writes nothing to
    [console.error]. *)
Lemma visit_quiet (st : builder) (err : list string) (h : heading) :
  in_range depth h = true -> level h <= currentLevel st + 1 ->
  visit depth strict st err h = Throw err \/
  exists st', visit depth strict st err h = Done st' err /\ currentLevel st' = level h.
Proof.
  intros Hin Hle. unfold visit, add. unfold in_range in Hin. rewrite Hin.
  replace (currentLevel st + 1 <? level h) with false by (symmetry; apply Nat.ltb_ge; lia).
  destruct (level h <? currentLevel st).
  - destruct (ascend (toc st) (Some []) (level h)) as [cur|]; auto.
    destruct (push (entry_of h) (toc st) cur); eauto.
  - destruct (level h =? currentLevel st + 1).
    + destruct (last_child (toc st) (current st)) as [cur|]; auto.
      destruct (reset_children (toc st) cur) as [t|]; auto.
      destruct (push (entry_of h) t cur); eauto.
    + destruct (push (entry_of h) (toc st) (current st)); eauto.
Qed.

Lemma visit_all_quiet (hs : list heading) (st : builder) (err : list string) :
  contiguous depth (currentLevel st) hs ->
  diagnostics (visit_all depth strict st err hs) = err.
Proof.
  revert st; induction hs as [|h hs IH]; intros st Hc; cbn [visit_all contiguous] in *;
    [reflexivity|].
  destruct (in_range depth h) eqn:Hin.
  - destruct Hc as [Hle Hc].
    destruct (visit_quiet st err h Hin Hle) as [->|(st' & -> & Hl)]; [reflexivity|].
    apply IH. now rewrite Hl.
  - unfold visit. unfold in_range in Hin. rewrite Hin. now apply IH.
Qed.

End Outlines.

(** ** The tree builder: properties of the specification *)

(** C1. For a level-0 heading directly followed by a level-2 heading, the
    builder in strict mode adds no entry for the level-2 heading: it ends in
    the very state (tree, insertion point, [currentLevel]) it ends in on the
    level-0 heading alone, [currentLevel] still 0.  In lenient mode the
    level-0 entry gets exactly one child, a placeholder without title and
    link, whose only child is the level-2 heading. *)
Theorem skipped_level_strict_and_lenient
  (pages pages0 : list page) (depth : nat) (h0 h2 : heading) :
  stream pages = [h0; h2] -> stream pages0 = [h0] ->
  level h0 = 0 -> level h2 = 2 -> 2 < depth ->
  (exists st,
     run pages depth true = Done st [diagnostic h2] /\
     run pages0 depth true = Done st [] /\
     root_children (toc st) = [entry_of h0] /\
     currentLevel st = 0) /\
  buildToC_json pages depth false =
  Done [Entry (Some (title h0)) (href h0) (Some [Entry None None (Some [entry_of h2])])]
       [diagnostic h2].
Proof.
  intros Hs Hs0 H0 H2 Hd. unfold buildToC_json, run.
  rewrite !visit_pages_stream, Hs, Hs0.
  destruct h0 as [l0 t0 r0], h2 as [l2 t2 r2]. simpl in H0, H2. subst l0 l2.
  destruct depth as [|[|[|d]]]; try lia.
  split; [eexists; repeat split|]; reflexivity.
Qed.

Lemma skipped_level_strict_and_lenient_witness :
  (exists st,
     run Examples.skipping 6 true = Done st ["non-continous heading (h3): Detail"] /\
     run Examples.single 6 true = Done st [] /\
     root_children (toc st) = [Entry (Some "Intro") (Some "A.html") None] /\
     currentLevel st = 0) /\
  buildToC_json Examples.skipping 6 false =
  Done [Entry (Some "Intro") (Some "A.html")
          (Some [Entry None None (Some [Entry (Some "Detail") (Some "A.html#d") None])])]
       ["non-continous heading (h3): Detail"].
Proof.
  apply (skipped_level_strict_and_lenient Examples.skipping Examples.single 6
           (Heading 0 "Intro" (Some "A.html")) (Heading 2 "Detail" (Some "A.html#d")));
    simpl; try reflexivity; lia.
Defined.

(** C5. On the levels 0, 1, 2, 1 the second level-1 heading becomes the
    second child of the level-0 entry, next to the first level-1 heading
    and not below the level-2 heading.  In general, after any sequence of
    headings, a heading in range above the current level is pushed onto the
    object that is reached from the root by a reference [p] of
    [heading.level] steps, each through the last child. *)
Theorem ascend_rejoins_ancestor :
  (forall (pages : list page) (depth : nat) (strict : bool) (h0 h1 h2 h3 : heading),
      stream pages = [h0; h1; h2; h3] ->
      level h0 = 0 -> level h1 = 1 -> level h2 = 2 -> level h3 = 1 -> 2 < depth ->
      buildToC_json pages depth strict =
      Done [Entry (Some (title h0)) (href h0)
              (Some [Entry (Some (title h1)) (href h1) (Some [entry_of h2]); entry_of h3])]
           []) /\
  (forall (depth : nat) (strict : bool) (hs : list heading) (st : builder)
          (err : list string) (h : heading),
      visit_all depth strict init [] hs = Done st err ->
      in_range depth h = true -> level h < currentLevel st ->
      exists st' p,
        visit depth strict st err h = Done st' err /\
        List.length p = level h /\ rightmost (toc st) p /\
        current st' = Some p /\
        toc st' = update (push_child (entry_of h)) (toc st) p /\
        currentLevel st' = level h).
Proof.
  split.
  - intros pages depth strict h0 h1 h2 h3 Hs H0 H1 H2 H3 Hd. unfold buildToC_json, run.
    rewrite visit_pages_stream, Hs.
    destruct h0 as [l0 t0 r0], h1 as [l1 t1 r1], h2 as [l2 t2 r2], h3 as [l3 t3 r3].
    simpl in H0, H1, H2, H3. subst l0 l1 l2 l3.
    destruct depth as [|[|[|d]]]; try lia. reflexivity.
  - intros depth strict hs st err h Hrun Hin Hlt.
    pose proof (visit_all_expected depth strict hs init [] [] [] init_consistent) as H.
    destruct (expected strict depth (started []) (currentLevel init) hs).
    + destruct H as (st1 & p1 & cs1 & err1 & Hv & Hc & _).
      rewrite Hrun in Hv. inversion Hv; subst st1 err1.
      destruct (visit_ascend depth strict st p1 cs1 err h Hc Hin Hlt)
        as (st' & cs' & Hv' & Hcur & Ht & Hc' & Hl & _).
      exists st', (firstn (level h) p1).
      destruct Hc as [_ Hlen (Hr & _) _].
      repeat split; auto.
      * rewrite length_firstn. lia.
      * rewrite <- (firstn_skipn (level h) p1) in Hr. eapply rightmost_prefix; eassumption.
    + destruct H as (err' & Hv). rewrite Hrun in Hv. discriminate.
Qed.

Lemma ascend_rejoins_ancestor_witness :
  buildToC_json Examples.zigzag 6 false =
  Done [Entry (Some "One") (Some "A.html")
          (Some [Entry (Some "Two") (Some "A.html#two")
                   (Some [Entry (Some "Three") (Some "A.html#three") None]);
                 Entry (Some "Four") (Some "B.html") None])]
       [] /\
  exists st' p,
    visit 6 false Examples.zigzag_state [] (Heading 1 "Four" (Some "B.html")) = Done st' [] /\
    List.length p = 1 /\ rightmost (toc Examples.zigzag_state) p /\ current st' = Some p /\
    toc st' = update (push_child (entry_of (Heading 1 "Four" (Some "B.html"))))
                     (toc Examples.zigzag_state) p /\
    currentLevel st' = 1.
Proof.
  destruct ascend_rejoins_ancestor as [Hex Hgen]. split.
  - apply (Hex Examples.zigzag 6 false
             (Heading 0 "One" (Some "A.html")) (Heading 1 "Two" (Some "A.html#two"))
             (Heading 2 "Three" (Some "A.html#three")) (Heading 1 "Four" (Some "B.html")));
      simpl; try reflexivity; lia.
  - apply (Hgen 6 false (firstn 3 (stream Examples.zigzag)) Examples.zigzag_state []
             (Heading 1 "Four" (Some "B.html"))); simpl; try reflexivity; lia.
Defined.

(** C6. The titles of the tree in depth-first order, placeholders left
    aside, are the titles of the headings in range in their order of
    arrival, less the headings that strict mode discards at a jump; in
    lenient mode none is discarded.  The builder returns no tree exactly
    when the first heading to become an entry has level 1. *)
Theorem titles_in_order (pages : list page) (depth : nat) (strict : bool) :
  emitted false depth 0 (stream pages) = filter (in_range depth) (stream pages) /\
  incl (emitted strict depth 0 (stream pages)) (filter (in_range depth) (stream pages)) /\
  match buildToC_json pages depth strict with
  | Done tree _ => titles tree = map title (emitted strict depth 0 (stream pages))
  | Throw _ =>
      exists h es, emitted strict depth 0 (stream pages) = h :: es /\ level h = 1
  end.
Proof.
  split; [apply emitted_lenient|]. split.
  - generalize 0 as cur. induction (stream pages) as [|h hs IH]; intros cur;
      cbn [emitted filter]; [apply incl_refl|].
    destruct (in_range depth h); cbn [andb].
    + destruct (negb ((cur + 1 <? level h) && strict)).
      * apply incl_cons; [now left|]. apply incl_tl, IH.
      * apply incl_tl, IH.
    + apply IH.
  - pose proof (buildToC_json_expected pages depth strict) as H.
    pose proof (expected_fresh depth strict (stream pages)) as Hf.
    destruct (expected strict depth false 0 (stream pages)) as [out|].
    + destruct H as (tree & err & -> & Ho). unfold titles. now rewrite Ho.
    + destruct H as (err & ->). exact Hf.
Qed.

(** C7, as the program has it.  When the levels never decrease, never
    increase by more than one from a heading to the next, and the first
    heading has level 0 or 1 (the builder starts from [currentLevel] 0), the
    branch for non-contiguous levels is never taken: nothing is written to
    [console.error], and a tree that is returned has one entry per heading
    in range, at the depth of its level, and no placeholder. *)
Theorem gentle_levels_never_jump (pages : list page) (depth : nat) (strict : bool) :
  gentle (map level (stream pages)) ->
  hd 0 (map level (stream pages)) <= 1 ->
  match buildToC_json pages depth strict with
  | Done tree err =>
      err = [] /\ outline tree = map labelled (filter (in_range depth) (stream pages))
  | Throw err => err = []
  end.
Proof.
  intros Hg Hhd.
  pose proof (gentle_contiguous depth 0 (stream pages) Hg Hhd) as Hc.
  pose proof (visit_all_quiet depth strict (stream pages) init [] Hc) as Hq.
  pose proof (buildToC_json_expected pages depth strict) as H.
  unfold buildToC_json, run in *. rewrite visit_pages_stream in *.
  destruct (visit_all depth strict init [] (stream pages)) as [st err|err]; simpl in Hq; subst err.
  - split; [reflexivity|].
    destruct (expected strict depth false 0 (stream pages)) as [out|] eqn:E.
    + destruct H as (tree & err & Hd & Ho). inversion Hd; subst tree.
      rewrite Ho. eapply expected_contiguous; eassumption.
    + destruct H as (err & Hd). discriminate.
  - reflexivity.
Qed.

Lemma gentle_levels_never_jump_witness :
  gentle (map level (stream Examples.stairs)) /\
  hd 0 (map level (stream Examples.stairs)) <= 1 /\
  match buildToC_json Examples.stairs 6 false with
  | Done tree err =>
      err = [] /\ outline tree = map labelled (filter (in_range 6) (stream Examples.stairs))
  | Throw err => err = []
  end.
Proof.
  assert (Hg : gentle (map level (stream Examples.stairs))) by (simpl; lia).
  assert (Hh : hd 0 (map level (stream Examples.stairs)) <= 1) by (simpl; lia).
  split; [exact Hg|]. split; [exact Hh|].
  exact (gentle_levels_never_jump Examples.stairs 6 false Hg Hh).
Defined.

(** C7, as the specification has it, fails on a stream that starts at
    level 2: its level sequence is gentle, yet the builder takes the branch
    for non-contiguous levels and reports the heading. *)
Lemma gentle_levels_never_jump_counterexample :
  ~ (gentle (map level (stream Examples.deep_first)) ->
     diagnostics (buildToC_json Examples.deep_first 6 false) = []).
Proof.
  intros H. specialize (H I). vm_compute in H. discriminate.
Qed.

(** C9. When the first heading in range has level 1, the branch of line
    184 looks up the last element of the empty root array, which is
    [undefined], and the assignment of line 186 throws: no tree is
    returned, in either mode. *)
Theorem first_heading_of_level_one_throws
  (pages : list page) (depth : nat) (strict : bool) (h : heading) :
  find (in_range depth) (stream pages) = Some h -> level h = 1 ->
  last_child (toc init) (current init) = Some None /\
  reset_children (toc init) None = None /\
  buildToC_json pages depth strict = Throw [].
Proof.
  intros Hf Hl. split; [reflexivity|]. split; [reflexivity|].
  unfold buildToC_json, run. rewrite visit_pages_stream.
  induction (stream pages) as [|x hs IH]; [discriminate|].
  cbn [find] in Hf. cbn [visit_all]. unfold visit at 1.
  unfold in_range in Hf at 1. destruct (level x <? depth) eqn:E.
  - inversion Hf; subst x. rewrite Hl. reflexivity.
  - apply IH, Hf.
Qed.

Lemma first_heading_of_level_one_throws_witness :
  buildToC_json Examples.sub_first 6 false = Throw [].
Proof.
  apply (first_heading_of_level_one_throws Examples.sub_first 6 false
           (Heading 1 "Background" (Some "A.html"))); reflexivity.
Defined.

(** ** Anchor resolution and heading extraction *)

Section Anchors.

Lemma append_empty (a b : string) : (a ++ b)%string = "" <-> a = "" /\ b = "".
Proof.
  destruct a; simpl; split.
  - auto.
  - tauto.
  - discriminate.
  - intros [H _]. discriminate.
Qed.

Lemma nonempty_false (s : string) : Js.nonempty s = false <-> s = "".
Proof. destruct s; simpl; split; congruence. Qed.

(** The [while] condition of line 92 ends the loop once text was met. *)
Lemma climb_stops (up : list frame) (here : node) (l r : list node) (txt : string) (id : Js.value) :
  Js.nonempty txt = true -> climb up here l r txt id = id.
Proof. intros H. destruct up; simpl; now rewrite H. Qed.

(** The loop of lines 98-101 collects the text of the sibling elements. *)
Lemma prev_text_elements (l : list node) :
  prev_text l = join (map text (filter is_element l)).
Proof.
  induction l as [|n l IH]; [reflexivity|].
  destruct n as [s|tg at_ ks]; cbn [prev_text filter is_element map join fold_right];
    [exact IH|]. now rewrite IH.
Qed.

Lemma climb_spec (up : list frame) :
  forall (here : node) (l r : list node) (id : Js.value) (k : nat) (anc : loc),
    nth_error (chain_from up here l r) k = Some anc ->
    has_id anc = true ->
    (forall j a, j < k -> nth_error (chain_from up here l r) j = Some a -> has_id a = false) ->
    (join (map elements_before (firstn k (chain_from up here l r))) = "" ->
     climb up here l r "" id = attr "id" (Dom.here anc)) /\
    (join (map elements_before (firstn k (chain_from up here l r))) <> "" ->
     Js.truthy (climb up here l r "" id) = false).
Proof.
  induction up as [|f up IH]; intros here l r id k anc Hn Hid Hno.
  - destruct k as [|k]; [|destruct k; discriminate].
    simpl in Hn. inversion Hn; subst anc. unfold has_id in Hid. simpl in *.
    rewrite Hid. split; [reflexivity|congruence].
  - destruct k as [|k].
    + simpl in Hn. inversion Hn; subst anc. unfold has_id in Hid. simpl in *.
      rewrite Hid. split; [reflexivity|congruence].
    + assert (H0 : Js.truthy (attr "id" here) = false).
      { apply (Hno 0 (Loc here l r (f :: up))); [lia|reflexivity]. }
      cbn [chain_from nth_error firstn map join fold_right] in *.
      unfold elements_before at 1 3. cbn [before]. rewrite <- !prev_text_elements.
      cbn [climb Js.nonempty]. rewrite H0. cbn [String.append].
      destruct (Js.nonempty (prev_text l)) eqn:E.
      * rewrite climb_stops by assumption. split; [|auto].
        intros Ha. apply append_empty in Ha. destruct Ha as [Ha _].
        rewrite Ha in E. discriminate.
      * apply nonempty_false in E. rewrite E. cbn [String.append].
        apply IH; auto.
        intros j a Hj Ha. apply (Hno (S j) a); [lia|exact Ha].
Qed.

Lemma chain_parent (elt : loc) :
  chain elt = elt :: match parent elt with
                     | Some p => chain p
                     | None => []
                     end.
Proof.
  destruct elt as [here l r up]. unfold chain, parent. simpl.
  destruct up; reflexivity.
Qed.

End Anchors.

(** C4. The program misses text that stands directly before the heading.
    Take a heading element without identifier whose nearest ancestor with an
    identifier is [anc], the [(k+1)]-th element up.  [getHeadingID] returns
    the identifier of [anc] exactly when the sibling elements that stand
    before the elements on the way up to [anc] carry no text: the loop of
    lines 98-101 goes from sibling to sibling with [.prev()], which steps
    over character data, so text that stands directly in a parent never gets
    into [txt].  The claim, like the comment at lines 89-90, has the
    resolution fail when there is text before the heading. *)
Theorem bare_text_before_heading_is_missed (elt anc : loc) (k : nat) :
  nth_error (chain elt) (S k) = Some anc ->
  has_id anc = true ->
  (forall j a, j <= k -> nth_error (chain elt) j = Some a -> has_id a = false) ->
  (join (map elements_before (firstn (S k) (chain elt))) = "" ->
   getHeadingID elt = attr "id" (here anc)) /\
  (join (map elements_before (firstn (S k) (chain elt))) <> "" ->
   Js.truthy (getHeadingID elt) = false).
Proof.
  intros Hn Hid Hno. unfold getHeadingID, chain in *.
  apply climb_spec; auto.
  intros j a Hj. apply Hno. lia.
Qed.

Lemma bare_text_before_heading_is_missed_witness :
  text_before (Examples.first_heading Examples.section_bare_text) = "Lead " /\
  getHeadingID (Examples.first_heading Examples.section_bare_text) = Some "sec" /\
  text_before (Examples.first_heading Examples.section_paragraph) = "Lead " /\
  Js.truthy (getHeadingID (Examples.first_heading Examples.section_paragraph)) = false.
Proof.
  split; [reflexivity|]. split; [|split; [reflexivity|]].
  - refine (proj1 (bare_text_before_heading_is_missed
                     (Examples.first_heading Examples.section_bare_text)
                     (Examples.first_element Examples.section_bare_text) 0 eq_refl eq_refl _)
                  eq_refl).
    intros j a Hj Hn.
    destruct j as [|j]; [|lia]; vm_compute in Hn; inversion Hn; reflexivity.
  - refine (proj2 (bare_text_before_heading_is_missed
                     (Examples.first_heading Examples.section_paragraph)
                     (Examples.first_element Examples.section_paragraph) 0 eq_refl eq_refl _)
                  _); [|discriminate].
    intros j a Hj Hn.
    destruct j as [|j]; [|lia]; vm_compute in Hn; inversion Hn; reflexivity.
Defined.

(** C8. When the resolution finds no identifier, the first heading of the
    page gets the page href as its link; any other heading gets no link,
    and it enters the heading stream exactly when [keepAllHeadings] is set:
    under the default it is dropped. *)
Theorem unanchored_heading (pageHref : string) (index : nat) (elt : loc)
        (keepAllHeadings : bool) (sel : list loc) :
  Js.truthy (getHeadingID elt) = false ->
  (index = 0 -> href (heading_of pageHref index elt) = Some pageHref) /\
  (index <> 0 ->
   href (heading_of pageHref index elt) = None /\
   each pageHref keepAllHeadings index (elt :: sel) =
   (if keepAllHeadings then [heading_of pageHref index elt] else []) ++
   each pageHref keepAllHeadings (S index) sel /\
   each pageHref default_keepAllHeadings index (elt :: sel) =
   each pageHref default_keepAllHeadings (S index) sel).
Proof.
  intros Hid.
  assert (Hh : href (heading_of pageHref index elt) = if index =? 0 then Some pageHref else None).
  { unfold heading_of. simpl. destruct (getHeadingID elt) as [[|c r]|]; simpl in *; congruence. }
  split.
  - intros ->. exact Hh.
  - intros Hi. apply Nat.eqb_neq in Hi. rewrite Hi in Hh.
    split; [exact Hh|]. cbn [each]. unfold kept. rewrite Hh. simpl.
    split; [destruct keepAllHeadings|]; reflexivity.
Qed.

Lemma unanchored_heading_witness :
  href (heading_of "A.html" 0 (Examples.first_heading Examples.page_A)) = Some "A.html" /\
  each "A.html" false 1 (tl (select_headings Examples.page_A)) = [].
Proof.
  split.
  - apply (proj1 (unanchored_heading "A.html" 0 (Examples.first_heading Examples.page_A)
                                     false [] eq_refl) eq_refl).
  - refine (proj2 (proj2 (proj2 (unanchored_heading
                                   "A.html" 1
                                   (hd (Examples.first_heading Examples.page_A)
                                       (tl (select_headings Examples.page_A)))
                                   false [] eq_refl) _))).
    discriminate.
Defined.

(** ** The pipeline and the entry point *)

(** C3, as the program has it.  Page A.html has the headings "Intro"
    (h1) and "Background" (h2), page B.html the heading "Conclusion" (h1),
    and no heading resolves to an identifier.  Under the default
    configuration "Background", which has no anchor and is not the first
    heading of its page, is dropped: the result is the two entries "Intro"
    (link A.html) and "Conclusion" (link B.html).  With [keepAllHeadings]
    set the result has "Background", without link, as the only child of
    "Intro". *)
Theorem two_pages_end_to_end
  (load : string -> string -> option document) (basedir : string)
  (dA dB : document) (a0 a1 b0 : loc) :
  load basedir "A.html" = Some dA -> load basedir "B.html" = Some dB ->
  select_headings dA = [a0; a1] -> select_headings dB = [b0] ->
  tagName (here a0) = "h1" -> tagName (here a1) = "h2" -> tagName (here b0) = "h1" ->
  normalize (text (here a0)) = "Intro" ->
  normalize (text (here a1)) = "Background" ->
  normalize (text (here b0)) = "Conclusion" ->
  Js.truthy (getHeadingID a0) = false ->
  Js.truthy (getHeadingID a1) = false ->
  Js.truthy (getHeadingID b0) = false ->
  extract_and_build load basedir ["A.html"; "B.html"] default_keepAllHeadings default_depth false =
  Done [Entry (Some "Intro") (Some "A.html") None;
        Entry (Some "Conclusion") (Some "B.html") None] [] /\
  extract_and_build load basedir ["A.html"; "B.html"] true default_depth false =
  Done [Entry (Some "Intro") (Some "A.html") (Some [Entry (Some "Background") None None]);
        Entry (Some "Conclusion") (Some "B.html") None] [].
Proof.
  intros HA HB HsA HsB Ha0 Ha1 Hb0 Ta0 Ta1 Tb0 Ia0 Ia1 Ib0.
  assert (H0 : forall keep, each "A.html" keep 0 [a0; a1] =
                            Heading 0 "Intro" (Some "A.html") ::
                            (if keep then [Heading 1 "Background" None] else [])).
  { intros keep. cbn [each]. unfold kept, heading_of.
    rewrite Ha0, Ha1, Ta0, Ta1.
    destruct (getHeadingID a0) as [[|c r]|]; try discriminate;
      destruct (getHeadingID a1) as [[|c' r']|]; try discriminate;
      destruct keep; reflexivity. }
  assert (H1 : forall keep, each "B.html" keep 0 [b0] = [Heading 0 "Conclusion" (Some "B.html")]).
  { intros keep. cbn [each]. unfold kept, heading_of. rewrite Hb0, Tb0.
    destruct (getHeadingID b0) as [[|c r]|]; try discriminate; destruct keep; reflexivity. }
  unfold extract_and_build, parseHeadingsSync, parsePage.
  rewrite HA, HB, HsA, HsB, !H0, !H1. split; reflexivity.
Qed.

Lemma two_pages_end_to_end_witness :
  extract_and_build Examples.two_pages "." ["A.html"; "B.html"] false 6 false =
  Done [Entry (Some "Intro") (Some "A.html") None;
        Entry (Some "Conclusion") (Some "B.html") None] [] /\
  extract_and_build Examples.two_pages "." ["A.html"; "B.html"] true 6 false =
  Done [Entry (Some "Intro") (Some "A.html") (Some [Entry (Some "Background") None None]);
        Entry (Some "Conclusion") (Some "B.html") None] [].
Proof.
  apply (two_pages_end_to_end Examples.two_pages "." Examples.page_A Examples.page_B
           (Examples.first_heading Examples.page_A)
           (hd (Examples.first_heading Examples.page_A) (tl (select_headings Examples.page_A)))
           (Examples.first_heading Examples.page_B));
    reflexivity.
Defined.

(** C3, as the specification has it, fails: under the default
    configuration the pipeline does not return the tree with "Background"
    below "Intro". *)
Lemma two_pages_end_to_end_counterexample :
  extract_and_build Examples.two_pages "." ["A.html"; "B.html"]
                    default_keepAllHeadings default_depth false <>
  Done [Entry (Some "Intro") (Some "A.html") (Some [Entry (Some "Background") None None]);
        Entry (Some "Conclusion") (Some "B.html") None] [].
Proof.
  vm_compute. discriminate.
Qed.

(** C10. When the format in force is none of txt, json, ncx and xhtml,
    [buildToC] writes the error to [console.error] and returns the empty
    string, whether the pages were passed in or had to be read. *)
Theorem unsupported_format_yields_nothing
  (load : string -> string -> option document) (stringify : list entry -> string)
  (html : node -> string) (parse : string -> list node)
  (cfg : config) (fmt : Js.value) (pages : list page) :
  supported (selected cfg fmt) = false ->
  buildToC load stringify html parse cfg fmt (Some pages) = Done "" [unsupported cfg] /\
  (parseHeadingsSync load (basedir cfg) (spine cfg) (keepAllHeadings cfg) = Some pages ->
   buildToC load stringify html parse cfg fmt None = Done "" [unsupported cfg]).
Proof.
  intros Hs.
  assert (Hr : render stringify html parse cfg fmt pages = Done "" [unsupported cfg]).
  { unfold render. destruct (selected cfg fmt) as [s|]; [|reflexivity].
    simpl in Hs. rewrite !orb_false_r in Hs.
    repeat (apply orb_false_iff in Hs; destruct Hs as [? Hs]).
    now repeat match goal with H : String.eqb _ _ = false |- _ => rewrite H; clear H end. }
  split; [exact Hr|]. intros Hp. unfold buildToC. now rewrite Hp.
Qed.

Lemma unsupported_format_yields_nothing_witness :
  buildToC Examples.two_pages (fun _ => "") (fun _ => "") (fun _ => []) Examples.no_format None
           (Some Examples.zigzag) =
  Done "" [("unsupported output format: " ++ q ++ "pdf" ++ q)%string].
Proof.
  apply (proj1 (unsupported_format_yields_nothing
                  Examples.two_pages (fun _ => "") (fun _ => "") (fun _ => [])
                  Examples.no_format None Examples.zigzag eq_refl)).
Defined.

(** ** Navigation documents on well-nested headings *)

Section NavGeneral.

Lemma string_app_nil_r (s : string) : (s ++ "")%string = s.
Proof. induction s as [|c s IH]; simpl; congruence. Qed.

Lemma text_chars (s : string) : join (map text (chars s)) = s.
Proof. destruct s; simpl; [reflexivity|]. now rewrite string_app_nil_r. Qed.

Lemma items_chars (tg : string) (d : nat) (s : string) :
  flat_map (items_at tg d) (chars s) = [].
Proof. now destruct s. Qed.

(** The last match in a list that ends with [k]. *)
Lemma scan_last (tg : string) (below : node -> option path) (front : list node) (k : node) (i : nat) :
  scan tg below (front ++ [k]) i =
  match below k with
  | Some p => Some (i + List.length front :: p)
  | None => if is_elem tg k then Some [i + List.length front] else scan tg below front i
  end.
Proof.
  revert i; induction front as [|x front IH]; intros i; cbn [app scan List.length].
  - rewrite Nat.add_0_r. destruct (below k); [reflexivity|]. now destruct (is_elem tg k).
  - rewrite IH. replace (S i + List.length front) with (i + S (List.length front)) by lia.
    destruct (below k); [reflexivity|]. now destruct (is_elem tg k).
Qed.

Lemma scan_chars (tg : string) (below : node -> option path) (s : string) (i : nat) :
  (forall x, below (Text x) = None) -> scan tg below (chars s) i = None.
Proof. intros H. destruct s; simpl; [reflexivity|]. now rewrite H. Qed.

Lemma node_at_app (n : node) (p q : path) :
  node_at n (p ++ q) = match node_at n p with
                       | Some m => node_at m q
                       | None => None
                       end.
Proof.
  revert n; induction p as [|i p IH]; intros n; cbn [app node_at]; [reflexivity|].
  destruct (nth_error (kids_of n) i); auto.
Qed.

Lemma modify_app (f : node -> node) (n m : node) (p q : path) :
  node_at n p = Some m -> modify f n (p ++ q) = modify (fun x => modify f x q) n p.
Proof.
  revert n; induction p as [|i p IH]; intros n Hn; cbn [app modify node_at] in *.
  - reflexivity.
  - destruct n as [s|tg at_ ks]; [reflexivity|]. f_equal.
    cbn [kids_of] in Hn. revert i Hn. induction ks as [|k ks IHk]; intros i Hn.
    + now destruct i.
    + destruct i as [|i]; cbn [upd_nth nth_error] in *.
      * f_equal. now apply IH.
      * f_equal. now apply IHk.
Qed.

Lemma advance_at_nonempty (closing : list rung -> list node) (n l : nat)
      (fs : list rung) (h : heading) :
  advance_at closing n l fs h <> [].
Proof. destruct l, fs; discriminate. Qed.

Lemma advance_at_length (closing : list rung -> list node) (n l : nat)
      (fs : list rung) (h : heading) :
  l <= List.length fs -> List.length (advance_at closing n l fs h) = S l.
Proof.
  revert fs; induction l as [|l IH]; intros fs Hl.
  - now destruct fs.
  - destruct fs as [|f fs]; simpl in Hl; [lia|]. cbn [advance_at List.length].
    rewrite IH; lia.
Qed.

Lemma advance_at_items (tg : string) (closing : list rung -> list node) (n : nat) :
  (forall d fs, flat_map (items_at tg d) (closing fs) = rung_items tg d fs) ->
  forall (l : nat) (fs : list rung) (h : heading) (d : nat),
    l <= List.length fs ->
    rung_items tg d (advance_at closing n l fs h) = rung_items tg d fs ++ [(d + l, Some (title h))].
Proof.
  intros Hc l. induction l as [|l IH]; intros fs h d Hl.
  - assert (E : advance_at closing n 0 fs h = [Rung (closing fs ++ [Text (indent (level h))]) h n])
      by now destruct fs.
    rewrite E. cbn [rung_items closed open_item].
    rewrite flat_map_app, Hc, Nat.add_0_r. simpl. now rewrite app_nil_r.
  - destruct fs as [|f fs]; simpl in Hl; [lia|].
    cbn [advance_at rung_items]. rewrite IH by lia.
    rewrite <- app_assoc. simpl. now rewrite Nat.add_succ_r.
Qed.

End NavGeneral.

(** *** EPUB3 *)

Section XhtmlShape.

Lemma text_item_label (h : heading) : text (item_label h) = title h.
Proof. unfold item_label. destruct (Js.truthy (href h)); simpl; apply text_chars. Qed.

Lemma items_item_label (d : nat) (h : heading) : items_at "li" d (item_label h) = [].
Proof. unfold item_label. destruct (Js.truthy (href h)); simpl; apply items_chars. Qed.

Lemma ol_nodes_items (fs : list rung) :
  forall d, flat_map (items_at "li" d) (ol_nodes fs) = rung_items "li" d fs.
Proof.
  induction fs as [|f fs IH]; intros d; [reflexivity|].
  cbn [ol_nodes flat_map rung_items]. rewrite app_nil_r.
  cbn [items_at]. change (String.eqb "ol" "li") with false. cbv iota.
  rewrite flat_map_app. f_equal. simpl flat_map at 1. rewrite app_nil_r.
  unfold li_node. cbn [items_at]. change (String.eqb "li" "li") with true. cbv iota.
  cbn [label flat_map]. now rewrite text_item_label, items_item_label, IH.
Qed.

Lemma ol_closing_items (d : nat) (fs : list rung) :
  flat_map (items_at "li" d) (ol_closing fs) = rung_items "li" d fs.
Proof.
  destruct fs as [|f fs]; [reflexivity|].
  pose proof (ol_nodes_items (f :: fs) d) as H.
  cbn [ol_nodes flat_map items_at] in H. change (String.eqb "ol" "li") with false in H.
  cbv iota in H. rewrite app_nil_r in H. exact H.
Qed.

Lemma xhtml_doc_items (fs : list rung) : items "li" (xhtml_doc fs) = rung_items "li" 0 fs.
Proof.
  unfold items, xhtml_doc, ol_top.
  pose proof (ol_nodes_items fs 0) as H.
  destruct fs as [|f fs]; [reflexivity|].
  cbn [ol_nodes] in *. cbn [flat_map] in H. rewrite app_nil_r in H.
  cbn - [String.eqb]. change (String.eqb "root" "li") with false.
  change (String.eqb "nav" "li") with false. cbv iota. cbn [flat_map app].
  rewrite !app_nil_r. exact H.
Qed.

Lemma ol_nodes_top (fs : list rung) : fs <> [] -> ol_nodes fs = [ol_top fs].
Proof. destruct fs; [congruence|reflexivity]. Qed.

Lemma ol_ref_app (fs rest : list rung) (k : nat) :
  k <= List.length fs -> ol_ref (fs ++ rest) k = ol_ref fs k.
Proof.
  revert fs; induction k as [|k IH]; intros fs Hk; [now destruct fs; destruct rest|].
  destruct fs as [|f fs]; simpl in Hk; [lia|].
  cbn [app ol_ref]. rewrite IH; [reflexivity|lia].
Qed.

Lemma ol_ref_advance (fs : list rung) (n l k : nat) (h : heading) :
  k <= l -> l <= List.length fs ->
  ol_ref (advance_at ol_closing n l fs h) k = ol_ref fs k.
Proof.
  revert fs l; induction k as [|k IH]; intros fs l Hk Hl.
  - now destruct (advance_at ol_closing n l fs h), fs.
  - destruct l as [|l]; [lia|]. destruct fs as [|f fs]; simpl in Hl; [lia|].
    cbn [advance_at ol_ref]. rewrite IH; [reflexivity|lia|lia].
Qed.

Lemma ol_ref_zero (fs : list rung) : ol_ref fs 0 = [].
Proof. now destruct fs. Qed.

Lemma ol_ref_next (fs0 rest : list rung) (f : rung) :
  ol_ref ((fs0 ++ [f]) ++ rest) (S (List.length fs0)) =
  ol_ref (fs0 ++ [f]) (List.length fs0) ++ [List.length (closed f); 1].
Proof.
  induction fs0 as [|g fs0 IH].
  - cbn [app List.length ol_ref]. now rewrite ol_ref_zero.
  - cbn [app List.length ol_ref]. cbn [app] in IH. now rewrite IH.
Qed.

(** The open [ol] of level [k] sits where [ol_ref] says. *)
Lemma node_at_ol (fs0 rest : list rung) (f : rung) :
  node_at (ol_top (fs0 ++ f :: rest)) (ol_ref (fs0 ++ f :: rest) (List.length fs0)) =
  Some (ol_top (f :: rest)).
Proof.
  induction fs0 as [|g fs0 IH]; [reflexivity|].
  cbn [app List.length ol_ref]. unfold ol_top at 1. cbn [ol_nodes node_at kids_of].
  rewrite nth_error_last. unfold li_node. cbn [kids_of nth_error].
  rewrite ol_nodes_top by (now destruct fs0). exact IH.
Qed.

(** Line 265: appending the item to the open [ol] of its level. *)
Lemma modify_ol_append (n l : nat) (fs : list rung) (h : heading) :
  l < List.length fs \/ l = 0 ->
  modify (append_kids (li_of h)) (ol_top fs) (ol_ref fs l) =
  ol_top (advance_at ol_closing n l fs h).
Proof.
  revert fs; induction l as [|l IH]; intros fs Hl.
  - assert (E : ol_ref fs 0 = []) by now destruct fs.
    rewrite E. destruct fs as [|f fs]; [reflexivity|].
    cbn [modify advance_at ol_closing]. unfold ol_top. cbn [ol_nodes closed open_item append_kids].
    unfold li_of, li_node. now rewrite <- !app_assoc.
  - destruct Hl as [Hl|Hl]; [|discriminate].
    destruct fs as [|f fs]; simpl in Hl; [lia|].
    cbn [ol_ref advance_at]. unfold ol_top. cbn [ol_nodes modify].
    rewrite upd_nth_last. unfold li_node. cbn [modify upd_nth].
    rewrite (ol_nodes_top fs) by (destruct fs; [simpl in Hl; lia|discriminate]).
    cbn [upd_nth]. rewrite IH by (left; lia).
    rewrite (ol_nodes_top (advance_at _ _ _ _ _)) by apply advance_at_nonempty.
    reflexivity.
Qed.

Lemma last_below_label (tg : string) (h : heading) : last_below tg (item_label h) = None.
Proof.
  unfold item_label. destruct (Js.truthy (href h)); cbn [last_below]; now apply scan_chars.
Qed.

(** Line 267: the last [li] below the open [ol] of the current level is
    its open item. *)
Lemma last_li (f : rung) :
  last_below "li" (ol_top [f]) = Some [List.length (closed f)].
Proof.
  unfold ol_top. cbn [ol_nodes last_below]. rewrite scan_last.
  unfold li_node at 1. cbn [last_below scan]. rewrite last_below_label.
  unfold item_label. destruct (Js.truthy (href (open_item f))); reflexivity.
Qed.

(** Line 267: the new [ol] goes into the open item. *)
Lemma modify_ol_nest (fs0 : list rung) (f : rung) (n : nat) (h : heading) :
  modify (append_kids [Elem "ol" [] (li_of h)]) (ol_top (fs0 ++ [f]))
         (ol_ref (fs0 ++ [f]) (List.length fs0) ++ [List.length (closed f)]) =
  ol_top ((fs0 ++ [f]) ++ [Rung [Text (indent (level h))] h n]).
Proof.
  induction fs0 as [|g fs0 IH].
  - cbn [app List.length ol_ref modify]. unfold ol_top. cbn [ol_nodes modify].
    rewrite upd_nth_last. reflexivity.
  - cbn [app List.length ol_ref modify]. unfold ol_top. cbn [ol_nodes modify].
    rewrite upd_nth_last. unfold li_node. cbn [modify upd_nth].
    rewrite (ol_nodes_top (fs0 ++ [f])) by (now destruct fs0).
    cbn [upd_nth]. rewrite IH.
    rewrite (ol_nodes_top ((fs0 ++ [f]) ++ _)) by (now destruct fs0).
    reflexivity.
Qed.

(** Line 268: the last [ol] below the open [ol] of the current level is the
    new one. *)
Lemma last_ol (f : rung) (n : nat) (h : heading) :
  last_below "ol" (ol_top [f; Rung [Text (indent (level h))] h n]) =
  Some [List.length (closed f); 1].
Proof.
  unfold ol_top. cbn [ol_nodes last_below]. rewrite scan_last.
  unfold li_node. cbn [last_below scan closed open_item app].
  rewrite !last_below_label.
  unfold item_label.
  destruct (Js.truthy (href h)), (Js.truthy (href (open_item f))); reflexivity.
Qed.

End XhtmlShape.

Section XhtmlRun.

Variable depth : nat.

Lemma advance_at_end (closing : list rung -> list node) (n : nat) (fs : list rung) (h : heading) :
  advance_at closing n (List.length fs) fs h =
  fs ++ [Rung (closing [] ++ [Text (indent (level h))]) h n].
Proof.
  induction fs as [|f fs IH]; [reflexivity|].
  cbn [List.length advance_at app]. now rewrite IH.
Qed.

Lemma modify_xhtml_doc (g : node -> node) (fs : list rung) (p : path) :
  modify g (xhtml_doc fs) ([1; 0] ++ p) =
  Elem "root" []
    [Text "  ";
     Elem "nav" [("epub:type", "toc")] [modify g (ol_top fs) p; Text (nl ++ "  ")%string]].
Proof. reflexivity. Qed.

Lemma node_at_xhtml_doc (fs : list rung) (p : path) :
  node_at (xhtml_doc fs) ([1; 0] ++ p) = node_at (ol_top fs) p.
Proof. reflexivity. Qed.

(** What one heading in range does to a document of the expected shape. *)
Lemma xhtml_visit_shape (st : xhtml_state) (fs : list rung) (h : heading) :
  xhtml_shape st fs -> in_range depth h = true ->
  match open_level fs (x_currentLevel st) with
  | None => level h = 0
  | Some c => level h <= c + 1
  end ->
  exists st',
    xhtml_step depth st h = Some st' /\
    xhtml_shape st' (advance_at ol_closing 0 (level h) fs h) /\
    x_currentLevel st' = level h.
Proof.
  intros [Hroot Hlev Hslots] Hin Hnest.
  unfold xhtml_step. unfold in_range in Hin. rewrite Hin.
  destruct (Nat.leb (level h) (x_currentLevel st)) eqn:Hle.
  - apply Nat.leb_le in Hle.
    assert (Hl : level h < List.length fs \/ level h = 0).
    { destruct fs; [right; lia|left; lia]. }
    assert (Hl' : level h <= List.length fs) by (destruct Hl; lia).
    rewrite (Hslots _ Hle). eexists; split; [reflexivity|]. split; [|reflexivity].
    constructor; cbn [x_root ol x_currentLevel].
    + unfold append. rewrite Hroot, modify_xhtml_doc.
      now rewrite (modify_ol_append 0) by assumption.
    + pose proof (advance_at_length ol_closing 0 (level h) fs h Hl') as E.
      destruct (advance_at ol_closing 0 (level h) fs h); [discriminate|exact E].
    + intros k Hk. rewrite (Hslots k) by lia.
      now rewrite ol_ref_advance by assumption.
  - apply Nat.leb_gt in Hle.
    destruct fs as [|f0 fs1]; [simpl in Hnest; lia|].
    destruct (exists_last (l := f0 :: fs1)) as (fs0 & f & E); [discriminate|].
    rewrite E in *. clear E.
    assert (Hc : x_currentLevel st = List.length fs0).
    { destruct (fs0 ++ [f]) eqn:E'; [now destruct fs0|].
      rewrite <- E', length_app in Hlev. simpl in Hlev. lia. }
    assert (Hh : level h = S (List.length fs0)).
    { destruct (fs0 ++ [f]); simpl in Hnest; lia. }
    rewrite (Hslots _ (Nat.le_refl _)), Hc, Hroot.
    assert (Hli : find_last "li" (xhtml_doc (fs0 ++ [f]))
                            (Some ([1; 0] ++ ol_ref (fs0 ++ [f]) (List.length fs0))) =
                  Some (([1; 0] ++ ol_ref (fs0 ++ [f]) (List.length fs0)) ++
                        [List.length (closed f)])).
    { unfold find_last. rewrite node_at_xhtml_doc, node_at_ol, last_li. reflexivity. }
    rewrite Hli. unfold append at 1 2.
    rewrite <- app_assoc, modify_xhtml_doc, (modify_ol_nest fs0 f 0 h).
    change (Elem "root" [] _) with
      (xhtml_doc ((fs0 ++ [f]) ++ [Rung [Text (indent (level h))] h 0])).
    assert (Hol : find_last "ol" (xhtml_doc ((fs0 ++ [f]) ++ [Rung [Text (indent (level h))] h 0]))
                            (Some ([1; 0] ++ ol_ref (fs0 ++ [f]) (List.length fs0))) =
                  Some ([1; 0] ++ ol_ref ((fs0 ++ [f]) ++ [Rung [Text (indent (level h))] h 0])
                                         (S (List.length fs0)))).
    { unfold find_last. rewrite node_at_xhtml_doc.
      rewrite <- (ol_ref_app (fs0 ++ [f]) [Rung [Text (indent (level h))] h 0])
        by (rewrite length_app; simpl; lia).
      assert (En : node_at (ol_top ((fs0 ++ [f]) ++ [Rung [Text (indent (level h))] h 0]))
                           (ol_ref ((fs0 ++ [f]) ++ [Rung [Text (indent (level h))] h 0])
                                   (List.length fs0)) =
                   Some (ol_top [f; Rung [Text (indent (level h))] h 0])).
      { rewrite <- app_assoc. apply node_at_ol. }
      rewrite En, last_ol, ol_ref_next.
      rewrite (ol_ref_app (fs0 ++ [f])) by (rewrite length_app; simpl; lia).
      now rewrite <- !app_assoc. }
    rewrite Hol. eexists; split; [reflexivity|]. split; [|reflexivity].
    assert (Ea : advance_at ol_closing 0 (level h) (fs0 ++ [f]) h =
                 (fs0 ++ [f]) ++ [Rung [Text (indent (level h))] h 0]).
    { change ((fs0 ++ [f]) ++ [Rung [Text (indent (level h))] h 0]) with
        ((fs0 ++ [f]) ++ [Rung (ol_closing [] ++ [Text (indent (level h))]) h 0]).
      rewrite <- (advance_at_end ol_closing 0 (fs0 ++ [f]) h). f_equal.
      rewrite Hh, length_app. simpl. lia. }
    rewrite Ea. constructor; cbn [x_root ol x_currentLevel].
    + reflexivity.
    + destruct ((fs0 ++ [f]) ++ _) eqn:E'; [now destruct fs0|].
      rewrite <- E', !length_app. simpl. lia.
    + intros k Hk. unfold assign. destruct (Nat.eqb k (level h)) eqn:Ek.
      * apply Nat.eqb_eq in Ek. subst k. now rewrite Hh.
      * apply Nat.eqb_neq in Ek. rewrite (Hslots k) by lia.
        rewrite (ol_ref_app (fs0 ++ [f])); [reflexivity|]. rewrite length_app. simpl. lia.
Qed.

Lemma xhtml_all_shape (hs : list heading) :
  forall (st : xhtml_state) (fs : list rung),
    xhtml_shape st fs ->
    well_nested depth (open_level fs (x_currentLevel st)) hs ->
    exists st' fs',
      xhtml_steps depth st hs = Some st' /\
      xhtml_shape st' fs' /\
      rung_items "li" 0 fs' =
      rung_items "li" 0 fs ++ map labelled (filter (in_range depth) hs).
Proof.
  induction hs as [|h hs IH]; intros st fs Hs Hn; cbn [xhtml_steps well_nested filter] in *.
  - exists st, fs. rewrite app_nil_r. auto.
  - destruct (in_range depth h) eqn:Hin.
    + destruct Hn as [Hl Hn].
      destruct (xhtml_visit_shape st fs h Hs Hin Hl) as (st1 & Hv & Hs1 & Hc1).
      rewrite Hv.
      assert (Hl' : level h <= List.length fs).
      { destruct Hs as [_ Hlev _]. destruct fs; simpl in *; lia. }
      destruct (IH st1 _ Hs1) as (st' & fs' & Ha & Hs' & Hi).
      { rewrite Hc1. unfold open_level.
        destruct (advance_at ol_closing 0 (level h) fs h) eqn:E; [|exact Hn].
        now apply advance_at_nonempty in E. }
      exists st', fs'. split; [exact Ha|]. split; [exact Hs'|].
      rewrite Hi, (advance_at_items "li" ol_closing 0 ol_closing_items) by assumption.
      rewrite <- app_assoc. reflexivity.
    + unfold xhtml_step. unfold in_range in Hin. rewrite Hin. now apply IH.
Qed.

Lemma xhtml_all_app (hs1 hs2 : list heading) (st : xhtml_state) :
  xhtml_steps depth st (hs1 ++ hs2) =
  match xhtml_steps depth st hs1 with
  | Some st' => xhtml_steps depth st' hs2
  | None => None
  end.
Proof.
  revert st; induction hs1 as [|h hs1 IH]; intros st; cbn [xhtml_steps app]; [reflexivity|].
  destruct (xhtml_step depth st h); auto.
Qed.

Lemma xhtml_pages_stream (pages : list page) (st : xhtml_state) :
  xhtml_page_steps depth st pages = xhtml_steps depth st (stream pages).
Proof.
  revert st; induction pages as [|pg pages IH]; intros st; [reflexivity|].
  unfold stream. cbn [xhtml_page_steps flat_map]. rewrite xhtml_all_app.
  destruct (xhtml_steps depth st (headings pg)); auto.
Qed.

Lemma xhtml_init_shape : xhtml_shape xhtml_init [].
Proof.
  constructor; [reflexivity|reflexivity|].
  intros k Hk. simpl in Hk. now replace k with 0 by lia.
Qed.

(** On well-nested headings the EPUB3 document lists the headings in range,
    each at the depth of its level. *)
Lemma buildToC_xhtml_nested (pages : list page) :
  well_nested depth None (stream pages) ->
  exists dx, xhtml_as_written pages depth = Some dx /\
             items "li" dx = map labelled (filter (in_range depth) (stream pages)).
Proof.
  intros Hn. unfold xhtml_as_written. rewrite xhtml_pages_stream.
  destruct (xhtml_all_shape (stream pages) xhtml_init [] xhtml_init_shape Hn)
    as (st' & fs' & -> & [Hroot _ _] & Hi).
  exists (x_root st'). split; [reflexivity|].
  now rewrite Hroot, xhtml_doc_items, Hi.
Qed.

End XhtmlRun.

(** *** EPUB2 *)

Section NcxShape.

Lemma items_point_kids (d : nat) (h : heading) :
  flat_map (items_at "navPoint" d) (point_kids h) = [].
Proof.
  unfold point_kids. cbn - [String.eqb chars].
  change (String.eqb "navLabel" "navPoint") with false.
  change (String.eqb "text" "navPoint") with false.
  change (String.eqb "content" "navPoint") with false. cbv iota.
  cbn [flat_map app]. now rewrite items_chars.
Qed.

Lemma label_point_kids (h : heading) (rest : list node) :
  label (point_kids h ++ rest) = title h.
Proof.
  unfold point_kids. cbn [app label text map join fold_right].
  now rewrite text_chars, !string_app_nil_r.
Qed.

Lemma nav_tail_items (fs : list rung) :
  forall d, flat_map (items_at "navPoint" d) (nav_tail fs) = rung_items "navPoint" d fs.
Proof.
  induction fs as [|f fs IH]; intros d; [reflexivity|].
  cbn [nav_tail rung_items]. rewrite flat_map_app. f_equal.
  cbn [flat_map items_at]. change (String.eqb "navPoint" "navPoint") with true. cbv iota.
  now rewrite label_point_kids, flat_map_app, items_point_kids, IH, app_nil_r.
Qed.

Lemma ncx_doc_items (fs : list rung) : items "navPoint" (ncx_doc fs) = rung_items "navPoint" 0 fs.
Proof.
  unfold items, ncx_doc. cbn [items_at flat_map].
  change (String.eqb "root" "navPoint") with false.
  change (String.eqb "navMap" "navPoint") with false. cbv iota.
  cbn [flat_map]. now rewrite !app_nil_r, nav_tail_items.
Qed.

Lemma nav_ref_zero (b : nat) (fs : list rung) : nav_ref b fs 0 = [].
Proof. now destruct fs. Qed.

Lemma nav_ref_app (fs rest : list rung) (k : nat) :
  forall b, k <= List.length fs -> nav_ref b (fs ++ rest) k = nav_ref b fs k.
Proof.
  revert fs; induction k as [|k IH]; intros fs b Hk; [now rewrite !nav_ref_zero|].
  destruct fs as [|f fs]; simpl in Hk; [lia|].
  cbn [app nav_ref]. rewrite IH; [reflexivity|lia].
Qed.

Lemma nav_ref_advance (fs : list rung) (n l k : nat) (h : heading) :
  forall b, k <= l -> l <= List.length fs ->
            nav_ref b (advance_at nav_tail n l fs h) k = nav_ref b fs k.
Proof.
  revert fs l; induction k as [|k IH]; intros fs l b Hk Hl; [now rewrite !nav_ref_zero|].
  destruct l as [|l]; [lia|]. destruct fs as [|f fs]; simpl in Hl; [lia|].
  cbn [advance_at nav_ref]. rewrite IH; [reflexivity|lia|lia].
Qed.

Lemma nth_error_middle (A : Type) (front : list A) (x : A) (back : list A) :
  nth_error (front ++ x :: back) (List.length front) = Some x.
Proof. induction front; simpl; auto. Qed.

Lemma upd_nth_middle (A : Type) (g : A -> A) (front : list A) (x : A) (back : list A) :
  upd_nth (List.length front) g (front ++ x :: back) = front ++ g x :: back.
Proof. induction front as [|y front IH]; simpl; [reflexivity|]. now rewrite IH. Qed.

(** Lines 233 and 236: appending the point to the container of its
    level, the open point included. *)
Lemma modify_nav_append (n l : nat) (h : heading) :
  forall (fs : list rung) (tg : string) (at_ : list (string * string)) (base : list node),
    l <= List.length fs ->
    modify (append_kids (point_of n h)) (Elem tg at_ (base ++ nav_tail fs))
           (nav_ref (List.length base) fs l) =
    Elem tg at_ (base ++ nav_tail (advance_at nav_tail n l fs h)).
Proof.
  induction l as [|l IH]; intros fs tg at_ base Hl.
  - rewrite nav_ref_zero.
    assert (E : advance_at nav_tail n 0 fs h = [Rung (nav_tail fs ++ [Text (indent (level h))]) h n])
      by now destruct fs.
    rewrite E. cbn [modify append_kids nav_tail closed open_item order].
    unfold point_of. rewrite app_nil_r, <- !app_assoc. reflexivity.
  - destruct fs as [|f fs]; simpl in Hl; [lia|].
    cbn [nav_ref advance_at nav_tail modify].
    rewrite !app_assoc, <- length_app, upd_nth_last.
    change 2 with (List.length (point_kids (open_item f))).
    rewrite IH by lia. reflexivity.
Qed.

Lemma find_last_cons (tg : string) (n k : node) (i : nat) (p : path) :
  nth_error (kids_of n) i = Some k ->
  find_last tg n (Some (i :: p)) = option_map (cons i) (find_last tg k (Some p)).
Proof.
  intros Hk. unfold find_last. cbn [node_at]. rewrite Hk.
  destruct (node_at k p) as [m|]; [|reflexivity].
  now destruct (last_below tg m).
Qed.

Lemma last_below_point_kids (h : heading) (i : nat) :
  scan "navPoint" (last_below "navPoint") (point_kids h) i = None.
Proof.
  unfold point_kids. cbn [scan last_below is_elem].
  rewrite scan_chars by reflexivity. reflexivity.
Qed.

(** Line 235: the last [navPoint] below the container of the current level
    is its open point. *)
Lemma find_last_point (fs0 : list rung) (f : rung) :
  forall (tg : string) (at_ : list (string * string)) (base : list node),
    find_last "navPoint" (Elem tg at_ (base ++ nav_tail (fs0 ++ [f])))
              (Some (nav_ref (List.length base) (fs0 ++ [f]) (List.length fs0))) =
    Some (nav_ref (List.length base) (fs0 ++ [f]) (S (List.length fs0))).
Proof.
  induction fs0 as [|g fs0 IH]; intros tg at_ base.
  - cbn [app List.length nav_ref nav_tail]. unfold find_last. cbn [node_at last_below].
    rewrite app_assoc, scan_last. cbn [last_below]. rewrite app_nil_r, last_below_point_kids.
    cbn [is_elem]. change (String.eqb "navPoint" "navPoint") with true. cbv iota.
    rewrite length_app. reflexivity.
  - cbn [app List.length nav_ref nav_tail].
    erewrite find_last_cons.
    2:{ cbn [kids_of]. rewrite app_assoc, <- length_app. apply nth_error_last. }
    change 2 with (List.length (point_kids (open_item g))).
    rewrite IH. reflexivity.
Qed.

End NcxShape.

Section NcxRun.

Variable depth : nat.

Lemma modify_ncx_doc (g : node -> node) (fs : list rung) (p : path) :
  modify g (ncx_doc fs) ([0] ++ p) =
  Elem "root" [] [modify g (Elem "navMap" [] (nav_tail fs)) p].
Proof. reflexivity. Qed.

(** What one heading in range does to a document of the expected shape. *)
Lemma ncx_visit_shape (st : ncx_state) (fs : list rung) (h : heading) :
  ncx_shape st fs -> in_range depth h = true ->
  match open_level fs (n_currentLevel st) with
  | None => level h = 0
  | Some c => level h <= c + 1
  end ->
  exists st',
    ncx_step depth st h = Some st' /\
    ncx_shape st' (advance_at nav_tail (playOrder st) (level h) fs h) /\
    n_currentLevel st' = level h.
Proof.
  intros [Hroot Hlev Hslots] Hin Hnest.
  assert (Hl : level h <= List.length fs).
  { destruct fs; simpl in *; lia. }
  assert (Hshape : forall nav',
             (forall k, k <= level h -> nav' k = Some (Some ([0] ++ nav_ref 0 fs k))) ->
             ncx_shape (NcxState (modify (append_kids (point_of (playOrder st) h)) (n_root st)
                                         ([0] ++ nav_ref 0 fs (level h)))
                                 nav' (level h) (S (playOrder st)))
                       (advance_at nav_tail (playOrder st) (level h) fs h)).
  { intros nav' Hnav. constructor; cbn [n_root nav n_currentLevel].
    - rewrite Hroot, modify_ncx_doc.
      pose proof (modify_nav_append (playOrder st) (level h) h fs "navMap" [] [] Hl) as Hm.
      cbn [List.length app] in Hm. now rewrite Hm.
    - pose proof (advance_at_length nav_tail (playOrder st) (level h) fs h Hl) as E.
      destruct (advance_at nav_tail (playOrder st) (level h) fs h); [discriminate|exact E].
    - intros k Hk. rewrite (Hnav k Hk). now rewrite nav_ref_advance by assumption. }
  unfold ncx_step. unfold in_range in Hin. rewrite Hin.
  destruct (Nat.leb (level h) (n_currentLevel st)) eqn:Hle.
  - apply Nat.leb_le in Hle. rewrite (Hslots _ Hle).
    eexists; split; [reflexivity|]. split; [|reflexivity].
    apply Hshape. intros k Hk. apply Hslots. lia.
  - apply Nat.leb_gt in Hle.
    destruct fs as [|f0 fs1]; [simpl in Hnest; lia|].
    destruct (exists_last (l := f0 :: fs1)) as (fs0 & f & E); [discriminate|].
    rewrite E in *. clear E.
    assert (Hc : n_currentLevel st = List.length fs0).
    { destruct (fs0 ++ [f]) eqn:E'; [now destruct fs0|].
      rewrite <- E', length_app in Hlev. simpl in Hlev. lia. }
    assert (Hh : level h = S (List.length fs0)).
    { destruct (fs0 ++ [f]); simpl in Hnest; lia. }
    rewrite (Hslots _ (Nat.le_refl _)), Hc, Hroot.
    assert (Hlast : find_last "navPoint" (ncx_doc (fs0 ++ [f]))
                              (Some ([0] ++ nav_ref 0 (fs0 ++ [f]) (List.length fs0))) =
                    Some ([0] ++ nav_ref 0 (fs0 ++ [f]) (level h))).
    { cbn [app]. erewrite find_last_cons by reflexivity.
      pose proof (find_last_point fs0 f "navMap" [] []) as Hf.
      cbn [List.length app] in Hf. rewrite Hf, Hh. reflexivity. }
    rewrite Hlast. eexists; split; [reflexivity|]. split; [|reflexivity].
    unfold append. rewrite <- Hroot. apply Hshape.
    intros k Hk. unfold assign. destruct (Nat.eqb k (level h)) eqn:Ek.
    + apply Nat.eqb_eq in Ek. now subst k.
    + apply Nat.eqb_neq in Ek. apply Hslots. lia.
Qed.

Lemma ncx_all_shape (hs : list heading) :
  forall (st : ncx_state) (fs : list rung),
    ncx_shape st fs ->
    well_nested depth (open_level fs (n_currentLevel st)) hs ->
    exists st' fs',
      ncx_steps depth st hs = Some st' /\
      ncx_shape st' fs' /\
      rung_items "navPoint" 0 fs' =
      rung_items "navPoint" 0 fs ++ map labelled (filter (in_range depth) hs).
Proof.
  induction hs as [|h hs IH]; intros st fs Hs Hn; cbn [ncx_steps well_nested filter] in *.
  - exists st, fs. rewrite app_nil_r. auto.
  - destruct (in_range depth h) eqn:Hin.
    + destruct Hn as [Hl Hn].
      destruct (ncx_visit_shape st fs h Hs Hin Hl) as (st1 & Hv & Hs1 & Hc1).
      rewrite Hv.
      assert (Hl' : level h <= List.length fs).
      { destruct Hs as [_ Hlev _]. destruct fs; simpl in *; lia. }
      destruct (IH st1 _ Hs1) as (st' & fs' & Ha & Hs' & Hi).
      { rewrite Hc1. unfold open_level.
        destruct (advance_at nav_tail (playOrder st) (level h) fs h) eqn:E; [|exact Hn].
        now apply advance_at_nonempty in E. }
      exists st', fs'. split; [exact Ha|]. split; [exact Hs'|].
      rewrite Hi, (advance_at_items "navPoint" nav_tail (playOrder st) (fun d fs => nav_tail_items fs d))
        by assumption.
      rewrite <- app_assoc. reflexivity.
    + unfold ncx_step. unfold in_range in Hin. rewrite Hin. now apply IH.
Qed.

Lemma ncx_all_app (hs1 hs2 : list heading) (st : ncx_state) :
  ncx_steps depth st (hs1 ++ hs2) =
  match ncx_steps depth st hs1 with
  | Some st' => ncx_steps depth st' hs2
  | None => None
  end.
Proof.
  revert st; induction hs1 as [|h hs1 IH]; intros st; cbn [ncx_steps app]; [reflexivity|].
  destruct (ncx_step depth st h); auto.
Qed.

Lemma ncx_pages_stream (pages : list page) (st : ncx_state) :
  ncx_page_steps depth st pages = ncx_steps depth st (stream pages).
Proof.
  revert st; induction pages as [|pg pages IH]; intros st; [reflexivity|].
  unfold stream. cbn [ncx_page_steps flat_map]. rewrite ncx_all_app.
  destruct (ncx_steps depth st (headings pg)); auto.
Qed.

Lemma ncx_init_shape : ncx_shape ncx_init [].
Proof.
  constructor; [reflexivity|reflexivity|].
  intros k Hk. simpl in Hk. now replace k with 0 by lia.
Qed.

(** On well-nested headings the EPUB2 document lists the headings in range,
    each at the depth of its level. *)
Lemma buildToC_ncx_nested (pages : list page) :
  well_nested depth None (stream pages) ->
  exists dn, ncx_as_written pages depth = Some dn /\
             items "navPoint" dn = map labelled (filter (in_range depth) (stream pages)).
Proof.
  intros Hn. unfold ncx_as_written. rewrite ncx_pages_stream.
  destruct (ncx_all_shape (stream pages) ncx_init [] ncx_init_shape Hn)
    as (st' & fs' & -> & [Hroot _ _] & Hi).
  exists (n_root st'). split; [reflexivity|].
  now rewrite Hroot, ncx_doc_items, Hi.
Qed.

End NcxRun.

(** ** The navigation builders and the reading of their markup *)

Section NavReading.

Variable parse : string -> list node.
Variable depth : nat.

Lemma xhtml_run_app (hs1 hs2 : list heading) (st : xhtml_state) :
  xhtml_all parse depth st (hs1 ++ hs2) =
  match xhtml_all parse depth st hs1 with
  | Some st' => xhtml_all parse depth st' hs2
  | None => None
  end.
Proof.
  revert st; induction hs1 as [|h hs1 IH]; intros st; cbn [xhtml_all app]; [reflexivity|].
  destruct (xhtml_visit parse depth st h); auto.
Qed.

Lemma xhtml_run_stream (pages : list page) (st : xhtml_state) :
  xhtml_pages parse depth st pages = xhtml_all parse depth st (stream pages).
Proof.
  revert st; induction pages as [|pg pages IH]; intros st; [reflexivity|].
  unfold stream. cbn [xhtml_pages flat_map]. rewrite xhtml_run_app.
  destruct (xhtml_all parse depth st (headings pg)); auto.
Qed.

Lemma ncx_run_app (hs1 hs2 : list heading) (st : ncx_state) :
  ncx_all parse depth st (hs1 ++ hs2) =
  match ncx_all parse depth st hs1 with
  | Some st' => ncx_all parse depth st' hs2
  | None => None
  end.
Proof.
  revert st; induction hs1 as [|h hs1 IH]; intros st; cbn [ncx_all app]; [reflexivity|].
  destruct (ncx_visit parse depth st h); auto.
Qed.

Lemma ncx_run_stream (pages : list page) (st : ncx_state) :
  ncx_pages parse depth st pages = ncx_all parse depth st (stream pages).
Proof.
  revert st; induction pages as [|pg pages IH]; intros st; [reflexivity|].
  unfold stream. cbn [ncx_pages flat_map]. rewrite ncx_run_app.
  destruct (ncx_all parse depth st (headings pg)); auto.
Qed.

Lemma xhtml_run_in_range (hs : list heading) :
  forall st, xhtml_all parse depth st (filter (in_range depth) hs) = xhtml_all parse depth st hs.
Proof.
  induction hs as [|h hs IH]; intros st; cbn [filter xhtml_all]; [reflexivity|].
  destruct (in_range depth h) eqn:E; cbn [xhtml_all].
  - destruct (xhtml_visit parse depth st h); auto.
  - unfold xhtml_visit. unfold in_range in E. rewrite E. apply IH.
Qed.

Lemma ncx_run_in_range (hs : list heading) :
  forall st, ncx_all parse depth st (filter (in_range depth) hs) = ncx_all parse depth st hs.
Proof.
  induction hs as [|h hs IH]; intros st; cbn [filter ncx_all]; [reflexivity|].
  destruct (in_range depth h) eqn:E; cbn [ncx_all].
  - destruct (ncx_visit parse depth st h); auto.
  - unfold ncx_visit. unfold in_range in E. rewrite E. apply IH.
Qed.

(** A heading whose markup is read as written is visited as written. *)
Lemma xhtml_visit_written (st : xhtml_state) (h : heading) :
  (in_range depth h = true -> reads_item parse h) ->
  xhtml_visit parse depth st h = xhtml_step depth st h.
Proof.
  intros Hr. unfold xhtml_visit, xhtml_step. unfold in_range in Hr.
  destruct (level h <? depth); [|reflexivity].
  destruct (Hr eq_refl) as [E1 E2]. cbv zeta. now rewrite E1, E2.
Qed.

Lemma xhtml_all_written (hs : list heading) :
  Forall (reads_item parse) (filter (in_range depth) hs) ->
  forall st, xhtml_all parse depth st hs = xhtml_steps depth st hs.
Proof.
  induction hs as [|h hs IH]; intros Hr st; [reflexivity|].
  cbn [xhtml_all xhtml_steps filter] in *. rewrite xhtml_visit_written.
  - destruct (xhtml_step depth st h); [|reflexivity]. apply IH.
    destruct (in_range depth h); [now inversion Hr|exact Hr].
  - intros E. rewrite E in Hr. now inversion Hr.
Qed.

Lemma ncx_visit_written (st : ncx_state) (h : heading) :
  (in_range depth h = true -> reads_point parse (playOrder st) h) ->
  ncx_visit parse depth st h = ncx_step depth st h.
Proof.
  intros Hr. unfold ncx_visit, ncx_step. unfold in_range in Hr.
  destruct (level h <? depth); [|reflexivity].
  cbv zeta. now rewrite (Hr eq_refl).
Qed.

Lemma ncx_step_order (st st' : ncx_state) (h : heading) :
  ncx_step depth st h = Some st' ->
  playOrder st' = if in_range depth h then S (playOrder st) else playOrder st.
Proof.
  unfold ncx_step, in_range. intros H. destruct (level h <? depth).
  - destruct (level h <=? n_currentLevel st).
    + destruct (nav st (level h)); inversion H; reflexivity.
    + destruct (nav st (n_currentLevel st)); inversion H; reflexivity.
  - now inversion H.
Qed.

Lemma ncx_all_written (hs : list heading) :
  forall st,
    reads_points parse (playOrder st) (filter (in_range depth) hs) ->
    ncx_all parse depth st hs = ncx_steps depth st hs.
Proof.
  induction hs as [|h hs IH]; intros st Hr; [reflexivity|].
  cbn [ncx_all ncx_steps filter] in *. rewrite ncx_visit_written.
  - destruct (ncx_step depth st h) as [st'|] eqn:E; [|reflexivity]. apply IH.
    rewrite (ncx_step_order st st' h E).
    destruct (in_range depth h); [exact (proj2 Hr)|exact Hr].
  - intros E. rewrite E in Hr. exact (proj1 Hr).
Qed.

Lemma buildToC_xhtml_written (pages : list page) :
  Forall (reads_item parse) (filter (in_range depth) (stream pages)) ->
  buildToC_xhtml parse pages depth = xhtml_as_written pages depth.
Proof.
  intros Hr. unfold buildToC_xhtml, xhtml_as_written.
  now rewrite xhtml_run_stream, xhtml_pages_stream, xhtml_all_written.
Qed.

Lemma buildToC_ncx_written (pages : list page) :
  reads_points parse 1 (filter (in_range depth) (stream pages)) ->
  buildToC_ncx parse pages depth = ncx_as_written pages depth.
Proof.
  intros Hr. unfold buildToC_ncx, ncx_as_written.
  now rewrite ncx_run_stream, ncx_pages_stream, ncx_all_written.
Qed.

End NavReading.

(** ** The renderers side by side *)

Section SideBySide.

Variable depth : nat.

Lemma fold_add_line (hs : list heading) (txt : string) :
  fold_left (add_line depth) hs txt =
  fold_left (fun txt l => (txt ++ (indent (fst l) ++ snd l))%string)
            (map (fun h => (level h, title h)) (filter (in_range depth) hs)) txt.
Proof.
  revert txt; induction hs as [|h hs IH]; intros txt; cbn [fold_left filter]; [reflexivity|].
  unfold add_line at 2. unfold in_range. destruct (level h <? depth); cbn [map fold_left]; apply IH.
Qed.

Lemma fold_add_page (pages : list page) (txt : string) :
  fold_left (add_page depth) pages txt = fold_left (add_line depth) (stream pages) txt.
Proof.
  revert txt; induction pages as [|pg pages IH]; intros txt; [reflexivity|].
  unfold stream. cbn [fold_left flat_map]. rewrite fold_left_app. apply IH.
Qed.

(** The text is the rendering of its lines. *)
Lemma buildToC_txt_lines (pages : list page) :
  buildToC_txt pages depth = render_lines (lines pages depth).
Proof.
  unfold buildToC_txt, render_lines, lines. now rewrite fold_add_page, fold_add_line.
Qed.

Lemma expected_well_nested (strict : bool) (hs : list heading) :
  forall (started : bool) (cur : nat),
    well_nested depth (if started then Some cur else None) hs ->
    expected strict depth started cur hs = Some (map labelled (filter (in_range depth) hs)).
Proof.
  induction hs as [|h hs IH]; intros started cur Hn; cbn [expected well_nested filter] in *;
    [reflexivity|].
  destruct (in_range depth h); [|now apply IH].
  destruct Hn as [Hl Hn].
  assert (E1 : (level h =? cur + 1) && negb started = false).
  { destruct started; [apply andb_false_r|]. rewrite Hl, Nat.add_1_r. reflexivity. }
  assert (E2 : (cur + 1 <? level h) = false).
  { apply Nat.ltb_ge. destruct started; lia. }
  rewrite E1, E2. cbn [andb app].
  rewrite (IH true (level h) Hn). reflexivity.
Qed.

Lemma string_app_assoc (a b c : string) : ((a ++ b) ++ c)%string = (a ++ (b ++ c))%string.
Proof. induction a as [|x a IH]; simpl; congruence. Qed.

Lemma string_length_app (a b : string) :
  String.length (a ++ b) = String.length a + String.length b.
Proof. induction a as [|x a IH]; simpl; congruence. Qed.

Lemma spaces_blanks (level : nat) :
  forall txt, spaces level txt = (txt ++ blanks (2 * level))%string.
Proof.
  induction level as [|n IH]; intros txt; cbn [spaces].
  - simpl. now rewrite string_app_nil_r.
  - rewrite IH. replace (2 * S n) with (S (S (2 * n))) by lia. cbn [blanks].
    rewrite string_app_assoc. reflexivity.
Qed.

Lemma blanks_length (n : nat) : String.length (blanks n) = n.
Proof. induction n; simpl; congruence. Qed.

Lemma indent_blanks (n : nat) : indent n = (nl ++ blanks (4 + 2 * n))%string.
Proof.
  unfold indent. rewrite spaces_blanks. rewrite string_app_assoc. reflexivity.
Qed.

Lemma segments_line (a r : string) :
  no_break a = true -> segments (a ++ nl ++ r) = a :: segments r.
Proof.
  induction a as [|c a IH]; intros H; [reflexivity|].
  cbn [no_break] in H. apply andb_true_iff in H. destruct H as [Hc Ha].
  change (String c a ++ nl ++ r)%string with (String c (a ++ nl ++ r)).
  cbn [segments]. apply negb_true_iff in Hc. rewrite Hc. now rewrite IH.
Qed.

Lemma no_break_app (a b : string) : no_break (a ++ b) = no_break a && no_break b.
Proof.
  induction a as [|c a IH]; [reflexivity|]. cbn. rewrite IH. apply andb_assoc.
Qed.

Lemma no_break_blanks (n : nat) : no_break (blanks n) = true.
Proof. induction n; [reflexivity|]. cbn [blanks no_break]. exact IHn. Qed.

Lemma indentation_blanks (n : nat) (t : string) :
  indentation t = 0 -> indentation (blanks n ++ t) = n.
Proof.
  intros H. induction n as [|n IH]; [exact H|]. cbn. now rewrite IH.
Qed.

Lemma unindented_blanks (n : nat) (t : string) :
  indentation t = 0 -> unindented (blanks n ++ t) = t.
Proof.
  intros H. induction n as [|n IH]; [|exact IH].
  cbn. destruct t as [|c t]; [reflexivity|]. cbn in *. now destruct (is_blank c).
Qed.

Lemma read_line_of (l : nat * string) :
  plain_title (snd l) = true -> read_line (line_of l) = (fst l, Some (snd l)).
Proof.
  unfold plain_title. intros H. apply andb_true_iff in H. destruct H as [_ H].
  apply Nat.eqb_eq in H. unfold read_line, line_of.
  rewrite indentation_blanks, unindented_blanks by exact H.
  f_equal. replace (4 + 2 * fst l - 4) with (fst l * 2) by lia. apply Nat.div_mul. discriminate.
Qed.

Lemma fold_lines (ls : list (nat * string)) :
  forall txt,
    fold_left (fun txt l => (txt ++ (indent (fst l) ++ snd l))%string) ls txt =
    (txt ++ fold_right (fun l rest => (nl ++ line_of l ++ rest)%string) "" ls)%string.
Proof.
  induction ls as [|l ls IH]; intros txt; cbn [fold_left fold_right].
  - now rewrite string_app_nil_r.
  - rewrite IH, indent_blanks. unfold line_of. now rewrite !string_app_assoc.
Qed.

Lemma segments_lines (ls : list (nat * string)) :
  Forall (fun l => plain_title (snd l) = true) ls ->
  forall l,
    plain_title (snd l) = true ->
    segments (line_of l ++ fold_right (fun l rest => (nl ++ line_of l ++ rest)%string) "" ls ++ nl)
    = line_of l :: map line_of ls ++ [""].
Proof.
  assert (Hb : forall l, plain_title (snd l) = true -> no_break (line_of l) = true).
  { intros l H. unfold plain_title in H. apply andb_true_iff in H.
    unfold line_of. now rewrite no_break_app, no_break_blanks, (proj1 H). }
  induction 1 as [|l' ls Hl' Hls IH]; intros l Hl; cbn [fold_right map app].
  - change ("" ++ nl)%string with (nl ++ "")%string. now rewrite segments_line by auto.
  - rewrite !string_app_assoc. rewrite segments_line by auto. f_equal.
    now apply IH.
Qed.

Lemma read_txt_render (ls : list (nat * string)) :
  Forall (fun l => plain_title (snd l) = true) ls ->
  read_txt (render_lines ls) = map (fun l => (fst l, Some (snd l))) ls.
Proof.
  intros Hl. unfold read_txt, render_lines. rewrite fold_lines. cbn [String.append].
  destruct Hl as [|l ls Hl Hls]; [reflexivity|].
  cbn [fold_right]. rewrite !string_app_assoc.
  change (nl ++ line_of l ++
          fold_right (fun l0 rest => nl ++ line_of l0 ++ rest) "" ls ++ nl)%string
    with (String (ascii_of_nat 10)
            (line_of l ++
             fold_right (fun l0 rest => nl ++ line_of l0 ++ rest) "" ls ++ nl))%string.
  change (segments (String (ascii_of_nat 10) ?x)) with (EmptyString :: segments x).
  cbn [tl]. rewrite (segments_lines ls Hls l Hl).
  rewrite app_comm_cons, removelast_last. cbn [map]. rewrite (read_line_of l Hl). f_equal.
  induction Hls as [|l' ls Hl' Hls IH]; [reflexivity|].
  cbn [map]. now rewrite (read_line_of l' Hl'), IH.
Qed.

(** The text is read back as the headings in range, each at the depth of
    its level. *)
Lemma read_txt_lines (pages : list page) :
  Forall (fun h => plain_title (title h) = true) (filter (in_range depth) (stream pages)) ->
  read_txt (buildToC_txt pages depth) = map labelled (filter (in_range depth) (stream pages)).
Proof.
  intros Hp. rewrite buildToC_txt_lines, read_txt_render.
  - unfold lines. now rewrite map_map.
  - unfold lines. apply Forall_map. exact Hp.
Qed.

End SideBySide.

(** C2, as the program has it.  Take headings of which the first in range
    has level 0 and none in range is more than one level below the heading in
    range before it, whose titles can be read back from a line of the text
    (no line break in them, no space at their start), and whose items and
    points the parser reads as the markup was written.  Then the tree orders
    read off the text, the nested structural form, the EPUB3 list and the
    EPUB2 map are the same entries at the same depths in the same order,
    namely the headings in range each at the depth of its level.  (On other
    inputs every renderer goes its own way.) *)
Theorem views_agree_on_well_nested
        (parse : string -> list node) (pages : list page) (depth : nat) (strict : bool) :
  well_nested depth None (stream pages) ->
  Forall (fun h => plain_title (title h) = true) (filter (in_range depth) (stream pages)) ->
  Forall (reads_item parse) (filter (in_range depth) (stream pages)) ->
  reads_points parse 1 (filter (in_range depth) (stream pages)) ->
  views_agree parse pages depth strict /\
  read_txt (buildToC_txt pages depth) = map labelled (filter (in_range depth) (stream pages)).
Proof.
  intros Hn Ht Hi Hp.
  pose proof (read_txt_lines depth pages Ht) as Htxt. split; [|exact Htxt].
  pose proof (buildToC_json_expected pages depth strict) as Hj.
  rewrite (expected_well_nested depth strict (stream pages) false 0 Hn) in Hj.
  destruct Hj as (tree & err & Hj & Ho).
  destruct (buildToC_xhtml_nested depth pages Hn) as (dx & Hx & Hxi).
  destruct (buildToC_ncx_nested depth pages Hn) as (dn & Hd & Hdi).
  exists tree, err, dx, dn. rewrite Htxt.
  rewrite (buildToC_xhtml_written parse depth pages Hi).
  rewrite (buildToC_ncx_written parse depth pages Hp). auto 10.
Qed.

Lemma views_agree_on_well_nested_witness :
  views_agree Samples.read_markup Examples.zigzag 6 false /\
  read_txt (buildToC_txt Examples.zigzag 6) =
  [(0, Some "One"); (1, Some "Two"); (2, Some "Three"); (1, Some "Four")].
Proof.
  apply (views_agree_on_well_nested Samples.read_markup Examples.zigzag 6 false).
  - simpl. lia.
  - repeat constructor.
  - repeat constructor.
  - repeat split.
Defined.

(** C2, as the specification has it, fails however the markup is read.
    Where a level is skipped, here a level-0 heading followed by a level-2
    heading, the text shows the second entry at depth 2, while the nested
    structural form has a placeholder above it in lenient mode and no such
    entry in strict mode.  Where a title runs over two lines, the text
    shows two entries and the nested structural form one. *)
Lemma views_agree_counterexample :
  (forall parse strict, ~ views_agree parse Examples.skipping 6 strict) /\
  (forall parse strict, ~ views_agree parse Samples.two_lines 6 strict).
Proof.
  split; intros parse strict (tree & err & dx & dn & Hj & Hx & Hd & Ho & Hxi & Hdi);
    destruct strict; vm_compute in Hj; inversion Hj; subst tree; vm_compute in Ho;
    discriminate.
Qed.

(** * Further properties of the program *)

(** ** The tree builder *)

Section JsonMore.

Variables (depth : nat).

Lemma filter_real_gaps (a b : nat) : filter real (gaps a b) = [].
Proof.
  unfold gaps. generalize (b - a) as n. intros n; revert a.
  induction n as [|n IH]; intros a; simpl; auto.
Qed.

Lemma expected_real (strict : bool) (hs : list heading) :
  forall (started : bool) (cur : nat) (out : list (nat * Js.value)),
    expected strict depth started cur hs = Some out ->
    filter real out = map labelled (emitted strict depth cur hs).
Proof.
  induction hs as [|h hs IH]; intros started cur out He; cbn [expected emitted] in *.
  - now inversion He.
  - destruct (in_range depth h); cbn [andb]; [|eauto].
    destruct ((level h =? cur + 1) && negb started); [discriminate|].
    destruct ((cur + 1 <? level h) && strict) eqn:E; cbn [negb]; [eauto|].
    destruct (expected strict depth true (level h) hs) as [out'|] eqn:E'; [|discriminate].
    cbn [option_map] in He. inversion He; subst out.
    rewrite !filter_app, (IH _ _ _ E'). cbn [map].
    destruct (cur + 1 <? level h); [rewrite filter_real_gaps|]; reflexivity.
Qed.

Lemma expected_strict (hs : list heading) :
  forall (started : bool) (cur : nat) (out : list (nat * Js.value)),
    expected true depth started cur hs = Some out ->
    out = map labelled (emitted true depth cur hs).
Proof.
  induction hs as [|h hs IH]; intros started cur out He; cbn [expected emitted] in *.
  - now inversion He.
  - destruct (in_range depth h); cbn [andb]; [|eauto].
    destruct ((level h =? cur + 1) && negb started); [discriminate|].
    rewrite andb_true_r in *.
    destruct (cur + 1 <? level h) eqn:E; cbn [negb]; [eauto|].
    destruct (expected true depth true (level h) hs) as [out'|] eqn:E'; [|discriminate].
    cbn [option_map app] in He. inversion He; subst out.
    cbn [map]. f_equal. eauto.
Qed.

Lemma strict_count (hs : list heading) (cur : nat) :
  List.length (filter (in_range depth) hs) =
  List.length (emitted true depth cur hs) + List.length (reported true depth cur hs).
Proof.
  revert cur; induction hs as [|h hs IH]; intros cur; cbn [filter emitted reported]; [reflexivity|].
  destruct (in_range depth h); cbn [andb]; [|apply IH].
  rewrite andb_true_r. destruct (cur + 1 <? level h); cbn [negb List.length].
  - rewrite (IH cur). lia.
  - now rewrite (IH (level h)).
Qed.

Lemma lenient_placeholders (hs : list heading) :
  forall (started : bool) (cur : nat) (out : list (nat * Js.value)),
    expected false depth started cur hs = Some out ->
    List.length (reported false depth cur hs) <=
    List.length (filter (fun x => negb (real x)) out).
Proof.
  induction hs as [|h hs IH]; intros started cur out He; cbn [expected reported] in *.
  - now inversion He.
  - destruct (in_range depth h); [|eauto].
    destruct ((level h =? cur + 1) && negb started); [discriminate|].
    rewrite andb_false_r in He.
    destruct (expected false depth true (level h) hs) as [out'|] eqn:E'; [|discriminate].
    cbn [option_map] in He. inversion He; subst out.
    rewrite !filter_app, !length_app. specialize (IH _ _ _ E').
    destruct (cur + 1 <? level h) eqn:E; [|simpl; lia].
    apply Nat.ltb_lt in E. cbn [List.length].
    assert (1 <= List.length (filter (fun x => negb (real x))
                                     (gaps (if started then cur + 1 else cur) (level h)))).
    { rewrite gaps_cons by (destruct started; lia). simpl. lia. }
    lia.
Qed.

(** What one heading adds to [console.error]. *)
Lemma visit_log (strict : bool) (st : builder) (err : list string) (h : heading) :
  let jump := in_range depth h && (currentLevel st + 1 <? level h) in
  match visit depth strict st err h with
  | Done st' err' =>
      err' = err ++ (if jump then [diagnostic h] else []) /\
      currentLevel st' =
      (if in_range depth h
       then (if (currentLevel st + 1 <? level h) && strict then currentLevel st else level h)
       else currentLevel st)
  | Throw err' => exists rest, err ++ (if jump then [diagnostic h] else []) = err' ++ rest
  end.
Proof.
  unfold visit, add, in_range. destruct (level h <? depth); cbn [andb].
  2:{ split; [now rewrite app_nil_r|reflexivity]. }
  destruct (level h <? currentLevel st) eqn:E1.
  { apply Nat.ltb_lt in E1.
    replace (currentLevel st + 1 <? level h) with false by (symmetry; apply Nat.ltb_ge; lia).
    cbn [andb]. rewrite app_nil_r.
    destruct (ascend (toc st) (Some []) (level h)) as [cur|]; [|exists []; now rewrite app_nil_r].
    destruct (push (entry_of h) (toc st) cur); [auto|exists []; now rewrite app_nil_r]. }
  destruct (level h =? currentLevel st + 1) eqn:E2.
  { apply Nat.eqb_eq in E2.
    replace (currentLevel st + 1 <? level h) with false by (symmetry; apply Nat.ltb_ge; lia).
    cbn [andb]. rewrite app_nil_r.
    destruct (last_child (toc st) (current st)) as [cur|]; [|exists []; now rewrite app_nil_r].
    destruct (reset_children (toc st) cur) as [t|]; [|exists []; now rewrite app_nil_r].
    destruct (push (entry_of h) t cur); [auto|exists []; now rewrite app_nil_r]. }
  destruct (currentLevel st + 1 <? level h) eqn:E3; cbn [andb].
  - destruct strict; [auto|].
    destruct (nest (toc st) (current st) (level h - currentLevel st)) as [[t cur]|];
      [|exists []; now rewrite app_nil_r].
    destruct (push (entry_of h) t cur); [auto|exists []; now rewrite app_nil_r].
  - rewrite app_nil_r.
    destruct (push (entry_of h) (toc st) (current st)); [auto|exists []; now rewrite app_nil_r].
Qed.

Lemma visit_all_log (strict : bool) (hs : list heading) :
  forall (st : builder) (err : list string),
    match visit_all depth strict st err hs with
    | Done _ err' => err' = err ++ map diagnostic (reported strict depth (currentLevel st) hs)
    | Throw err' =>
        exists rest,
          err ++ map diagnostic (reported strict depth (currentLevel st) hs) = err' ++ rest
    end.
Proof.
  induction hs as [|h hs IH]; intros st err; cbn [visit_all reported].
  - now rewrite app_nil_r.
  - pose proof (visit_log strict st err h) as Hv. cbv zeta in Hv.
    destruct (visit depth strict st err h) as [st1 err1|err1].
    + destruct Hv as [He Hl]. subst err1.
      specialize (IH st1 (err ++ (if in_range depth h && (currentLevel st + 1 <? level h)
                                  then [diagnostic h] else []))).
      rewrite Hl in IH.
      destruct (in_range depth h); cbn [andb] in *.
      * destruct (currentLevel st + 1 <? level h); cbn [andb map] in *.
        -- rewrite <- app_assoc in IH. exact IH.
        -- rewrite app_nil_r in *. exact IH.
      * rewrite app_nil_r in *. exact IH.
    + destruct Hv as (rest & Hr).
      destruct (in_range depth h); cbn [andb] in *.
      * destruct (currentLevel st + 1 <? level h); cbn [map].
        -- exists (rest ++ map diagnostic
                     (reported strict depth (if strict then currentLevel st else level h) hs)).
           rewrite app_assoc, <- Hr, <- app_assoc. reflexivity.
        -- exists (rest ++ map diagnostic (reported strict depth (level h) hs)).
           rewrite app_assoc, <- Hr, app_nil_r. reflexivity.
      * exists (rest ++ map diagnostic (reported strict depth (currentLevel st) hs)).
        rewrite app_assoc, <- Hr, app_nil_r. reflexivity.
Qed.

Lemma visit_all_filter (strict : bool) (hs : list heading) :
  forall (st : builder) (err : list string),
    visit_all depth strict st err (filter (in_range depth) hs) = visit_all depth strict st err hs.
Proof.
  induction hs as [|h hs IH]; intros st err; cbn [filter visit_all]; [reflexivity|].
  destruct (in_range depth h) eqn:E; cbn [visit_all].
  - destruct (visit depth strict st err h); auto.
  - unfold visit. unfold in_range in E. rewrite E. apply IH.
Qed.

Lemma filter_idem (A : Type) (f : A -> bool) (l : list A) : filter f (filter f l) = filter f l.
Proof.
  induction l as [|x l IH]; simpl; [reflexivity|].
  destruct (f x) eqn:E; simpl; [rewrite E; f_equal|]; exact IH.
Qed.

Lemma stream_in_range_page (pages : list page) :
  stream (in_range_page depth pages) = filter (in_range depth) (stream pages).
Proof. unfold in_range_page, stream. simpl. apply app_nil_r. Qed.

End JsonMore.

Lemma outline_root (t : entry) : outline (root_children t) = below 0 t.
Proof. unfold outline, root_children, below. now destruct (e_children t). Qed.

(** A returned tree has the outline that [expected] gives. *)
Lemma done_outline
  (pages : list page) (depth : nat) (strict : bool) (tree : list entry) (err : list string) :
  buildToC_json pages depth strict = Done tree err ->
  expected strict depth false 0 (stream pages) = Some (outline tree).
Proof.
  intros H. pose proof (buildToC_json_expected pages depth strict) as He.
  destruct (expected strict depth false 0 (stream pages)) as [out|] eqn:E.
  - destruct He as (tree' & err' & H' & Ho). rewrite H in H'. inversion H'; subst tree' err'.
    now rewrite Ho.
  - destruct He as (err' & H'). rewrite H in H'. discriminate.
Qed.

Lemma diagnostics_of_run (pages : list page) (depth : nat) (strict : bool) :
  match buildToC_json pages depth strict with
  | Done _ err => err = map diagnostic (reported strict depth 0 (stream pages))
  | Throw err =>
      exists rest, map diagnostic (reported strict depth 0 (stream pages)) = err ++ rest
  end.
Proof.
  unfold buildToC_json, run. rewrite visit_pages_stream.
  pose proof (visit_all_log depth strict (stream pages) init []) as H.
  destruct (visit_all depth strict init [] (stream pages)); exact H.
Qed.

(** X1. In a tree that the builder returns, the entries that stand for
    headings are, in depth-first order, the headings that became entries,
    each at the depth that equals its level. *)
Theorem entries_sit_at_their_level
  (pages : list page) (depth : nat) (strict : bool) (tree : list entry) (err : list string) :
  buildToC_json pages depth strict = Done tree err ->
  filter real (outline tree) = map labelled (emitted strict depth 0 (stream pages)).
Proof.
  intros H. eapply expected_real. eapply done_outline. eassumption.
Qed.

Lemma entries_sit_at_their_level_witness :
  filter real (outline Samples.skipping_lenient) =
  [(0, Some "Intro"); (2, Some "Detail")].
Proof.
  exact (entries_sit_at_their_level Examples.skipping 6 false
           Samples.skipping_lenient Samples.skipping_report eq_refl).
Defined.

(** X2. No renderer looks at the page boundaries or at the headings out
    of range: each gives the same result on the headings in range put on a
    single page. *)
Theorem renderers_see_the_headings_in_range
        (parse : string -> list node) (pages : list page) (depth : nat) (strict : bool) :
  buildToC_txt (in_range_page depth pages) depth = buildToC_txt pages depth /\
  buildToC_json (in_range_page depth pages) depth strict = buildToC_json pages depth strict /\
  buildToC_xhtml parse (in_range_page depth pages) depth = buildToC_xhtml parse pages depth /\
  buildToC_ncx parse (in_range_page depth pages) depth = buildToC_ncx parse pages depth.
Proof.
  repeat split.
  - rewrite !buildToC_txt_lines. unfold lines.
    now rewrite stream_in_range_page, filter_idem.
  - unfold buildToC_json, run.
    now rewrite !visit_pages_stream, stream_in_range_page, visit_all_filter.
  - unfold buildToC_xhtml.
    now rewrite !xhtml_run_stream, stream_in_range_page, xhtml_run_in_range.
  - unfold buildToC_ncx.
    now rewrite !ncx_run_stream, stream_in_range_page, ncx_run_in_range.
Qed.

(** X3. The lines on [console.error] are the diagnostics of the headings
    in range that are more than one level below the entry before them, in
    their order; when the builder throws, what it has written is the
    beginning of that list. *)
Theorem diagnostics_name_the_jumps (pages : list page) (depth : nat) (strict : bool) :
  match buildToC_json pages depth strict with
  | Done _ err => err = map diagnostic (reported strict depth 0 (stream pages))
  | Throw err =>
      exists rest, map diagnostic (reported strict depth 0 (stream pages)) = err ++ rest
  end.
Proof. apply diagnostics_of_run. Qed.

(** X4. Strict mode makes no placeholder and loses no heading silently:
    the outline of the tree is the list of the headings that became
    entries, and every heading in range is either one of them or reported
    on [console.error]. *)
Theorem strict_mode_accounts_for_every_heading
  (pages : list page) (depth : nat) (tree : list entry) (err : list string) :
  buildToC_json pages depth true = Done tree err ->
  outline tree = map labelled (emitted true depth 0 (stream pages)) /\
  List.length (filter (in_range depth) (stream pages)) =
  List.length (outline tree) + List.length err.
Proof.
  intros H.
  assert (Ho : outline tree = map labelled (emitted true depth 0 (stream pages))).
  { eapply expected_strict. eapply done_outline. eassumption. }
  split; [exact Ho|].
  pose proof (diagnostics_of_run pages depth true) as Hd.
  rewrite H in Hd. rewrite Ho, Hd, !length_map. apply strict_count.
Qed.

Lemma strict_mode_accounts_for_every_heading_witness :
  outline Samples.skipping_strict = [(0, Some "Intro")] /\
  2 = List.length (outline Samples.skipping_strict) + List.length Samples.skipping_report.
Proof.
  exact (strict_mode_accounts_for_every_heading Examples.skipping 6
           Samples.skipping_strict Samples.skipping_report eq_refl).
Defined.

(** X5. In lenient mode every diagnostic comes with at least one
    placeholder, and a tree built without diagnostic has none: its outline
    is the list of the headings in range, each at the depth of its level. *)
Theorem lenient_mode_fills_the_gaps
  (pages : list page) (depth : nat) (tree : list entry) (err : list string) :
  buildToC_json pages depth false = Done tree err ->
  List.length err <= List.length (filter (fun x => negb (real x)) (outline tree)) /\
  (err = [] -> outline tree = map labelled (filter (in_range depth) (stream pages))).
Proof.
  intros H. pose proof (done_outline _ _ _ _ _ H) as He.
  pose proof (diagnostics_of_run pages depth false) as Hd. rewrite H in Hd.
  split.
  - rewrite Hd, length_map. eapply lenient_placeholders. eassumption.
  - intros ->. symmetry in Hd. apply map_eq_nil in Hd.
    eapply expected_contiguous; [|eassumption].
    clear H He. revert Hd. generalize 0 as cur.
    induction (stream pages) as [|h hs IH]; intros cur Hd;
      cbn [contiguous reported] in *; [exact I|].
    destruct (in_range depth h); [|eauto].
    destruct (cur + 1 <? level h) eqn:E; [discriminate|].
    apply Nat.ltb_ge in E. split; [lia|eauto].
Qed.

Lemma lenient_mode_fills_the_gaps_witness :
  List.length Samples.skipping_report <=
  List.length (filter (fun x => negb (real x)) (outline Samples.skipping_lenient)) /\
  (Samples.skipping_report = [] ->
   outline Samples.skipping_lenient =
   map labelled (filter (in_range 6) (stream Examples.skipping))).
Proof.
  exact (lenient_mode_fills_the_gaps Examples.skipping 6
           Samples.skipping_lenient Samples.skipping_report eq_refl).
Defined.

(** X6. Headings that follow never change what is already there: when the
    builder returns on [pages ++ more] it also returns on [pages], and the
    outline and the diagnostics of the longer run begin with those of the
    shorter one. *)
Theorem later_headings_only_append
  (pages more : list page) (depth : nat) (strict : bool) (tree : list entry) (err : list string) :
  buildToC_json (pages ++ more) depth strict = Done tree err ->
  exists tree0 err0 rest erest,
    buildToC_json pages depth strict = Done tree0 err0 /\
    outline tree = outline tree0 ++ rest /\
    err = err0 ++ erest.
Proof.
  unfold buildToC_json, run. rewrite !visit_pages_stream.
  unfold stream. rewrite flat_map_app. fold (stream pages) (stream more).
  rewrite visit_all_app.
  pose proof (visit_all_expected depth strict (stream pages) init [] [] [] init_consistent) as H1.
  destruct (visit_all depth strict init [] (stream pages)) as [st1 err1|err1]; [|discriminate].
  destruct (expected strict depth (started []) (currentLevel init) (stream pages)) as [out1|];
    [|destruct H1 as (e & H1); discriminate].
  destruct H1 as (st' & p1 & cs1 & err' & Hd & Hc1 & _). inversion Hd; subst st' err'.
  pose proof (visit_all_expected depth strict (stream more) st1 p1 cs1 err1 Hc1) as H2.
  pose proof (visit_all_log depth strict (stream more) st1 err1) as Hl.
  destruct (visit_all depth strict st1 err1 (stream more)) as [st2 err2|err2]; [|discriminate].
  intros H. inversion H; subst tree err. clear H.
  destruct (expected strict depth (started cs1) (currentLevel st1) (stream more)) as [out2|];
    [|destruct H2 as (e & H2); discriminate].
  destruct H2 as (st' & p2 & cs2 & err' & Hd2 & _ & Hb). inversion Hd2; subst st' err'.
  exists (root_children (toc st1)), err1, out2,
    (map diagnostic (reported strict depth (currentLevel st1) (stream more))).
  split; [reflexivity|]. split; [|exact Hl].
  now rewrite !outline_root.
Qed.

Lemma later_headings_only_append_witness :
  exists tree0 err0 rest erest,
    buildToC_json (firstn 1 Examples.zigzag) 6 false = Done tree0 err0 /\
    outline Samples.zigzag_both = outline tree0 ++ rest /\
    [] = err0 ++ erest.
Proof.
  exact (later_headings_only_append (firstn 1 Examples.zigzag) (skipn 1 Examples.zigzag) 6 false
           Samples.zigzag_both [] eq_refl).
Defined.

(** ** Heading extraction *)

Section ExtractMore.

(** An identifier that the loop returns was read off the element or one of
    its ancestors. *)
Lemma climb_origin (up : list frame) :
  forall (here : node) (l r : list node) (txt : string) (id : Js.value),
    Js.truthy (climb up here l r txt id) = true ->
    climb up here l r txt id = id \/
    exists a, In a (chain_from up here l r) /\
              attr "id" (Dom.here a) = climb up here l r txt id.
Proof.
  induction up as [|f up IH]; intros here l r txt id Ht.
  - cbn [climb chain_from] in *. destruct (Js.nonempty txt); [now left|].
    destruct (Js.truthy (attr "id" here)) eqn:E.
    + right. exists (Loc here l r []). split; [now left|reflexivity].
    + congruence.
  - cbn [climb chain_from] in *. destruct (Js.nonempty txt); [now left|].
    destruct (Js.truthy (attr "id" here)) eqn:E.
    + right. exists (Loc here l r (f :: up)). split; [now left|reflexivity].
    + destruct (IH _ _ _ _ _ Ht) as [Hi|(a & Ha & Hid)].
      * rewrite Hi in Ht. congruence.
      * right. exists a. split; [now right|exact Hid].
Qed.

Lemma each_keep_all (pageHref : string) (sel : list loc) :
  forall index,
    each pageHref false index sel = filter linked (each pageHref true index sel) /\
    List.length (each pageHref true index sel) = List.length sel.
Proof.
  induction sel as [|elt sel IH]; intros index; cbn [each]; [split; reflexivity|].
  unfold kept. rewrite orb_true_r, orb_false_r. cbn [filter List.length].
  unfold linked at 1. destruct (IH (S index)) as [IH1 IH2].
  destruct (Js.truthy (href (heading_of pageHref index elt))); rewrite IH1, IH2; auto.
Qed.

Lemma heading_level_of_heading (elt : loc) (pageHref : string) (index : nat) :
  is_heading elt = true -> level (heading_of pageHref index elt) < 6.
Proof.
  unfold is_heading, heading_of. cbn [level]. intros H.
  apply existsb_exists in H. destruct H as (tg & Hin & Heq).
  apply String.eqb_eq in Heq. rewrite Heq.
  cbn [In] in Hin.
  repeat (destruct Hin as [<-|Hin]; [cbv; lia|]). contradiction.
Qed.

Lemma each_Forall (P : heading -> Prop) (pageHref : string) (keep : bool) (sel : list loc) :
  Forall (fun elt => forall index, P (heading_of pageHref index elt)) sel ->
  forall index, Forall P (each pageHref keep index sel).
Proof.
  induction 1 as [|elt sel Hx _ IH]; intros index; cbn [each]; [constructor|].
  destruct (kept keep (heading_of pageHref index elt)); [constructor|]; auto.
Qed.

End ExtractMore.

(** X7. A link that heading extraction gives is either the page href
    (only on the first heading element of the page, when no identifier was
    found) or the page href, a "#" and a non-empty identifier carried by the
    heading element or one of its ancestors; a heading is left without link
    only when it is not the first one and no identifier was found. *)
Theorem links_stay_in_the_page (pageHref : string) (index : nat) (elt : loc) :
  match href (heading_of pageHref index elt) with
  | Some link =>
      (index = 0 /\ Js.truthy (getHeadingID elt) = false /\ link = pageHref) \/
      (exists a id,
          In a (chain elt) /\ attr "id" (here a) = Some id /\ id <> "" /\
          link = (pageHref ++ "#" ++ id)%string)
  | None => index <> 0 /\ Js.truthy (getHeadingID elt) = false
  end.
Proof.
  unfold heading_of. cbn [href].
  pose proof (climb_origin (above elt) (here elt) (before elt) (after elt) "" (Some "")) as H.
  fold (getHeadingID elt) in H. fold (chain elt) in H.
  destruct (getHeadingID elt) as [[|c r]|] eqn:E.
  - destruct (Nat.eqb_spec index 0); [left|]; auto.
  - right. destruct (H eq_refl) as [Hi|(a & Ha & Hid)]; [discriminate|].
    exists a, (String c r). repeat split; auto. discriminate.
  - destruct (Nat.eqb_spec index 0); [left|]; auto.
Qed.

(** X8. The flag [keepAllHeadings] only adds headings.  With the flag
    every page has one heading per heading element; without it the pages
    are the same with the unlinked headings removed, so that every heading
    that is left has a link. *)
Theorem keep_all_only_adds_unlinked_headings
  (load : string -> string -> option document) (basedir : string) (hrefs : list string) :
  parseHeadingsSync load basedir hrefs false =
  option_map (map linked_only) (parseHeadingsSync load basedir hrefs true) /\
  (forall pages, parseHeadingsSync load basedir hrefs false = Some pages ->
                 Forall (fun h => linked h = true) (stream pages)) /\
  (forall pages, parseHeadingsSync load basedir hrefs true = Some pages ->
                 Forall2 (fun pageHref pg =>
                            exists d, load basedir pageHref = Some d /\
                                      List.length (headings pg) = List.length (select_headings d))
                         hrefs pages).
Proof.
  assert (H1 : parseHeadingsSync load basedir hrefs false =
               option_map (map linked_only) (parseHeadingsSync load basedir hrefs true)).
  { induction hrefs as [|pageHref hrefs' IH]; cbn [parseHeadingsSync]; [reflexivity|].
    unfold parsePage. destruct (load basedir pageHref) as [d|]; [|reflexivity].
    rewrite IH. destruct (parseHeadingsSync load basedir hrefs' true); [|reflexivity].
    cbn [option_map map]. unfold linked_only at 2. cbn [page_href headings].
    now rewrite (proj1 (each_keep_all pageHref (select_headings d) 0)). }
  split; [exact H1|]. split.
  - intros pages Hp. rewrite H1 in Hp.
    destruct (parseHeadingsSync load basedir hrefs true) as [all|]; [|discriminate].
    inversion Hp; subst pages. clear. unfold stream.
    induction all as [|pg all IH]; cbn [map flat_map]; [constructor|].
    apply Forall_app. split; [|exact IH].
    unfold linked_only. cbn [headings]. apply Forall_forall. intros h Hh.
    now apply filter_In in Hh.
  - clear H1. induction hrefs as [|pageHref hrefs' IH]; intros pages Hp; cbn [parseHeadingsSync] in Hp.
    + inversion Hp. constructor.
    + unfold parsePage in Hp. destruct (load basedir pageHref) as [d|] eqn:E; [|discriminate].
      destruct (parseHeadingsSync load basedir hrefs' true) as [rest|]; [|discriminate].
      inversion Hp; subst pages. constructor; [|now apply IH].
      exists d. split; [exact E|]. cbn [headings].
      apply (proj2 (each_keep_all pageHref (select_headings d) 0)).
Qed.

Lemma keep_all_only_adds_unlinked_headings_witness :
  Forall (fun h => linked h = true)
         (stream [Page "A.html" [Heading 0 "Intro" (Some "A.html")];
                  Page "B.html" [Heading 0 "Conclusion" (Some "B.html")]]) /\
  Forall2 (fun pageHref pg =>
             exists d, Examples.two_pages "." pageHref = Some d /\
                       List.length (headings pg) = List.length (select_headings d))
          ["A.html"; "B.html"]
          [Page "A.html" [Heading 0 "Intro" (Some "A.html"); Heading 1 "Background" None];
           Page "B.html" [Heading 0 "Conclusion" (Some "B.html")]].
Proof.
  pose proof (keep_all_only_adds_unlinked_headings Examples.two_pages "." ["A.html"; "B.html"])
    as (_ & H2 & H3).
  split; [exact (H2 _ eq_refl)|exact (H3 _ eq_refl)].
Defined.

(** X9. Every heading that extraction delivers has a level from 0 to 5,
    so the default depth of 6 keeps all of them. *)
Theorem extracted_levels_are_below_six
  (load : string -> string -> option document) (basedir : string) (hrefs : list string)
  (keepAllHeadings : bool) (pages : list page) :
  parseHeadingsSync load basedir hrefs keepAllHeadings = Some pages ->
  Forall (fun h => level h < 6) (stream pages) /\
  filter (in_range default_depth) (stream pages) = stream pages.
Proof.
  intros Hp.
  assert (H : Forall (fun h => level h < 6) (stream pages)).
  { revert pages Hp. induction hrefs as [|pageHref hrefs' IH]; intros pages Hp;
      cbn [parseHeadingsSync] in Hp.
    - inversion Hp. constructor.
    - unfold parsePage in Hp. destruct (load basedir pageHref) as [d|]; [|discriminate].
      destruct (parseHeadingsSync load basedir hrefs' keepAllHeadings) as [rest|]; [|discriminate].
      inversion Hp; subst pages. unfold stream. cbn [flat_map headings].
      apply Forall_app. split; [|now apply IH].
      apply each_Forall. unfold select_headings. apply Forall_forall.
      intros elt He index. apply filter_In in He.
      apply heading_level_of_heading, He. }
  split; [exact H|].
  induction H as [|h hs Hh _ IH]; cbn [filter]; [reflexivity|].
  unfold in_range, default_depth. apply Nat.ltb_lt in Hh. rewrite Hh. now f_equal.
Qed.

Lemma extracted_levels_are_below_six_witness :
  Forall (fun h => level h < 6)
         (stream [Page "A.html" [Heading 0 "Intro" (Some "A.html"); Heading 1 "Background" None];
                  Page "B.html" [Heading 0 "Conclusion" (Some "B.html")]]).
Proof.
  exact (proj1 (extracted_levels_are_below_six Examples.two_pages "." ["A.html"; "B.html"] true
                  _ eq_refl)).
Defined.

(** X10. Heading extraction delivers one page per href, in the order of
    the hrefs and under the same hrefs, or nothing at all: it fails exactly
    when one of the pages cannot be read. *)
Theorem pages_follow_the_hrefs
  (load : string -> string -> option document) (basedir : string) (hrefs : list string)
  (keepAllHeadings : bool) :
  match parseHeadingsSync load basedir hrefs keepAllHeadings with
  | Some pages => map page_href pages = hrefs /\
                  Forall (fun pageHref => load basedir pageHref <> None) hrefs
  | None => exists pageHref, In pageHref hrefs /\ load basedir pageHref = None
  end.
Proof.
  induction hrefs as [|pageHref hrefs' IH]; cbn [parseHeadingsSync]; [now split|].
  unfold parsePage. destruct (load basedir pageHref) as [d|] eqn:E.
  - destruct (parseHeadingsSync load basedir hrefs' keepAllHeadings) as [rest|].
    + destruct IH as [IH1 IH2]. cbn [map page_href]. split; [now f_equal|].
      constructor; [congruence|exact IH2].
    + destruct IH as (x & Hx & Hl). exists x. split; [now right|exact Hl].
  - exists pageHref. split; [now left|exact E].
Qed.

(** X11. [indent] gives a line break followed by four spaces and two more
    for each level; different levels give different indentations. *)
Theorem indent_is_a_line_break_and_spaces (level : nat) :
  indent level = (nl ++ blanks (4 + 2 * level))%string /\
  forall level', indent level = indent level' -> level = level'.
Proof.
  assert (H : forall n, indent n = (nl ++ blanks (4 + 2 * n))%string).
  { intros n. unfold indent. rewrite spaces_blanks.
    rewrite string_app_assoc. reflexivity. }
  split; [apply H|]. intros level' E. rewrite !H in E.
  apply (f_equal String.length) in E. rewrite !string_length_app, !blanks_length in E. lia.
Qed.

(** ** Titles *)

Section Titles.

Lemma trim_start_starts (s : string) : starts_clean (trim_start s) = true.
Proof.
  induction s as [|c r IH]; cbn [trim_start]; [reflexivity|].
  destruct (is_space c) eqn:E; [exact IH|]. cbn [starts_clean]. now rewrite E.
Qed.

Lemma trim_end_starts (t : string) : starts_clean t = true -> starts_clean (trim_end t) = true.
Proof.
  destruct t as [|c r]; [reflexivity|]. cbn [starts_clean trim_end]. intros H.
  destruct (trim_end r); [|exact H].
  destruct (is_space c) eqn:E; [reflexivity|]. cbn [starts_clean]. now rewrite E.
Qed.

Lemma trim_end_ends (t : string) :
  forall p, trim_end t = EmptyString \/ ends_clean p (trim_end t) = true.
Proof.
  induction t as [|c r IH]; intros p; cbn [trim_end]; [now left|].
  destruct (trim_end r) as [|c' r'] eqn:E.
  - destruct (is_space c) eqn:Ec; [now left|right]. cbn [ends_clean]. now rewrite Ec.
  - right. destruct (IH (is_space c)) as [H|H]; [discriminate|]. exact H.
Qed.

Lemma space_is_space (c : ascii) : Ascii.eqb c " "%char = true -> is_space c = true.
Proof. intros H. apply Ascii.eqb_eq in H. now subst c. Qed.

Lemma not_space_not_blank (c : ascii) : is_space c = false -> Ascii.eqb c " "%char = false.
Proof.
  intros H. destruct (Ascii.eqb c " "%char) eqn:E; [|reflexivity].
  apply space_is_space in E. congruence.
Qed.

Lemma collapse_tidy (u : string) :
  forall p, ends_clean p u = true -> tidy_from p (collapse p u) = true.
Proof.
  induction u as [|c r IH]; intros p H; cbn [collapse ends_clean] in *; [exact H|].
  destruct (is_space c) eqn:E.
  - destruct p; [now apply IH|]. cbn [tidy_from]. rewrite Ascii.eqb_refl. now apply IH.
  - cbn [tidy_from]. rewrite (not_space_not_blank c E), E. now apply IH.
Qed.

Lemma collapse_start (u : string) :
  starts_clean u = true -> collapse false u = collapse true u.
Proof.
  destruct u as [|c r]; [reflexivity|]. cbn [starts_clean collapse].
  now destruct (is_space c).
Qed.

Lemma tidy_collapse (t : string) : forall p, tidy_from p t = true -> collapse p t = t.
Proof.
  induction t as [|c r IH]; intros p H; cbn [tidy_from collapse] in *; [reflexivity|].
  destruct (Ascii.eqb c " "%char) eqn:E.
  - rewrite (space_is_space c E). apply Ascii.eqb_eq in E. subst c.
    apply andb_prop in H. destruct H as [Hp Hr]. destruct p; [discriminate|].
    f_equal. now apply IH.
  - apply andb_prop in H. destruct H as [Hc Hr].
    destruct (is_space c); [discriminate|]. f_equal. now apply IH.
Qed.

Lemma tidy_ends (t : string) : forall p, tidy_from p t = true -> ends_clean p t = true.
Proof.
  induction t as [|c r IH]; intros p H; cbn [tidy_from ends_clean] in *; [exact H|].
  destruct (Ascii.eqb c " "%char) eqn:E; apply andb_prop in H; destruct H as [H1 H2].
  - rewrite (space_is_space c E). now apply IH.
  - destruct (is_space c); [discriminate|]. now apply IH.
Qed.

Lemma ends_trim_end (t : string) :
  forall p, ends_clean p t = true -> trim_end t = t.
Proof.
  induction t as [|c r IH]; intros p H; cbn [ends_clean trim_end] in *; [reflexivity|].
  rewrite (IH _ H). destruct r as [|c' r']; [|reflexivity].
  cbn [ends_clean] in H. now destruct (is_space c).
Qed.

Lemma tidy_spaces (t : string) :
  forall p, tidy_from p t = true ->
            forall c, In c (list_ascii_of_string t) -> is_space c = true -> c = " "%char.
Proof.
  induction t as [|x r IH]; intros p H c Hin Hs; cbn [tidy_from list_ascii_of_string In] in *;
    [contradiction|].
  destruct (Ascii.eqb x " "%char) eqn:E; apply andb_prop in H; destruct H as [H1 H2].
  - destruct Hin as [<-|Hin]; [now apply Ascii.eqb_eq|eauto].
  - destruct Hin as [<-|Hin]; [|eauto]. rewrite Hs in H1. discriminate.
Qed.

Lemma normalize_tidy (s : string) : tidy (normalize s) = true.
Proof.
  unfold normalize. set (u := trim_end (trim_start s)).
  assert (Hs : starts_clean u = true) by apply trim_end_starts, trim_start_starts.
  destruct (trim_end_ends (trim_start s) true) as [E|E]; fold u in E.
  - now rewrite E.
  - rewrite (collapse_start u Hs). pose proof (collapse_tidy u true E) as H.
    unfold tidy. now destruct (collapse true u).
Qed.

Lemma tidy_normalize (t : string) : tidy t = true -> normalize t = t.
Proof.
  destruct t as [|c r]; [reflexivity|]. unfold tidy. intros H.
  assert (Hc : is_space c = false).
  { cbn [tidy_from] in H. destruct (Ascii.eqb c " "%char); [discriminate|].
    cbn [negb andb] in H. apply andb_prop in H. destruct H as [H _].
    now destruct (is_space c). }
  unfold normalize. cbn [trim_start]. rewrite Hc.
  rewrite (ends_trim_end _ true (tidy_ends _ true H)).
  rewrite collapse_start by (cbn [starts_clean]; now rewrite Hc).
  now apply tidy_collapse.
Qed.

End Titles.

(** X12. The title of a heading is tidy: it is empty, or it neither
    starts nor ends with white space and its only white space are single
    spaces.  Normalizing a title again changes nothing. *)
Theorem titles_are_tidy (s : string) :
  tidy (normalize s) = true /\
  normalize (normalize s) = normalize s /\
  (forall c, In c (list_ascii_of_string (normalize s)) -> is_space c = true -> c = " "%char).
Proof.
  pose proof (normalize_tidy s) as H. split; [exact H|]. split.
  - now apply tidy_normalize.
  - unfold tidy in H. destruct (normalize s) as [|c r] eqn:E; [intros c []|].
    now apply (tidy_spaces _ true).
Qed.

(** ** Navigation documents: content *)

Section NavTrace.

Variable depth : nat.

Lemma advance_at_trace (A : Type) (part : heading -> nat -> list A) (g : node -> list A)
      (closing : list rung -> list node) (n : nat) :
  (forall fs, flat_map g (closing fs) = rung_trace part g fs) ->
  (forall s, g (Text s) = []) ->
  forall (l : nat) (fs : list rung) (h : heading),
    l <= List.length fs ->
    rung_trace part g (advance_at closing n l fs h) = rung_trace part g fs ++ part h n.
Proof.
  intros Hc Ht l. induction l as [|l IH]; intros fs h Hl.
  - assert (E : advance_at closing n 0 fs h = [Rung (closing fs ++ [Text (indent (level h))]) h n])
      by now destruct fs.
    rewrite E. cbn [rung_trace closed open_item order].
    rewrite flat_map_app, Hc. cbn [flat_map]. now rewrite Ht, !app_nil_r.
  - destruct fs as [|f fs]; simpl in Hl; [lia|].
    cbn [advance_at rung_trace]. rewrite IH by lia. now rewrite <- !app_assoc.
Qed.

Lemma numbered_fst (A : Type) (f : heading -> list A) (l : list heading) :
  forall a b, flat_map (fun hk => f (fst hk)) (numbered a l) =
              flat_map (fun hk => f (fst hk)) (numbered b l).
Proof.
  induction l as [|x l IH]; intros a b; [reflexivity|].
  cbn [numbered flat_map fst]. f_equal. apply IH.
Qed.

Lemma advance_all_trace (A : Type) (part : heading -> nat -> list A) (g : node -> list A)
      (closing : list rung -> list node) (count : bool) :
  (forall fs, flat_map g (closing fs) = rung_trace part g fs) ->
  (forall s, g (Text s) = []) ->
  forall (hs : list heading) (n cur : nat) (fs : list rung),
    match fs with
    | [] => True
    | _ => List.length fs = S cur
    end ->
    well_nested depth (open_level fs cur) hs ->
    rung_trace part g (advance_all closing count depth n fs hs) =
    rung_trace part g fs ++
    flat_map (fun hk => part (fst hk) (if count then snd hk else n))
             (numbered n (filter (in_range depth) hs)).
Proof.
  intros Hc Ht hs. induction hs as [|h hs IH]; intros n cur fs Hlen Hn;
    cbn [advance_all filter well_nested] in *.
  - cbn [numbered flat_map]. now rewrite app_nil_r.
  - destruct (in_range depth h); [|now apply (IH n cur)].
    destruct Hn as [Hl Hn].
    assert (Hl' : level h <= List.length fs) by (destruct fs; simpl in *; lia).
    pose proof (advance_at_length closing n (level h) fs h Hl') as Ea.
    rewrite (IH _ (level h)).
    + rewrite (advance_at_trace A part g closing n Hc Ht) by assumption.
      rewrite <- app_assoc. cbn [numbered flat_map fst snd]. f_equal.
      destruct count; [reflexivity|]. f_equal.
      apply (numbered_fst A (fun x => part x n)).
    + destruct (advance_at closing n (level h) fs h); [exact I|exact Ea].
    + unfold open_level. destruct (advance_at closing n (level h) fs h) eqn:E; [|exact Hn].
      now apply advance_at_nonempty in E.
Qed.

Lemma xhtml_all_advance (hs : list heading) :
  forall (st : xhtml_state) (fs : list rung),
    xhtml_shape st fs ->
    well_nested depth (open_level fs (x_currentLevel st)) hs ->
    exists st',
      xhtml_steps depth st hs = Some st' /\
      xhtml_shape st' (advance_all ol_closing false depth 0 fs hs).
Proof.
  induction hs as [|h hs IH]; intros st fs Hs Hn; cbn [xhtml_steps well_nested advance_all] in *.
  - now exists st.
  - destruct (in_range depth h) eqn:Hin.
    + destruct Hn as [Hl Hn].
      destruct (xhtml_visit_shape depth st fs h Hs Hin Hl) as (st1 & Hv & Hs1 & Hc1).
      rewrite Hv. apply IH; [exact Hs1|].
      rewrite Hc1. unfold open_level.
      destruct (advance_at ol_closing 0 (level h) fs h) eqn:E; [|exact Hn].
      now apply advance_at_nonempty in E.
    + unfold xhtml_step. unfold in_range in Hin. rewrite Hin. now apply IH.
Qed.

Lemma ncx_visit_order (st st' : ncx_state) (h : heading) :
  ncx_step depth st h = Some st' -> in_range depth h = true ->
  playOrder st' = S (playOrder st).
Proof.
  unfold ncx_step, in_range. intros H Hin. rewrite Hin in H.
  destruct (level h <=? n_currentLevel st).
  - destruct (nav st (level h)); inversion H; reflexivity.
  - destruct (nav st (n_currentLevel st)); inversion H; reflexivity.
Qed.

Lemma ncx_all_advance (hs : list heading) :
  forall (st : ncx_state) (fs : list rung),
    ncx_shape st fs ->
    well_nested depth (open_level fs (n_currentLevel st)) hs ->
    exists st',
      ncx_steps depth st hs = Some st' /\
      ncx_shape st' (advance_all nav_tail true depth (playOrder st) fs hs).
Proof.
  induction hs as [|h hs IH]; intros st fs Hs Hn; cbn [ncx_steps well_nested advance_all] in *.
  - now exists st.
  - destruct (in_range depth h) eqn:Hin.
    + destruct Hn as [Hl Hn].
      destruct (ncx_visit_shape depth st fs h Hs Hin Hl) as (st1 & Hv & Hs1 & Hc1).
      rewrite Hv. rewrite <- (ncx_visit_order st st1 h Hv Hin). apply IH; [exact Hs1|].
      rewrite Hc1. unfold open_level.
      destruct (advance_at nav_tail (playOrder st) (level h) fs h) eqn:E; [|exact Hn].
      now apply advance_at_nonempty in E.
    + unfold ncx_step. unfold in_range in Hin. rewrite Hin. now apply IH.
Qed.

Lemma trace_chars (A : Type) (own : string -> list (string * string) -> list node -> list A)
      (s : string) :
  flat_map (trace own) (chars s) = [].
Proof. now destruct s. Qed.

Lemma trace_item_label (h : heading) : trace xhtml_own (item_label h) = [item_trace h].
Proof.
  unfold item_label, item_trace, link_of. destruct (Js.truthy (href h)) eqn:E; cbn [trace].
  - rewrite trace_chars. unfold xhtml_own. cbn [String.eqb Ascii.eqb Bool.eqb].
    cbn [lookup]. rewrite text_chars.
    destruct (href h) as [x|]; [reflexivity|discriminate].
  - rewrite trace_chars. unfold xhtml_own. cbn. now rewrite text_chars.
Qed.

Lemma ol_nodes_trace (fs : list rung) :
  flat_map (trace xhtml_own) (ol_nodes fs) =
  rung_trace (fun h _ => [item_trace h]) (trace xhtml_own) fs.
Proof.
  induction fs as [|f fs IH]; [reflexivity|].
  cbn [ol_nodes flat_map rung_trace]. rewrite app_nil_r.
  cbn [trace]. change (xhtml_own "ol" [] ?ks) with (@nil (Js.value * string)). cbn [app].
  rewrite flat_map_app. f_equal. cbn [flat_map]. rewrite app_nil_r.
  unfold li_node. cbn [trace flat_map].
  change (xhtml_own "li" [] ?ks) with (@nil (Js.value * string)).
  cbn [app]. now rewrite trace_item_label, IH.
Qed.

Lemma ol_closing_trace (fs : list rung) :
  flat_map (trace xhtml_own) (ol_closing fs) =
  rung_trace (fun h _ => [item_trace h]) (trace xhtml_own) fs.
Proof.
  destruct fs as [|f fs]; [reflexivity|].
  pose proof (ol_nodes_trace (f :: fs)) as H.
  cbn [ol_nodes flat_map trace] in H.
  change (xhtml_own "ol" [] ?ks) with (@nil (Js.value * string)) in H.
  cbn [app] in H. rewrite app_nil_r in H. exact H.
Qed.

Lemma xhtml_doc_trace (fs : list rung) :
  trace xhtml_own (xhtml_doc fs) =
  rung_trace (fun h _ => [item_trace h]) (trace xhtml_own) fs.
Proof.
  pose proof (ol_nodes_trace fs) as H. unfold xhtml_doc, ol_top.
  destruct fs as [|f fs]; [reflexivity|].
  cbn [ol_nodes] in *. cbn [flat_map] in H. rewrite app_nil_r in H.
  cbn [trace flat_map]. change (xhtml_own "root" [] ?ks) with (@nil (Js.value * string)).
  change (xhtml_own "nav" [("epub:type", "toc")] ?ks) with (@nil (Js.value * string)).
  cbn [app]. rewrite !app_nil_r. exact H.
Qed.

Lemma trace_point_kids (h : heading) :
  flat_map (trace ncx_own) (point_kids h) = [Some (title h); Some (to_string (href h))].
Proof.
  unfold point_kids. cbn [flat_map trace].
  change (ncx_own "navLabel" [] ?ks) with (@nil Js.value).
  change (ncx_own "text" [] (chars (title h))) with [Some (join (map text (chars (title h))))].
  cbn [app]. rewrite trace_chars, text_chars. reflexivity.
Qed.

Lemma nav_tail_trace (fs : list rung) :
  flat_map (trace ncx_own) (nav_tail fs) = rung_trace point_trace (trace ncx_own) fs.
Proof.
  induction fs as [|f fs IH]; [reflexivity|].
  cbn [nav_tail rung_trace]. rewrite flat_map_app. f_equal.
  cbn [flat_map trace]. rewrite app_nil_r, flat_map_app, trace_point_kids, IH.
  reflexivity.
Qed.

Lemma ncx_doc_trace (fs : list rung) :
  trace ncx_own (ncx_doc fs) = rung_trace point_trace (trace ncx_own) fs.
Proof.
  unfold ncx_doc. cbn [trace flat_map].
  change (ncx_own "root" [] ?ks) with (@nil Js.value).
  change (ncx_own "navMap" [] ?ks) with (@nil Js.value).
  cbn [app]. now rewrite app_nil_r, nav_tail_trace.
Qed.

End NavTrace.

(** X13. Take well-nested headings whose points the parser reads as the
    markup was written.  Then the EPUB2 map holds, in document order, one
    [navPoint] per heading in range, numbered 1, 2, 3, ... in its [id] and
    its [playOrder], with the title of the heading as the character data of
    its [text] and the link of the heading as the [src] of its [content]
    (the text "undefined" when the heading has none). *)
Theorem ncx_points_are_numbered_in_order
        (parse : string -> list node) (pages : list page) (depth : nat) :
  well_nested depth None (stream pages) ->
  reads_points parse 1 (filter (in_range depth) (stream pages)) ->
  exists dn,
    buildToC_ncx parse pages depth = Some dn /\
    trace ncx_own dn =
    flat_map (fun hk => point_trace (fst hk) (snd hk))
             (numbered 1 (filter (in_range depth) (stream pages))).
Proof.
  intros Hn Hp. rewrite (buildToC_ncx_written parse depth pages Hp).
  unfold ncx_as_written. rewrite ncx_pages_stream.
  destruct (ncx_all_advance depth (stream pages) ncx_init [] ncx_init_shape Hn)
    as (st' & -> & [Hroot _ _]).
  exists (n_root st'). split; [reflexivity|].
  change (playOrder ncx_init) with 1 in Hroot.
  rewrite Hroot, ncx_doc_trace.
  rewrite (advance_all_trace depth _ point_trace (trace ncx_own) nav_tail true
             nav_tail_trace (fun _ => eq_refl) (stream pages) 1 0 [] I Hn).
  reflexivity.
Qed.

Lemma ncx_points_are_numbered_in_order_witness :
  exists dn,
    buildToC_ncx Samples.read_markup Examples.stairs 6 = Some dn /\
    trace ncx_own dn =
    [Some "nav_1"; Some "1"; Some "One"; Some "A.html";
     Some "nav_2"; Some "2"; Some "Two"; Some "A.html#two";
     Some "nav_3"; Some "3"; Some "Three"; Some "B.html";
     Some "nav_4"; Some "4"; Some "Four"; Some "B.html#four"].
Proof.
  apply (ncx_points_are_numbered_in_order Samples.read_markup Examples.stairs 6).
  - simpl. lia.
  - repeat split.
Defined.

(** X14. Take well-nested headings whose items the parser reads as the
    markup was written.  Then the EPUB3 list holds, in document order, one
    item per heading in range, with the title of the heading as its
    character data: a link to the heading's href when it has one, and a
    [span] without target otherwise. *)
Theorem xhtml_items_link_to_their_headings
        (parse : string -> list node) (pages : list page) (depth : nat) :
  well_nested depth None (stream pages) ->
  Forall (reads_item parse) (filter (in_range depth) (stream pages)) ->
  exists dx,
    buildToC_xhtml parse pages depth = Some dx /\
    trace xhtml_own dx = map item_trace (filter (in_range depth) (stream pages)).
Proof.
  intros Hn Hi. rewrite (buildToC_xhtml_written parse depth pages Hi).
  unfold xhtml_as_written. rewrite xhtml_pages_stream.
  destruct (xhtml_all_advance depth (stream pages) xhtml_init [] xhtml_init_shape Hn)
    as (st' & -> & [Hroot _ _]).
  exists (x_root st'). split; [reflexivity|].
  rewrite Hroot, xhtml_doc_trace.
  rewrite (advance_all_trace depth _ (fun h _ => [item_trace h]) (trace xhtml_own) ol_closing
             false ol_closing_trace (fun _ => eq_refl) (stream pages) 0 0 [] I Hn).
  cbn [rung_trace app]. generalize (filter (in_range depth) (stream pages)) as l.
  intros l. generalize 0. induction l as [|h l IH]; intros n; [reflexivity|].
  cbn [numbered flat_map map app]. f_equal. apply IH.
Qed.

Lemma xhtml_items_link_to_their_headings_witness :
  exists dx,
    buildToC_xhtml Samples.read_markup
      [Page "A.html" [Heading 0 "Intro" (Some "A.html"); Heading 1 "Background" None]] 6
    = Some dx /\
    trace xhtml_own dx = [(Some "A.html", "Intro"); (None, "Background")].
Proof.
  apply (xhtml_items_link_to_their_headings Samples.read_markup
           [Page "A.html" [Heading 0 "Intro" (Some "A.html"); Heading 1 "Background" None]] 6).
  - simpl. lia.
  - repeat constructor.
Defined.

(** ** Navigation documents without a top-level heading *)

Section NoTopLevel.

Variable parse : string -> list node.
Variable depth : nat.

Lemma assign_unused (a : slots) (top : path) (l : nat) :
  slots_unused a top -> 1 <= l -> slots_unused (assign a l None) top.
Proof.
  intros [H0 Hk] Hl. unfold assign. split.
  - replace (0 =? l) with false by (symmetry; apply Nat.eqb_neq; lia). exact H0.
  - intros k Hk1. destruct (k =? l); [now right|auto].
Qed.

Lemma slot_of_level (a : slots) (top : path) (c : nat) :
  slots_unused a top -> a c = None \/ a c = Some None \/ (c = 0 /\ a c = Some (Some top)).
Proof.
  intros [H0 Hk]. destruct c as [|c]; [auto|].
  destruct (Hk (S c)) as [H|H]; [lia|auto|auto].
Qed.

Lemma xhtml_visit_unused (st st' : xhtml_state) (h : heading) :
  x_root st = x_root xhtml_init -> slots_unused (ol st) [1; 0] ->
  (in_range depth h = true -> 1 <= level h) ->
  xhtml_visit parse depth st h = Some st' ->
  x_root st' = x_root xhtml_init /\ slots_unused (ol st') [1; 0].
Proof.
  intros Hr Hs Hl. unfold xhtml_visit. cbv zeta. fold (in_range depth h).
  destruct (in_range depth h); [|intros H; inversion H; subst; auto].
  specialize (Hl eq_refl).
  destruct (level h <=? x_currentLevel st).
  - destruct Hs as [H0 Hk]. destruct (Hk (level h) Hl) as [E|E]; rewrite E; [discriminate|].
    intros H. inversion H. cbn [x_root ol append]. split; [exact Hr|]. now split.
  - destruct (slot_of_level _ _ (x_currentLevel st) Hs) as [E|[E|[_ E]]]; rewrite E;
      [discriminate| |]; intros H; inversion H; cbn [x_root ol find_last append].
    + split; [exact Hr|]. now apply assign_unused.
    + rewrite Hr. split; [reflexivity|]. now apply assign_unused.
Qed.

Lemma xhtml_all_unused (hs : list heading) :
  forall st st',
    x_root st = x_root xhtml_init -> slots_unused (ol st) [1; 0] ->
    Forall (fun h => in_range depth h = true -> 1 <= level h) hs ->
    xhtml_all parse depth st hs = Some st' -> x_root st' = x_root xhtml_init.
Proof.
  induction hs as [|h hs IH]; intros st st' Hr Hs Hf H; cbn [xhtml_all] in H.
  - now inversion H; subst.
  - inversion Hf as [|? ? Hh Hf']; subst.
    destruct (xhtml_visit parse depth st h) as [st1|] eqn:E; [|discriminate].
    destruct (xhtml_visit_unused st st1 h Hr Hs Hh E) as [Hr1 Hs1]. eauto.
Qed.

Lemma ncx_visit_unused (st st' : ncx_state) (h : heading) :
  n_root st = n_root ncx_init -> slots_unused (nav st) [0] ->
  (in_range depth h = true -> 1 <= level h) ->
  ncx_visit parse depth st h = Some st' ->
  n_root st' = n_root ncx_init /\ slots_unused (nav st') [0].
Proof.
  intros Hr Hs Hl. unfold ncx_visit. cbv zeta. fold (in_range depth h).
  destruct (in_range depth h); [|intros H; inversion H; subst; auto].
  specialize (Hl eq_refl).
  destruct (level h <=? n_currentLevel st).
  - destruct Hs as [H0 Hk]. destruct (Hk (level h) Hl) as [E|E]; rewrite E; [discriminate|].
    intros H. inversion H. cbn [n_root nav append]. split; [exact Hr|]. now split.
  - destruct (slot_of_level _ _ (n_currentLevel st) Hs) as [E|[E|[_ E]]]; rewrite E;
      [discriminate| |]; intros H; inversion H; cbn [n_root nav find_last append].
    + split; [exact Hr|]. now apply assign_unused.
    + rewrite Hr. split; [reflexivity|]. now apply assign_unused.
Qed.

Lemma ncx_all_unused (hs : list heading) :
  forall st st',
    n_root st = n_root ncx_init -> slots_unused (nav st) [0] ->
    Forall (fun h => in_range depth h = true -> 1 <= level h) hs ->
    ncx_all parse depth st hs = Some st' -> n_root st' = n_root ncx_init.
Proof.
  induction hs as [|h hs IH]; intros st st' Hr Hs Hf H; cbn [ncx_all] in H.
  - now inversion H; subst.
  - inversion Hf as [|? ? Hh Hf']; subst.
    destruct (ncx_visit parse depth st h) as [st1|] eqn:E; [|discriminate].
    destruct (ncx_visit_unused st st1 h Hr Hs Hh E) as [Hr1 Hs1]. eauto.
Qed.

Lemma init_slots_unused (top : path) : slots_unused (assign (fun _ => None) 0 (Some top)) top.
Proof.
  split; [reflexivity|]. intros k Hk. left. unfold assign.
  now replace (k =? 0) with false by (symmetry; apply Nat.eqb_neq; lia).
Qed.

End NoTopLevel.

(** X15. Without a heading of level 0 in range the navigation documents
    stay empty, however the markup is read: [buildToC_xhtml] and
    [buildToC_ncx] throw or return the document they started from, without
    any item.  The text that [buildToC_txt] returns still shows every
    heading in range at the depth of its level, when the titles can be read
    back from their lines. *)
Theorem no_top_level_heading_no_navigation
        (parse : string -> list node) (pages : list page) (depth : nat) :
  Forall (fun h => in_range depth h = true -> 1 <= level h) (stream pages) ->
  Forall (fun h => plain_title (title h) = true) (filter (in_range depth) (stream pages)) ->
  match buildToC_xhtml parse pages depth with
  | Some dx => dx = x_root xhtml_init /\ items "li" dx = []
  | None => True
  end /\
  match buildToC_ncx parse pages depth with
  | Some dn => dn = n_root ncx_init /\ items "navPoint" dn = []
  | None => True
  end /\
  read_txt (buildToC_txt pages depth) = map labelled (filter (in_range depth) (stream pages)).
Proof.
  intros Hf Ht. split; [|split; [|now apply read_txt_lines]].
  - unfold buildToC_xhtml. rewrite xhtml_run_stream.
    destruct (xhtml_all parse depth xhtml_init (stream pages)) as [st'|] eqn:E; [|exact I].
    cbn [option_map].
    rewrite (xhtml_all_unused parse depth (stream pages) xhtml_init st' eq_refl
               (init_slots_unused [1; 0]) Hf E).
    split; reflexivity.
  - unfold buildToC_ncx. rewrite ncx_run_stream.
    destruct (ncx_all parse depth ncx_init (stream pages)) as [st'|] eqn:E; [|exact I].
    cbn [option_map].
    rewrite (ncx_all_unused parse depth (stream pages) ncx_init st' eq_refl
               (init_slots_unused [0]) Hf E).
    split; reflexivity.
Qed.

Lemma no_top_level_heading_no_navigation_witness :
  buildToC_xhtml Samples.read_markup Examples.sub_first 6 = Some (x_root xhtml_init) /\
  buildToC_ncx Samples.read_markup Examples.sub_first 6 = Some (n_root ncx_init) /\
  read_txt (buildToC_txt Examples.sub_first 6) = [(1, Some "Background")].
Proof.
  assert (Hf : Forall (fun h => in_range 6 h = true -> 1 <= level h) (stream Examples.sub_first)).
  { repeat constructor. }
  assert (Ht : Forall (fun h => plain_title (title h) = true)
                 (filter (in_range 6) (stream Examples.sub_first))).
  { repeat constructor. }
  destruct (no_top_level_heading_no_navigation Samples.read_markup Examples.sub_first 6 Hf Ht)
    as (_ & _ & Hs).
  split; [reflexivity|]. split; [reflexivity|exact Hs].
Defined.

(** ** The manifest and the spine *)

Section OpfFacts.

Lemma string_app_inv (p a b : string) : (p ++ a)%string = (p ++ b)%string -> a = b.
Proof.
  induction p as [|c p IH]; cbn; intros H; [exact H|]. inversion H. auto.
Qed.

Lemma pad_length (digits : nat) :
  forall fuel str,
    digits <= String.length str + fuel ->
    String.length (pad fuel digits str) = Nat.max digits (String.length str).
Proof.
  induction fuel as [|fuel IH]; intros str H; cbn [pad].
  - lia.
  - destruct (String.length str <? digits) eqn:E.
    + apply Nat.ltb_lt in E. rewrite IH; change ("0" ++ str)%string with (String "0" str); cbn [String.length]; lia.
    + apply Nat.ltb_ge in E. lia.
Qed.

Lemma numeral_zero (s : string) : numeral_value (String "0" s) = numeral_value s.
Proof.
  unfold numeral_value.
  assert (H : NilEmpty.uint_of_string (String "0" s) =
              option_map Decimal.D0 (NilEmpty.uint_of_string s)).
  { simpl. destruct (NilEmpty.uint_of_string s); reflexivity. }
  rewrite H. destruct (NilEmpty.uint_of_string s) as [d|]; [|reflexivity].
  cbn [option_map]. f_equal.
Qed.

Lemma pad_value (digits : nat) :
  forall fuel str, numeral_value (pad fuel digits str) = numeral_value str.
Proof.
  induction fuel as [|fuel IH]; intros str; cbn [pad]; [reflexivity|].
  destruct (String.length str <? digits); [|reflexivity].
  rewrite IH. apply numeral_zero.
Qed.

Lemma of_nat_value (n : nat) : numeral_value (Js.of_nat n) = Some n.
Proof.
  unfold numeral_value, Js.of_nat. rewrite NilEmpty.usu. cbn [option_map].
  f_equal. apply DecimalNat.Unsigned.of_to.
Qed.

Lemma zeroPadding_number (prefix : string) (n m digits : nat) :
  zeroPadding prefix n digits = zeroPadding prefix m digits -> n = m.
Proof.
  unfold zeroPadding. intros H. apply string_app_inv in H.
  apply (f_equal numeral_value) in H. rewrite !pad_value, !of_nat_value in H.
  inversion H. lia.
Qed.

Lemma indexOf_some (x : string) :
  forall l i, indexOf x l = Some i -> nth_error l i = Some x.
Proof.
  induction l as [|y l IH]; intros i H; cbn [indexOf] in H; [discriminate|].
  destruct (String.eqb y x) eqn:E.
  - apply String.eqb_eq in E. inversion H; subst. reflexivity.
  - destruct (indexOf x l) as [j|]; [|discriminate]. inversion H; subst.
    cbn [nth_error]. auto.
Qed.

Lemma indexOf_none (x : string) :
  forall l, indexOf x l = None -> ~ In x l.
Proof.
  induction l as [|y l IH]; intros H; cbn [indexOf] in H; [intros []|].
  destruct (String.eqb y x) eqn:E; [discriminate|].
  destruct (indexOf x l) as [j|]; [discriminate|].
  apply String.eqb_neq in E. intros [Hy|Hl]; [contradiction|]. now apply IH.
Qed.

Lemma indexOf_nodup (x : string) :
  forall l i, NoDup l -> nth_error l i = Some x -> indexOf x l = Some i.
Proof.
  induction l as [|y l IH]; intros i Hn H; [destruct i; discriminate|].
  inversion Hn as [|? ? Hy Hl]; subst. cbn [indexOf]. destruct i as [|i]; cbn [nth_error] in H.
  - inversion H; subst. now rewrite String.eqb_refl.
  - destruct (String.eqb y x) eqn:E.
    + apply String.eqb_eq in E. subst. exfalso. apply Hy. eapply nth_error_In; eauto.
    + now rewrite (IH i Hl H).
Qed.

Variable mime_lookup : string -> string.

Lemma items_from_in (spine : list string) (digits : nat) :
  forall files index j href,
    nth_error files j = Some href ->
    Js.nonempty (id_of mime_lookup spine digits href (index + j)) = true ->
    In (Item (id_of mime_lookup spine digits href (index + j)) (mime_lookup href) href)
       (items_from mime_lookup spine digits index files).
Proof.
  induction files as [|f files IH]; intros index j href H Hid; [destruct j; discriminate|].
  cbn [items_from]. destruct j as [|j]; cbn [nth_error] in H.
  - inversion H; subst. rewrite Nat.add_0_r in *. rewrite Hid. now left.
  - replace (index + S j) with (S index + j) in * by lia.
    specialize (IH (S index) j href H Hid).
    destruct (Js.nonempty (id_of mime_lookup spine digits f index)); [now right|exact IH].
Qed.

Lemma items_from_inv (spine : list string) (digits : nat) :
  forall files index it,
    In it (items_from mime_lookup spine digits index files) ->
    exists j, nth_error files j = Some (item_href it) /\
              item_id it = id_of mime_lookup spine digits (item_href it) (index + j) /\
              item_type it = mime_lookup (item_href it) /\
              Js.nonempty (item_id it) = true.
Proof.
  induction files as [|f files IH]; intros index it H; cbn [items_from] in H; [destruct H|].
  assert (Hrest : In it (items_from mime_lookup spine digits (S index) files) ->
                  exists j, nth_error (f :: files) j = Some (item_href it) /\
                            item_id it = id_of mime_lookup spine digits (item_href it) (index + j) /\
                            item_type it = mime_lookup (item_href it) /\
                            Js.nonempty (item_id it) = true).
  { intros H'. destruct (IH _ _ H') as (j & Hj & Hid & Hty & Hne).
    exists (S j). replace (index + S j) with (S index + j) by lia. now repeat split. }
  destruct (Js.nonempty (id_of mime_lookup spine digits f index)) eqn:E; [|auto].
  destruct H as [H|H]; [|auto]. subst it. exists 0. cbn. rewrite Nat.add_0_r. now repeat split.
Qed.

End OpfFacts.

Section OpfManifest.

Variable mime_lookup : string -> string.

Lemma idrefs_from_nth (digits : nat) :
  forall spine index i idref,
    nth_error (idrefs_from digits index spine) i = Some idref ->
    idref = zeroPadding "page_" (index + i) digits.
Proof.
  intros sp. induction sp as [|f sp IH]; intros index i idref H; cbn [idrefs_from] in H;
    [destruct i; discriminate|].
  destruct i as [|i]; cbn [nth_error] in H.
  - inversion H. now rewrite Nat.add_0_r.
  - replace (index + S i) with (S index + i) by lia. now apply IH.
Qed.

Lemma idrefs_from_length (digits : nat) :
  forall spine index, List.length (idrefs_from digits index spine) = List.length spine.
Proof.
  intros sp. induction sp as [|f sp IH]; intros index; cbn [idrefs_from List.length]; auto.
Qed.

Lemma id_clash (spine : list string) (digits : nat) (h1 h2 : string) (k1 k2 : nat) :
  id_of mime_lookup spine digits h1 k1 = id_of mime_lookup spine digits h2 k2 ->
  Js.nonempty (id_of mime_lookup spine digits h1 k1) = true ->
  h1 = h2 \/ k1 = k2 \/
  (counts_as_ncx mime_lookup spine h1 = true /\ counts_as_ncx mime_lookup spine h2 = true).
Proof.
  unfold id_of, counts_as_ncx.
  destruct (indexOf h1 spine) as [i1|] eqn:E1; destruct (indexOf h2 spine) as [i2|] eqn:E2.
  - intros H _. apply zeroPadding_number in H. subst i2.
    apply indexOf_some in E1. apply indexOf_some in E2. left. congruence.
  - destruct (String.eqb (mime_lookup h2) ncx_type);
      [|destruct (negb (String.eqb (mime_lookup h2) opf_type))]; intros H _; discriminate H.
  - destruct (String.eqb (mime_lookup h1) ncx_type);
      [|destruct (negb (String.eqb (mime_lookup h1) opf_type))]; intros H Hne;
      try discriminate H; discriminate Hne.
  - destruct (String.eqb (mime_lookup h1) ncx_type);
      [|destruct (negb (String.eqb (mime_lookup h1) opf_type))];
      (destruct (String.eqb (mime_lookup h2) ncx_type);
       [|destruct (negb (String.eqb (mime_lookup h2) opf_type))]);
      intros H Hne; try discriminate H; try discriminate Hne.
    + right. right. split; reflexivity.
    + apply zeroPadding_number in H. right. left. exact H.
Qed.

Lemma ncx_count_two (spine : list string) (h : string) :
  forall files href,
    counts_as_ncx mime_lookup spine h = true ->
    In href files -> counts_as_ncx mime_lookup spine href = true ->
    2 <= ncx_count mime_lookup spine (h :: files).
Proof.
  intros files href Hh Hin Hc. unfold ncx_count. cbn [filter]. rewrite Hh. cbn [List.length].
  assert (Hf : In href (filter (counts_as_ncx mime_lookup spine) files))
    by (apply filter_In; auto).
  destruct (filter (counts_as_ncx mime_lookup spine) files); [destruct Hf|cbn; lia].
Qed.

Lemma ncx_count_tail (spine : list string) (h : string) (files : list string) :
  ncx_count mime_lookup spine files <= ncx_count mime_lookup spine (h :: files).
Proof.
  unfold ncx_count. cbn [filter].
  destruct (counts_as_ncx mime_lookup spine h); cbn [List.length]; lia.
Qed.

Lemma items_from_ids_unique (spine : list string) (digits : nat) :
  forall files index,
    NoDup files -> ncx_count mime_lookup spine files <= 1 ->
    NoDup (map item_id (items_from mime_lookup spine digits index files)).
Proof.
  induction files as [|f files IH]; intros index Hn Hc; cbn [items_from]; [constructor|].
  inversion Hn as [|? ? Hf Hn']; subst.
  pose proof (ncx_count_tail spine f files) as Ht.
  assert (Hrest : NoDup (map item_id (items_from mime_lookup spine digits (S index) files)))
    by (apply IH; [assumption|lia]).
  destruct (Js.nonempty (id_of mime_lookup spine digits f index)) eqn:E; [|exact Hrest].
  cbn [map item_id]. constructor; [|exact Hrest].
  intros Hin. apply in_map_iff in Hin. destruct Hin as (it & Hid & Hit).
  destruct (items_from_inv mime_lookup spine digits files (S index) it Hit)
    as (j & Hj & Hid' & _ & _).
  rewrite Hid' in Hid. symmetry in Hid.
  destruct (id_clash spine digits _ _ _ _ Hid E) as [H|[H|[H1 H2]]].
  - apply Hf. rewrite H. eapply nth_error_In; eauto.
  - lia.
  - pose proof (ncx_count_two spine f files (item_href it) H1
                  (nth_error_In _ _ Hj) H2). lia.
Qed.

Lemma page_item_in (spine files : list string) (digits i : nat) (pageHref : string) :
  NoDup spine ->
  In pageHref files ->
  nth_error spine i = Some pageHref ->
  In (Item (zeroPadding "page_" i digits) (mime_lookup pageHref) pageHref)
     (items_from mime_lookup spine digits 0 files).
Proof.
  intros Hn Hin Hi. apply In_nth_error in Hin. destruct Hin as [j Hj].
  pose proof (indexOf_nodup pageHref spine i Hn Hi) as Hix.
  assert (Hid : id_of mime_lookup spine digits pageHref (0 + j) =
                zeroPadding "page_" i digits)
    by (unfold id_of; now rewrite Hix).
  rewrite <- Hid. apply items_from_in; [exact Hj|]. rewrite Hid. reflexivity.
Qed.

End OpfManifest.

(** X16. [zeroPadding] returns the prefix followed by the decimal numeral
    of [number + 1] with zeros in front: the numeral part is [digits] long,
    or as long as the number needs when that is more, and it reads back as
    [number + 1]. *)
Theorem zero_padded_numeral (prefix : string) (number digits : nat) :
  exists body,
    zeroPadding prefix number digits = (prefix ++ body)%string /\
    String.length body = Nat.max digits (String.length (Js.of_nat (number + 1))) /\
    numeral_value body = Some (number + 1).
Proof.
  exists (pad digits digits (Js.of_nat (number + 1))). split; [reflexivity|]. split.
  - apply pad_length. lia.
  - rewrite pad_value. apply of_nat_value.
Qed.

(** X17. When no file is listed twice in the spine and every spine file is
    among the files of the book, each [itemref] of the spine points to the
    manifest item of its own file: the [idref] computed for spine position
    [i] is the [id] of the item whose [href] is the file at position [i]. *)
Theorem itemrefs_point_to_their_files
        (mime_lookup : string -> string) (spine files : list string)
        (i : nat) (pageHref idref : string) :
  NoDup spine ->
  incl spine files ->
  nth_error spine i = Some pageHref ->
  nth_error (spine_idrefs spine files) i = Some idref ->
  In (Item idref (mime_lookup pageHref) pageHref) (manifest_items mime_lookup spine files).
Proof.
  intros Hn Hincl Hi Hr. unfold spine_idrefs in Hr. unfold manifest_items.
  apply idrefs_from_nth in Hr. cbn [Nat.add] in Hr. subst idref.
  apply page_item_in; [exact Hn| |exact Hi].
  apply Hincl. eapply nth_error_In; eauto.
Qed.

Lemma itemrefs_point_to_their_files_witness :
  In (Item "page_2" "application/xhtml+xml" "b.xhtml")
     (manifest_items Samples.mime_of ["a.xhtml"; "b.xhtml"]
        ["a.xhtml"; "b.xhtml"; "cover.png"; "toc.ncx"]).
Proof.
  apply (itemrefs_point_to_their_files Samples.mime_of ["a.xhtml"; "b.xhtml"]
           ["a.xhtml"; "b.xhtml"; "cover.png"; "toc.ncx"] 1 "b.xhtml" "page_2").
  - repeat constructor; cbn; intuition discriminate.
  - intros x Hx. cbn in *. intuition.
  - reflexivity.
  - reflexivity.
Defined.

(** X18. When the files of the book are pairwise distinct and
    [buildOPF_manifest_spine] returns without the warning about several NCX
    files, no two items of the manifest have the same [id]. *)
Theorem manifest_ids_are_unique
        (findFilesSync : string -> option (list string))
        (mime_lookup : string -> string) (sort : list string -> list string)
        (basedir : string) (spine : list string) (generatedFiles : option (list string))
        (found : list string) (out : string) :
  findFilesSync basedir = Some found ->
  NoDup (all_files found generatedFiles) ->
  buildOPF_manifest_spine findFilesSync mime_lookup sort basedir spine generatedFiles
    = Done out [] ->
  NoDup (map item_id (manifest_items mime_lookup spine (all_files found generatedFiles))).
Proof.
  intros Hfound Hn Hb. unfold buildOPF_manifest_spine in Hb. rewrite Hfound in Hb.
  cbv zeta in Hb.
  destruct (1 <? ncx_count mime_lookup spine (all_files found generatedFiles)) eqn:E;
    [discriminate|].
  apply Nat.ltb_ge in E. unfold manifest_items. now apply items_from_ids_unique.
Qed.

Lemma manifest_ids_are_unique_witness :
  NoDup (map item_id
           (manifest_items Samples.mime_of ["a.xhtml"]
              (all_files ["a.xhtml"; "cover.png"] (Some ["toc.ncx"; "content.opf"])))).
Proof.
  eapply (manifest_ids_are_unique (fun _ => Some ["a.xhtml"; "cover.png"]) Samples.mime_of
            (fun l => l) "book" ["a.xhtml"] (Some ["toc.ncx"; "content.opf"])).
  - reflexivity.
  - repeat constructor; cbn; intuition discriminate.
  - reflexivity.
Defined.

(** ** The command line *)

Section ArgsFacts.

Lemma cut_tail_app (rest : string) :
  one_line rest = true ->
  forall k, no_equals k = true -> cut_tail (k ++ "=" ++ rest) = k.
Proof.
  intros Hr. induction k as [|c k IH]; intros Hk.
  - cbn. now rewrite Hr.
  - cbn [no_equals] in Hk. apply andb_true_iff in Hk. destruct Hk as [Hc Hk].
    change (String c k ++ "=" ++ rest)%string with (String c (k ++ "=" ++ rest)).
    cbn [cut_tail]. apply negb_true_iff in Hc. rewrite Hc. cbn [andb].
    now rewrite IH.
Qed.

Lemma cut_tail_none : forall s, no_equals s = true -> cut_tail s = s.
Proof.
  induction s as [|c s IH]; intros H; [reflexivity|].
  cbn [no_equals] in H. apply andb_true_iff in H. destruct H as [Hc Hs].
  cbn [cut_tail]. apply negb_true_iff in Hc. rewrite Hc. cbn [andb]. now rewrite IH.
Qed.

Lemma after_last_equals_none : forall s, no_equals s = true -> after_last_equals s = None.
Proof.
  induction s as [|c s IH]; intros H; [reflexivity|].
  cbn [no_equals] in H. apply andb_true_iff in H. destruct H as [Hc Hs].
  cbn [after_last_equals]. rewrite (IH Hs). apply negb_true_iff in Hc. rewrite Hc.
  now destruct (is_line_end c).
Qed.

Lemma after_last_equals_app (v : string) :
  no_equals v = true ->
  forall a, one_line a = true -> after_last_equals (a ++ "=" ++ v) = Some v.
Proof.
  intros Hv. induction a as [|c a IH]; intros Ha.
  - cbn. now rewrite (after_last_equals_none v Hv).
  - cbn [one_line] in Ha. apply andb_true_iff in Ha. destruct Ha as [Hc Ha].
    change (String c a ++ "=" ++ v)%string with (String c (a ++ "=" ++ v)).
    cbn [after_last_equals]. apply negb_true_iff in Hc. rewrite Hc. now rewrite IH.
Qed.

Lemma one_line_app (a b : string) :
  one_line (a ++ b) = one_line a && one_line b.
Proof.
  induction a as [|c a IH]; [reflexivity|]. cbn. rewrite IH. apply andb_assoc.
Qed.

Lemma strip_dashes_cases (s : string) :
  strip_dashes s = s \/ s = String "-" (String "-" (strip_dashes s)).
Proof.
  destruct s as [|a [|b r]]; [left; reflexivity| |].
  - left. destruct a as [[] [] [] [] [] [] [] []]; reflexivity.
  - destruct a as [[] [] [] [] [] [] [] []]; try (left; reflexivity);
      destruct b as [[] [] [] [] [] [] [] []]; try (left; reflexivity).
    right. reflexivity.
Qed.

Lemma own_define (name other : string) (val : setting) :
  forall obj,
    own other (define name val obj) =
    if String.eqb name other then Some val else own other obj.
Proof.
  induction obj as [|[k v] obj IH]; cbn [define own].
  - reflexivity.
  - destruct (String.eqb k name) eqn:E.
    + apply String.eqb_eq in E. subst k. cbn [own]. now destruct (String.eqb name other).
    + cbn [own]. rewrite IH. destruct (String.eqb k other) eqn:E'; [|reflexivity].
      apply String.eqb_eq in E'. subst k. now rewrite String.eqb_sym, E.
Qed.

Lemma argv_snoc (args : list string) (arg : string) :
  argv (args ++ [arg]) = assign_property (arg_name arg) (arg_value arg) (argv args).
Proof.
  unfold argv. now rewrite fold_left_app.
Qed.

Lemma argv_no_proto : forall args, own "__proto__" (argv args) = None.
Proof.
  intros args. induction args as [|arg args IH] using rev_ind; [reflexivity|].
  rewrite argv_snoc. unfold assign_property.
  destruct (String.eqb (arg_name arg) "__proto__") eqn:E; [exact IH|].
  rewrite own_define, E. exact IH.
Qed.

End ArgsFacts.

(** X19. An argument [--name=value] whose name has no [=] and whose name
    and value have no line break gives back the name, and the value when it
    has no [=] either; an empty value is read as [true]. *)
Theorem named_argument_round_trip (name value : string) :
  no_equals name = true -> one_line name = true ->
  no_equals value = true -> one_line value = true ->
  arg_name ("--" ++ name ++ "=" ++ value) = name /\
  arg_value ("--" ++ name ++ "=" ++ value) = or_true value.
Proof.
  intros Hn Hl Hv Hlv. split.
  - unfold arg_name. change (strip_dashes ("--" ++ name ++ "=" ++ value))
      with (name ++ "=" ++ value)%string. now apply cut_tail_app.
  - unfold arg_value.
    change ("--" ++ name ++ "=" ++ value)%string with (("--" ++ name) ++ "=" ++ value)%string.
    rewrite (after_last_equals_app value Hv); [reflexivity|].
    rewrite one_line_app. now rewrite Hl.
Qed.

Lemma named_argument_round_trip_witness :
  arg_name "--format=json" = "format" /\ arg_value "--format=json" = Str "json".
Proof.
  apply (named_argument_round_trip "format" "json"); reflexivity.
Defined.

(** X20. Of a value that contains [=] only the part after its last [=]
    arrives: [--name=lost=kept] is read as the name with the value [kept],
    and as [true] when nothing follows the last [=]. *)
Theorem value_is_cut_at_its_last_equals (name lost kept : string) :
  no_equals name = true -> one_line name = true ->
  one_line lost = true ->
  no_equals kept = true -> one_line kept = true ->
  arg_name ("--" ++ name ++ "=" ++ lost ++ "=" ++ kept) = name /\
  arg_value ("--" ++ name ++ "=" ++ lost ++ "=" ++ kept) = or_true kept.
Proof.
  intros Hn Hl Hlost Hk Hlk. split.
  - unfold arg_name. change (strip_dashes ("--" ++ name ++ "=" ++ lost ++ "=" ++ kept))
      with (name ++ "=" ++ lost ++ "=" ++ kept)%string.
    apply cut_tail_app; [|exact Hn].
    rewrite one_line_app, Hlost. change ("=" ++ kept)%string with (String "=" kept).
    cbn [one_line andb]. now rewrite Hlk.
  - unfold arg_value.
    replace ("--" ++ name ++ "=" ++ lost ++ "=" ++ kept)%string
      with ((("--" ++ name) ++ "=" ++ lost) ++ "=" ++ kept)%string
      by (now rewrite !string_app_assoc).
    rewrite (after_last_equals_app kept Hk); [reflexivity|].
    rewrite !one_line_app, Hl, Hlost. reflexivity.
Qed.

Lemma value_is_cut_at_its_last_equals_witness :
  arg_name "--identifier=isbn=12345" = "identifier" /\
  arg_value "--identifier=isbn=12345" = Str "12345".
Proof.
  apply (value_is_cut_at_its_last_equals "identifier" "isbn" "12345"); reflexivity.
Defined.

(** X21. An argument without [=] is stored under its own text less two
    leading dashes, and its value is its whole text, dashes included, not
    [true]; only the empty argument gives [true]. *)
Theorem bare_argument_is_its_own_value (arg : string) :
  no_equals arg = true ->
  arg_name arg = strip_dashes arg /\ arg_value arg = or_true arg.
Proof.
  intros H. split.
  - unfold arg_name. apply cut_tail_none.
    destruct (strip_dashes_cases arg) as [E|E]; [now rewrite E|].
    rewrite E in H. exact H.
  - unfold arg_value. now rewrite (after_last_equals_none arg H).
Qed.

Lemma bare_argument_is_its_own_value_witness :
  arg_name "--keepAllHeadings" = "keepAllHeadings" /\
  arg_value "--keepAllHeadings" = Str "--keepAllHeadings".
Proof.
  apply (bare_argument_is_its_own_value "--keepAllHeadings"). reflexivity.
Defined.

(** X22. The last argument of a name decides: after one more argument
    [argv] holds that argument's value under its name and keeps every other
    property, and an argument named [__proto__] changes nothing, so that
    [argv] never has a property of that name. *)
Theorem last_argument_wins (args : list string) (arg : string) :
  (if String.eqb (arg_name arg) "__proto__"
   then argv (args ++ [arg]) = argv args
   else own (arg_name arg) (argv (args ++ [arg])) = Some (arg_value arg)) /\
  (forall other, String.eqb (arg_name arg) other = false ->
                 own other (argv (args ++ [arg])) = own other (argv args)) /\
  own "__proto__" (argv (args ++ [arg])) = None.
Proof.
  split; [|split].
  - rewrite argv_snoc. unfold assign_property.
    destruct (String.eqb (arg_name arg) "__proto__"); [reflexivity|].
    now rewrite own_define, String.eqb_refl.
  - intros other H. rewrite argv_snoc. unfold assign_property.
    destruct (String.eqb (arg_name arg) "__proto__"); [reflexivity|].
    now rewrite own_define, H.
  - apply argv_no_proto.
Qed.

(** ** The files of the book *)

Section FilesFacts.

Lemma treeWalkSync_rel (filter : option (string -> bool)) (entries : listing) :
  forall d rel,
    treeWalkSync filter (d ++ rel) entries =
    map (String.append d) (treeWalkSync filter rel entries).
Proof.
  induction entries as [|e IHe rest IHrest|name|name content IHc]
    using listing_dirent_ind
    with (P0 := fun e => forall d rel,
                  match e with
                  | Directory name content =>
                      treeWalkSync filter ((d ++ rel) ++ name ++ "/") content =
                      map (String.append d) (treeWalkSync filter (rel ++ name ++ "/") content)
                  | Other name => True
                  end).
  - reflexivity.
  - intros d rel. cbn [treeWalkSync]. rewrite map_app, <- IHrest. f_equal.
    destruct e as [name|name content].
    + destruct (passes filter name); [|reflexivity]. cbn [map].
      now rewrite string_app_assoc.
    + apply IHe.
  - exact (fun _ _ => I).
  - intros d rel. rewrite string_app_assoc. apply IHc.
Qed.

Lemma treeWalkSync_below (filter : option (string -> bool)) (rel : string) (entries : listing) :
  treeWalkSync filter rel entries = map (String.append rel) (treeWalkSync filter "" entries).
Proof.
  rewrite <- treeWalkSync_rel. now rewrite string_app_nil_r.
Qed.

Lemma first_component_app (name rest : string) :
  no_slash name = true ->
  first_component (name ++ "/" ++ rest) = name.
Proof.
  induction name as [|c name IH]; intros H; [reflexivity|].
  cbn [no_slash] in H. apply andb_true_iff in H. destruct H as [Hc Hn].
  change (String c name ++ "/" ++ rest)%string with (String c (name ++ "/" ++ rest)).
  cbn [first_component]. apply negb_true_iff in Hc. rewrite Hc. now rewrite IH.
Qed.

Lemma first_component_whole : forall name, no_slash name = true -> first_component name = name.
Proof.
  induction name as [|c name IH]; intros H; [reflexivity|].
  cbn [no_slash] in H. apply andb_true_iff in H. destruct H as [Hc Hn].
  cbn [first_component]. apply negb_true_iff in Hc. rewrite Hc. now rewrite IH.
Qed.

Lemma after_last_slash_none : forall s, no_slash s = true -> after_last_slash s = None.
Proof.
  induction s as [|c s IH]; intros H; [reflexivity|].
  cbn [no_slash] in H. apply andb_true_iff in H. destruct H as [Hc Hs].
  cbn [after_last_slash]. rewrite (IH Hs). apply negb_true_iff in Hc. now rewrite Hc.
Qed.

Lemma after_last_slash_app (name : string) :
  no_slash name = true ->
  forall x, after_last_slash (x ++ "/" ++ name) = Some name.
Proof.
  intros Hn. induction x as [|c x IH].
  - cbn. now rewrite (after_last_slash_none name Hn).
  - change (String c x ++ "/" ++ name)%string with (String c (x ++ "/" ++ name)).
    cbn [after_last_slash]. now rewrite IH.
Qed.

Lemma basename_in_dir (rel name : string) :
  dir_path rel -> no_slash name = true -> basename (rel ++ name) = name.
Proof.
  intros [->|[x ->]] Hn; unfold basename.
  - cbn. now rewrite (after_last_slash_none name Hn).
  - rewrite string_app_assoc. now rewrite (after_last_slash_app name Hn).
Qed.

Lemma dir_path_step (rel name : string) : dir_path (rel ++ name ++ "/").
Proof.
  right. exists (rel ++ name)%string. now rewrite string_app_assoc.
Qed.

Lemma treeWalkSync_filter (test : string -> bool) (entries : listing) :
  forall rel,
    dir_path rel -> well_named entries = true ->
    treeWalkSync (Some test) rel entries =
    filter (fun p => test (basename p)) (treeWalkSync None rel entries).
Proof.
  induction entries as [|e IHe rest IHrest|name|name content IHc]
    using listing_dirent_ind
    with (P0 := fun e => forall rel,
                  match e with
                  | Directory name content =>
                      dir_path rel -> well_named content = true ->
                      treeWalkSync (Some test) rel content =
                      filter (fun p => test (basename p)) (treeWalkSync None rel content)
                  | Other name => True
                  end).
  - reflexivity.
  - intros rel Hrel H. cbn [well_named] in H.
    apply andb_true_iff in H. destruct H as [H Hrest].
    apply andb_true_iff in H. destruct H as [H Hc].
    apply andb_true_iff in H. destruct H as [Hn _].
    cbn [treeWalkSync]. rewrite filter_app, <- (IHrest rel Hrel Hrest). f_equal.
    destruct e as [name|name content]; cbn [name_of] in Hn.
    + cbn [passes filter]. rewrite (basename_in_dir rel name Hrel Hn).
      now destruct (test name).
    + apply IHe; [apply dir_path_step|exact Hc].
  - exact (fun _ => I).
  - intros rel. apply IHc.
Qed.

Lemma names_first_component (filter : option (string -> bool)) (entries : listing) :
  well_named entries = true ->
  forall p, In p (treeWalkSync filter "" entries) -> In (first_component p) (names entries).
Proof.
  induction entries as [|e rest IH]; intros H p Hp; [destruct Hp|].
  cbn [well_named] in H.
  apply andb_true_iff in H. destruct H as [H Hrest].
  apply andb_true_iff in H. destruct H as [H Hc].
  apply andb_true_iff in H. destruct H as [Hn _].
  cbn [treeWalkSync] in Hp. apply in_app_or in Hp. cbn [names].
  destruct Hp as [Hp|Hp]; [left|right; now apply IH].
  destruct e as [name|name content]; cbn [name_of] in *.
  - destruct (passes filter name); [|destruct Hp].
    destruct Hp as [<-|[]]. cbn. symmetry. now apply first_component_whole.
  - rewrite treeWalkSync_below in Hp. apply in_map_iff in Hp.
    destruct Hp as (x & <- & _). cbn [String.append]. rewrite string_app_assoc.
    symmetry. now apply first_component_app.
Qed.

Lemma NoDup_map_append (d : string) (l : list string) :
  NoDup l -> NoDup (map (String.append d) l).
Proof.
  induction 1 as [|x l Hx Hl IH]; cbn [map]; constructor; [|exact IH].
  intros Hin. apply in_map_iff in Hin. destruct Hin as (y & Hy & Hin).
  apply string_app_inv in Hy. now subst y.
Qed.

Lemma NoDup_append (l1 l2 : list string) :
  NoDup l1 -> NoDup l2 -> (forall x, In x l1 -> ~ In x l2) -> NoDup (l1 ++ l2).
Proof.
  induction 1 as [|x l Hx Hl IH]; intros H2 Hd; [exact H2|].
  cbn [app]. constructor.
  - intros Hin. apply in_app_or in Hin. destruct Hin as [Hin|Hin]; [contradiction|].
    apply (Hd x); [now left|exact Hin].
  - apply IH; [exact H2|]. intros y Hy. apply Hd. now right.
Qed.

Lemma treeWalkSync_NoDup (filter : option (string -> bool)) (entries : listing) :
  well_named entries = true -> NoDup (treeWalkSync filter "" entries).
Proof.
  induction entries as [|e IHe rest IHrest|name|name content IHc]
    using listing_dirent_ind
    with (P0 := fun e => match e with
                         | Directory name content =>
                             well_named content = true ->
                             NoDup (treeWalkSync filter "" content)
                         | Other name => True
                         end).
  - constructor.
  - intros H. pose proof (names_first_component filter (Next e rest) H) as Hfirst.
    cbn [well_named] in H.
    apply andb_true_iff in H. destruct H as [H Hrest].
    apply andb_true_iff in H. destruct H as [H Hc].
    apply andb_true_iff in H. destruct H as [Hn Hfresh].
    apply negb_true_iff in Hfresh.
    cbn [treeWalkSync]. apply NoDup_append; [|now apply IHrest|].
    + destruct e as [name|name content].
      * destruct (passes filter name); repeat constructor. intros [].
      * rewrite treeWalkSync_below. apply NoDup_map_append. now apply IHe.
    + intros p Hp Hq.
      assert (Hhead : first_component p = name_of e).
      { destruct e as [name|name content]; cbn [name_of] in *.
        - destruct (passes filter name); [|destruct Hp].
          destruct Hp as [<-|[]]. cbn. now apply first_component_whole.
        - rewrite treeWalkSync_below in Hp. apply in_map_iff in Hp.
          destruct Hp as (x & <- & _). cbn [String.append]. rewrite string_app_assoc.
          now apply first_component_app. }
      pose proof (names_first_component filter rest Hrest p Hq) as Hin.
      rewrite Hhead in Hin.
      assert (Hex : existsb (String.eqb (name_of e)) (names rest) = true).
      { apply existsb_exists. exists (name_of e). split; [exact Hin|apply String.eqb_refl]. }
      congruence.
  - exact I.
  - exact IHc.
Qed.

End FilesFacts.

(** X23. The filter of [findFilesSync] looks at the name of an entry
    only, and never at a directory: with a filter the function returns the
    files it returns without one whose last path component passes the test,
    in the same order. *)
Theorem filter_selects_by_entry_name
        (disk : string -> option listing) (basedir : string) (test : string -> bool)
        (entries : listing) :
  disk basedir = Some entries ->
  well_named entries = true ->
  exists files,
    findFilesSync disk basedir None = Some files /\
    findFilesSync disk basedir (Some test) =
    Some (filter (fun p => test (basename p)) files).
Proof.
  intros Hd Hw. exists (treeWalkSync None "" entries). unfold findFilesSync.
  rewrite Hd. cbn [option_map]. split; [reflexivity|]. f_equal.
  apply treeWalkSync_filter; [now left|exact Hw].
Qed.

Lemma filter_selects_by_entry_name_witness :
  exists files,
    findFilesSync Samples.book_disk "book" None = Some files /\
    findFilesSync Samples.book_disk "book" (Some html_test) =
    Some (filter (fun p => html_test (basename p)) files).
Proof.
  apply (filter_selects_by_entry_name Samples.book_disk "book" html_test Samples.book_listing);
    reflexivity.
Defined.

(** X24. No file is found twice: when the names in every directory are
    pairwise distinct, the paths that [findFilesSync] returns are pairwise
    distinct, with or without filter. *)
Theorem no_file_is_found_twice
        (disk : string -> option listing) (basedir : string)
        (filter : option (string -> bool)) (entries : listing) (files : list string) :
  disk basedir = Some entries ->
  well_named entries = true ->
  findFilesSync disk basedir filter = Some files ->
  NoDup files.
Proof.
  intros Hd Hw Hf. unfold findFilesSync in Hf. rewrite Hd in Hf. cbn [option_map] in Hf.
  inversion Hf; subst files. now apply treeWalkSync_NoDup.
Qed.

Lemma no_file_is_found_twice_witness :
  NoDup ["a.xhtml"; "img/cover.png"; "part/b.html"; "part/notes.txt"].
Proof.
  apply (no_file_is_found_twice Samples.book_disk "book" None Samples.book_listing);
    reflexivity.
Defined.

(** X25. With the spine that [parseArgsSync] finds when none is
    configured, the package document is consistent: as long as the files
    below [basedir] stay as they are, every [itemref] of the spine points to
    the manifest item of its own page. *)
Theorem found_pages_have_their_items
        (disk : string -> option listing) (mime_lookup : string -> string)
        (basedir : string) (entries : listing) (spine found : list string)
        (generatedFiles : option (list string))
        (i : nat) (pageHref idref : string) :
  disk basedir = Some entries ->
  well_named entries = true ->
  found_pages disk basedir = Some spine ->
  findFilesSync disk basedir None = Some found ->
  nth_error spine i = Some pageHref ->
  nth_error (spine_idrefs spine (all_files found generatedFiles)) i = Some idref ->
  In (Item idref (mime_lookup pageHref) pageHref)
     (manifest_items mime_lookup spine (all_files found generatedFiles)).
Proof.
  intros Hd Hw Hs Hf Hi Hr. unfold found_pages, findFilesSync in Hs, Hf.
  rewrite Hd in Hs, Hf. cbn [option_map] in Hs, Hf.
  inversion Hs; subst spine. inversion Hf; subst found. clear Hs Hf.
  unfold spine_idrefs in Hr. apply idrefs_from_nth in Hr. cbn [Nat.add] in Hr. subst idref.
  unfold manifest_items. apply page_item_in; [now apply treeWalkSync_NoDup| |exact Hi].
  unfold all_files. apply in_or_app. left.
  apply nth_error_In in Hi.
  rewrite (treeWalkSync_filter html_test entries "" (or_introl eq_refl) Hw) in Hi.
  apply filter_In in Hi. exact (proj1 Hi).
Qed.

Lemma found_pages_have_their_items_witness :
  In (Item "page_2" "application/xhtml+xml" "part/b.html")
     (manifest_items Samples.mime_of ["a.xhtml"; "part/b.html"]
        (all_files ["a.xhtml"; "img/cover.png"; "part/b.html"; "part/notes.txt"]
           (Some ["toc.xhtml"; "toc.ncx"]))).
Proof.
  apply (found_pages_have_their_items Samples.book_disk Samples.mime_of "book"
           Samples.book_listing ["a.xhtml"; "part/b.html"]
           ["a.xhtml"; "img/cover.png"; "part/b.html"; "part/notes.txt"]
           (Some ["toc.xhtml"; "toc.ncx"]) 1 "part/b.html" "page_2"); reflexivity.
Defined.

(** ** The package document of an archive *)

Section EpubFacts.

Variable mime_lookup : string -> string.

Lemma id_of_listed (spine : list string) (digits : nat) (pageHref : string) (index : nat) :
  Js.nonempty (id_of mime_lookup spine digits pageHref index) = listed mime_lookup spine pageHref.
Proof.
  unfold id_of, listed. destruct (indexOf pageHref spine); [reflexivity|].
  destruct (String.eqb (mime_lookup pageHref) ncx_type) eqn:E.
  - apply String.eqb_eq in E. rewrite E. reflexivity.
  - destruct (String.eqb (mime_lookup pageHref) opf_type); reflexivity.
Qed.

Lemma items_from_files (spine : list string) (digits : nat) :
  forall files index,
    map (fun it => (item_href it, item_type it))
        (items_from mime_lookup spine digits index files) =
    map (fun f => (f, mime_lookup f)) (filter (listed mime_lookup spine) files).
Proof.
  induction files as [|f files IH]; intros index; [reflexivity|].
  cbn [items_from filter]. rewrite id_of_listed.
  destruct (listed mime_lookup spine f); cbn [map item_href item_type]; now rewrite IH.
Qed.

Lemma tocFiles_new (fileExists : string -> bool) (f : string) :
  In f (tocFiles fileExists) -> fileExists f = false /\ first_component f = f.
Proof.
  unfold tocFiles. intros H. apply in_app_or in H. destruct H as [H|H].
  - destruct (fileExists "toc.xhtml") eqn:E; [destruct H|].
    destruct H as [<-|[]]. now split.
  - destruct (fileExists "toc.ncx") eqn:E; [destruct H|].
    destruct H as [<-|[]]. now split.
Qed.

Lemma tocFiles_NoDup (fileExists : string -> bool) : NoDup (tocFiles fileExists).
Proof.
  unfold tocFiles.
  destruct (fileExists "toc.xhtml"), (fileExists "toc.ncx"); cbn [app];
    repeat constructor; cbn; intuition discriminate.
Qed.

End EpubFacts.

(** X26. The manifest that [buildOPF_manifest_spine] returns is complete
    and has nothing else.  Its item lines are, in the order that [sort]
    leaves them in, the lines of the items, and the items are, in the order
    of the files, the files that are pages of the spine or are not package
    documents, each with its own [href] and media type. *)
Theorem manifest_lists_the_files
        (findFilesSync : string -> option (list string))
        (mime_lookup : string -> string) (sort : list string -> list string)
        (basedir : string) (spine : list string) (generatedFiles : option (list string))
        (found : list string) :
  (forall l, Permutation (sort l) l) ->
  findFilesSync basedir = Some found ->
  exists lines err,
    buildOPF_manifest_spine findFilesSync mime_lookup sort basedir spine generatedFiles =
    Done (manifest_text lines ++
          spine_text (ncx_count mime_lookup spine (all_files found generatedFiles))
                     (digits_for (all_files found generatedFiles)) spine)%string err /\
    Permutation lines
      (map render_item (manifest_items mime_lookup spine (all_files found generatedFiles))) /\
    map (fun it => (item_href it, item_type it))
        (manifest_items mime_lookup spine (all_files found generatedFiles)) =
    map (fun f => (f, mime_lookup f))
        (filter (listed mime_lookup spine) (all_files found generatedFiles)).
Proof.
  intros Hsort Hfound.
  exists (sort (map render_item
                  (manifest_items mime_lookup spine (all_files found generatedFiles)))).
  unfold buildOPF_manifest_spine. rewrite Hfound. cbv zeta.
  eexists. split; [reflexivity|]. split; [apply Hsort|].
  unfold manifest_items. apply items_from_files.
Qed.

Lemma sort_strings_permutation (l : list string) : Permutation (Samples.sort_strings l) l.
Proof.
  assert (Hi : forall x l, Permutation (Samples.insert_sorted x l) (x :: l)).
  { intros x l0. induction l0 as [|y l0 IH]; cbn [Samples.insert_sorted]; [reflexivity|].
    destruct (String.leb x y); [reflexivity|].
    rewrite IH. apply perm_swap. }
  induction l as [|x l IH]; [reflexivity|].
  unfold Samples.sort_strings in *. cbn [fold_right]. rewrite Hi. now apply perm_skip.
Qed.

Lemma manifest_lists_the_files_witness :
  exists lines err,
    buildOPF_manifest_spine (fun _ => Some ["toc.ncx"; "a.xhtml"; "content.opf"])
      Samples.mime_of Samples.sort_strings "book" ["a.xhtml"] None =
    Done (manifest_text lines ++ spine_text 1 1 ["a.xhtml"])%string err /\
    Permutation lines
      (map render_item
         (manifest_items Samples.mime_of ["a.xhtml"] ["toc.ncx"; "a.xhtml"; "content.opf"])) /\
    map (fun it => (item_href it, item_type it))
        (manifest_items Samples.mime_of ["a.xhtml"] ["toc.ncx"; "a.xhtml"; "content.opf"]) =
    [("toc.ncx", ncx_type); ("a.xhtml", "application/xhtml+xml")].
Proof.
  apply (manifest_lists_the_files (fun _ => Some ["toc.ncx"; "a.xhtml"; "content.opf"])
           Samples.mime_of Samples.sort_strings "book" ["a.xhtml"] None
           ["toc.ncx"; "a.xhtml"; "content.opf"]).
  - apply sort_strings_permutation.
  - reflexivity.
Defined.

(** X27. The package document that [makeEPUB] asks for lists no file
    twice: when [existsSync] knows every entry of [basedir], the table of
    contents files that are generated are not among the files found, so the
    files and the [href]s of the manifest are pairwise distinct. *)
Theorem generated_files_are_new
        (disk : string -> option listing) (fileExists : string -> bool)
        (mime_lookup : string -> string)
        (basedir : string) (entries : listing) (spine found : list string) :
  disk basedir = Some entries ->
  well_named entries = true ->
  (forall name, In name (names entries) -> fileExists name = true) ->
  findFilesSync disk basedir None = Some found ->
  NoDup (all_files found (Some (tocFiles fileExists))) /\
  NoDup (map item_href
           (manifest_items mime_lookup spine (all_files found (Some (tocFiles fileExists))))).
Proof.
  intros Hd Hw Hex Hf. unfold findFilesSync in Hf. rewrite Hd in Hf. cbn [option_map] in Hf.
  inversion Hf; subst found. clear Hf.
  assert (Hn : NoDup (all_files (treeWalkSync None "" entries) (Some (tocFiles fileExists)))).
  { unfold all_files. apply NoDup_append;
      [now apply treeWalkSync_NoDup|apply tocFiles_NoDup|].
    intros f Hfound Hgen. destruct (tocFiles_new fileExists f Hgen) as [Hno Hfirst].
    pose proof (names_first_component None entries Hw f Hfound) as Hin.
    rewrite Hfirst in Hin. rewrite (Hex f Hin) in Hno. discriminate. }
  split; [exact Hn|].
  assert (E : map item_href
                (manifest_items mime_lookup spine
                   (all_files (treeWalkSync None "" entries) (Some (tocFiles fileExists)))) =
              filter (listed mime_lookup spine)
                (all_files (treeWalkSync None "" entries) (Some (tocFiles fileExists)))).
  { pose proof (f_equal (map fst)
                  (items_from_files mime_lookup spine
                     (digits_for (all_files (treeWalkSync None "" entries)
                                    (Some (tocFiles fileExists)))) 
                     (all_files (treeWalkSync None "" entries) (Some (tocFiles fileExists))) 0))
      as E.
    rewrite !map_map in E. cbn [fst] in E. rewrite map_id in E. exact E. }
  rewrite E. now apply NoDup_filter.
Qed.

Lemma generated_files_are_new_witness :
  NoDup (all_files ["a.xhtml"; "img/cover.png"; "part/b.html"; "part/notes.txt"]
           (Some (tocFiles Samples.book_has))) /\
  NoDup (map item_href
           (manifest_items Samples.mime_of ["a.xhtml"]
              (all_files ["a.xhtml"; "img/cover.png"; "part/b.html"; "part/notes.txt"]
                 (Some (tocFiles Samples.book_has))))).
Proof.
  apply (generated_files_are_new Samples.book_disk Samples.book_has Samples.mime_of "book"
           Samples.book_listing ["a.xhtml"]).
  - reflexivity.
  - reflexivity.
  - intros name H. cbn in H. unfold Samples.book_has.
    destruct H as [<-|[<-|[<-|[]]]]; reflexivity.
  - reflexivity.
Defined.

(** ** The identifier *)

Section UuidFacts.

Lemma to_hex_digit (v : nat) :
  v < 16 -> exists c, to_hex v = String c EmptyString /\ is_hex_digit c = true.
Proof.
  intros H. do 16 (destruct v as [|v]; [eexists; split; reflexivity|]). lia.
Qed.

Lemma to_hex_variant (r : nat) :
  r < 16 ->
  exists c, to_hex (Nat.lor (Nat.land r 3) 8) = String c EmptyString /\
            is_variant_digit c = true.
Proof.
  intros H.
  do 16 (destruct r as [|r]; [eexists; split; [vm_compute; reflexivity|reflexivity]|]).
  lia.
Qed.

Lemma fill_follows (draw : nat -> nat) :
  (forall k, draw k < 16) ->
  forall template k, follows template (fill draw template k) = true.
Proof.
  intros Hd. induction template as [|t template IH]; intros k; [reflexivity|].
  cbn [fill]. destruct (Ascii.eqb t "x") eqn:Ex; [|destruct (Ascii.eqb t "y") eqn:Ey].
  - destruct (to_hex_digit (draw k) (Hd k)) as (c & -> & Hc).
    cbn [String.append follows]. now rewrite Ex, Hc, IH.
  - destruct (to_hex_variant (draw k) (Hd k)) as (c & -> & Hc).
    cbn [String.append follows]. now rewrite Ex, Ey, Hc, IH.
  - cbn [follows]. now rewrite Ex, Ey, Ascii.eqb_refl, IH.
Qed.

Lemma follows_length :
  forall template s, follows template s = true -> String.length s = String.length template.
Proof.
  induction template as [|t template IH]; intros [|c s] Hf; try discriminate; [reflexivity|].
  cbn [follows] in Hf. apply andb_true_iff in Hf. cbn [String.length].
  f_equal. apply IH. exact (proj2 Hf).
Qed.

Lemma getUUID_follows (draw : nat -> nat) :
  (forall k, draw k < 16) ->
  follows "xxxxxxxx-xxxx-4xxx-yxxx-xxxxxxxxxxxx" (getUUID draw) = true.
Proof.
  intros Hd. unfold getUUID. apply fill_follows. exact Hd.
Qed.

End UuidFacts.

(** X28. Whatever [Math.random] returns, [getUUID] gives a version 4
    identifier in the usual notation: 36 characters, groups of 8, 4, 4, 4
    and 12 lower-case hexadecimal digits with dashes between them, the third
    group starting with [4] and the fourth with [8], [9], [a] or [b]. *)
Theorem identifier_is_version_4 (draw : nat -> nat) :
  (forall k, draw k < 16) ->
  version4 (getUUID draw) = true /\ String.length (getUUID draw) = 36.
Proof.
  intros Hd. pose proof (getUUID_follows draw Hd) as H. split.
  - unfold version4. exact H.
  - apply follows_length in H. rewrite H. reflexivity.
Qed.

Lemma identifier_is_version_4_witness :
  version4 (getUUID (fun k => k mod 16)) = true /\
  String.length (getUUID (fun k => k mod 16)) = 36.
Proof.
  apply (identifier_is_version_4 (fun k => k mod 16)).
  intros k. apply Nat.mod_upper_bound. discriminate.
Defined.
